(** * Solana debug adapter: path remapping, breakpoint store and engine bridge

    A shallow embedding of the TypeScript sources of the debug adapter
    ([debugRuntime.ts], the [SolanaRuntime] class, and the debug session,
    the [SolanaDebugSession] class) together with the properties of the
    path translation, the breakpoint store, the memory read handler and the
    single-flight engine bridge.

    Conventions.
    - A JavaScript string is a [string]; [undefined] is [None].  A string
      that the code indexes character by character (a source line) is
      the list of its UTF-16 code units.
    - A JavaScript exception is the [Throw] result of [completion].
    - JavaScript numbers that hold indices, identifiers and sizes are [Z];
      the arithmetic on the numbers of a request is rounded as the
      doubles of JavaScript are, see [Number].
    - Objects that the code mutates through several references
      (breakpoint records) live in an explicit heap and are named by
      their address. *)

From Stdlib Require Import ZArith Ascii String List Bool Lia.
From stdpp Require Import gmap strings list.

Local Open Scope Z_scope.

(** ** Completion records *)

Inductive error : Type :=
| TypeError (msg : string)
| SyntaxError (msg : string).

Inductive completion (A : Type) : Type :=
| Return (a : A)
| Throw (e : error).
Arguments Return {A} a.
Arguments Throw {A} e.

Definition bind {A B} (m : completion A) (k : A → completion B) : completion B :=
  match m with
  | Return a => k a
  | Throw e => Throw e
  end.

Notation "'let*' x ':=' m 'in' k" := (bind m (fun x => k))
  (at level 10, x pattern, m at level 100, k at level 200).

(** ** The string primitives of the JavaScript standard library *)

Module JS.

(** [s.startsWith(t)] *)
Fixpoint startsWith (s t : string) {struct t} : bool :=
  match t, s with
  | EmptyString, _ => true
  | String a t', String b s' => if Ascii.eqb a b then startsWith s' t' else false
  | String _ _, EmptyString => false
  end.

(** [s.includes(t)]: [t] occurs somewhere in [s]. *)
Fixpoint includes (s t : string) : bool :=
  startsWith s t ||
  match s with
  | EmptyString => false
  | String _ s' => includes s' t
  end.

(** [s.substring(n)] *)
Fixpoint substring (n : nat) (s : string) : string :=
  match n, s with
  | O, _ => s
  | S n', String _ s' => substring n' s'
  | S _, EmptyString => EmptyString
  end.

(** The leftmost occurrence of [sep] in [s]: the text before it and the
    text after it ([s.indexOf(sep)] followed by the two [substring]s of
    the [split] algorithm). *)
Fixpoint cut (sep s : string) : option (string * string) :=
  if startsWith s sep then Some (EmptyString, substring (String.length sep) s)
  else match s with
       | EmptyString => None
       | String c s' =>
           match cut sep s' with
           | Some (b, a) => Some (String c b, a)
           | None => None
           end
       end.

(** The loop of [String.prototype.split] for a non-empty separator: cut at
    the leftmost occurrence, go on after it.  Every cut removes at least
    one character, so [String.length s] rounds are enough
    (see [split_unfold]). *)
Fixpoint split_loop (fuel : nat) (sep s : string) : list string :=
  match fuel with
  | O => [s]
  | S fuel' =>
      match cut sep s with
      | None => [s]
      | Some (b, a) => b :: split_loop fuel' sep a
      end
  end.

Fixpoint chars (s : string) : list string :=
  match s with
  | EmptyString => []
  | String c s' => String c EmptyString :: chars s'
  end.

(** [s.split(sep)] *)
Definition split (s sep : string) : list string :=
  match sep with
  | EmptyString => chars s
  | _ => split_loop (String.length s) sep s
  end.

(** [s[i]] *)
Fixpoint charAt (l : string) (i : nat) : option ascii :=
  match l, i with
  | EmptyString, _ => None
  | String c _, O => Some c
  | String _ l', S i' => charAt l' i'
  end.

(** The UTF-16 code units of a text of ASCII characters. *)
Definition units (s : string) : list Z :=
  (λ c, Z.of_N (N_of_ascii c)) <$> list_ascii_of_string s.

(** [a + x] where [x] may be [undefined]: the string concatenation
    converts [undefined] to the text "undefined". *)
Definition ToString (x : option string) : string := default "undefined" x.

(** [Array.prototype.join(",")], which is what [a + arr] applies to an
    array operand. *)
Fixpoint join (l : list string) : string :=
  match l with
  | [] => EmptyString
  | [x] => x
  | x :: l' => x +:+ "," +:+ join l'
  end.

End JS.

(** ** The numbers of JavaScript

    A number is an IEEE 754 double.  The integers are modelled by [Z]:
    an integer is a number when it has at most 53 significant bits, and
    the sum and the difference of two numbers are the exact result
    rounded to the nearest number, ties to the even significand.
    Fractions, NaN and the infinities (results of magnitude 2^1024 and
    above) are not represented. *)

Module Number.

(** The number nearest to the integer [x]. *)
Definition round (x : Z) : Z :=
  let a := Z.abs x in
  if a <? 9007199254740992 then x
  else
    let e := Z.log2 a - 52 in
    let q := Z.shiftr a e in
    let r := a - Z.shiftl q e in
    let half := Z.shiftl 1 (e - 1) in
    let q' := if r <? half then q
              else if half <? r then q + 1
              else if Z.even q then q else q + 1 in
    Z.sgn x * Z.shiftl q' e.

(** [a + b] and [a - b] on numbers. *)
Definition add (a b : Z) : Z := round (a + b).
Definition sub (a b : Z) : Z := round (a - b).

(** The integers that are numbers, far enough from the overflow for a
    sum of two of them to be finite. *)
Definition isInteger (x : Z) : Prop := round x = x ∧ Z.abs x ≤ 2 ^ 1022.

End Number.

(** [x?.f(...)] in a condition: [undefined] is falsy. *)
Definition optional {A} (x : option A) (f : A → bool) : bool :=
  match x with
  | Some v => f v
  | None => false
  end.

(** ** The Debug Adapter Protocol data the adapter inspects *)

Record Source := {
  src_name : option string;
  src_path : option string;
  src_sourceReference : option Z
}.

Record StackFrame := {
  frame_id : Z;
  frame_name : string;
  frame_source : option Source;
  frame_line : Z;
  frame_column : Z
}.

Record StackTraceBody := {
  stackFrames : list StackFrame;
  totalFrames : option Z
}.

(** The body of a decoded response: the adapter looks inside stack-trace
    bodies only, any other body is passed through. *)
Inductive Body :=
| StackTrace (b : StackTraceBody)
| ReadMemory (address data : string) (unreadableBytes : Z)
| OtherBody (json : string).

Record Response := {
  request_seq : Z;
  success : bool;
  command : string;
  body : option Body
}.

(** ** Path translation *)

Module Path.
Import JS.

(** The forward rule as [SolanaDebugSession.setBreakPointsRequest] applies
    it to [args.source.path]. *)
Definition toEnginePath (path : option string) : string :=
  let lldbPath := path ≫= (λ p, split p "code/" !! 1%nat) in
  if optional lldbPath (λ r, includes r "sdk") then
    "home/home/" +:+ ToString (lldbPath ≫= (λ r, split r "sdk/program/" !! 1%nat))
  else if optional lldbPath (λ r, includes r "rust-solana") then
    "/home/runner/work/bpf-tools/bpf-tools/out/rust/"
      +:+ ToString (lldbPath ≫= (λ r, split r "rust-solana-1.59.0/" !! 1%nat))
  else
    "home/" +:+ ToString lldbPath.

(** The forward rule as [SolanaRuntime.setBreakPoint] applies it: no
    optional chaining, and the result of [split] is concatenated as a
    whole array. *)
Definition runtimeEnginePath (path : string) : completion string :=
  match split path "code/" !! 1%nat with
  | None => Throw (TypeError "Cannot read properties of undefined (reading 'includes')")
  | Some lldbPath =>
      Return
        (if includes lldbPath "sdk" then
           "home/home/" +:+ join (split lldbPath "sdk/program/")
         else if includes lldbPath "rust-solana" then
           "/home/runner/work/bpf-tools/bpf-tools/out/rust/"
             +:+ join (split lldbPath "rust-solana-1.59.0/")
         else
           "home/" +:+ join (split lldbPath "code/"))
  end.

Definition solSdkPath : string := "/home/wj/temp/test_theia/debug-test/code/sdk/program/".
Definition rustCorePath : string := "/home/wj/temp/test_theia/debug-test/code/rust-solana-1.59.0/".
Definition projectPath : string := "/home/wj/temp/test_theia/debug-test/code/".

(** The reverse rule of [SolanaDebugSession.lldbRun], applied to
    [stackFrames[id].source?.path]. *)
Definition toEditorPath (sourcePath : option string) : string :=
  if optional sourcePath (λ p, includes p "home/home/") then
    solSdkPath +:+ ToString (sourcePath ≫= (λ p, split p "home/home/" !! 1%nat))
  else if optional sourcePath (λ p, includes p "/home/runner") then
    rustCorePath +:+ ToString (sourcePath ≫= (λ p, split p "out/rust/" !! 1%nat))
  else
    projectPath +:+ ToString (sourcePath ≫= (λ p, split p "home/" !! 1%nat)).

End Path.

(** ** Rewriting a stack-trace response ([lldbRun], the
    [request_stackTrace] case) *)

Module StackTraceRewrite.
Import JS Path.

Definition set_src_name (n : option string) (s : Source) : Source :=
  {| src_name := n; src_path := src_path s;
     src_sourceReference := src_sourceReference s |}.

Definition set_src_path (p : option string) (s : Source) : Source :=
  {| src_name := src_name s; src_path := p;
     src_sourceReference := src_sourceReference s |}.

Definition set_frame_source (s : Source) (f : StackFrame) : StackFrame :=
  {| frame_id := frame_id f; frame_name := frame_name f; frame_source := Some s;
     frame_line := frame_line f; frame_column := frame_column f |}.

(** One round of the loop body on the frame [stackFrames[id]]. *)
Definition rewriteFrame (f : StackFrame) : completion StackFrame :=
  match frame_source f with
  | Some s =>
      match src_sourceReference s with
      | Some _ =>
          (* source.sourceReference !== undefined: name the source after
             the frame and [continue] *)
          Return (set_frame_source (set_src_name (Some (frame_name f)) s) f)
      | None =>
          Return (set_frame_source (set_src_path (Some (toEditorPath (src_path s))) s) f)
      end
  | None =>
      (* [source?.sourceReference] and [source?.path] are undefined, the
         assignment to [source!.path] fails *)
      Throw (TypeError "Cannot set properties of undefined (setting 'path')")
  end.

(** [for (var id = 0; id < totalFrames; id++)], with [n] rounds left. *)
Fixpoint rewriteLoop (n : nat) (id : nat) (frames : list StackFrame)
  : completion (list StackFrame) :=
  match n with
  | O => Return frames
  | S n' =>
      match frames !! id with
      | None => Throw (TypeError "Cannot read properties of undefined (reading 'source')")
      | Some f =>
          let* f' := rewriteFrame f in
          rewriteLoop n' (S id) (<[id := f']> frames)
      end
  end.

Definition rewriteBody (b : StackTraceBody) : completion StackTraceBody :=
  (* totalFrames = (totalFrames !== undefined) ? totalFrames : 0 *)
  let total := default 0 (totalFrames b) in
  let* frames := rewriteLoop (Z.to_nat total) 0 (stackFrames b) in
  Return {| stackFrames := frames; totalFrames := totalFrames b |}.

(** [if (funcName === 'request_stackTrace') { ... }] on the decoded
    response. *)
Definition rewriteResponse (funcName : string) (r : Response) : completion Response :=
  if String.eqb funcName "request_stackTrace" then
    match body r with
    | None => Throw (TypeError "Cannot read properties of undefined (reading 'totalFrames')")
    | Some (ReadMemory _ _ _) | Some (OtherBody _) => Return r
    | Some (StackTrace b) =>
        let* b' := rewriteBody b in
        Return {| request_seq := request_seq r; success := success r;
                  command := command r; body := Some (StackTrace b') |}
    end
  else Return r.

End StackTraceRewrite.


(** ** The embedded engine, seen from the adapter *)

(** The entry points the adapter calls through [lldb.ccall]. *)
Inductive EngineCall :=
| create_target (file : string)
| execute_command (cmd : string)
| set_breakpoint (path : string) (line : Z)
| request_next
| request_stepIn
| request_stepOut
| get_stack_trace
| request (funcName : string) (rxPtr : Z).

(** The module returned by [lldbModule(...)]: the calls made into it
    (oldest first) and the buffers that are allocated in its memory, with
    the text they hold. *)
Record Engine := {
  calls : list EngineCall;
  buffers : gmap Z string
}.

Definition ccall (c : EngineCall) (e : Engine) : Engine :=
  {| calls := calls e ++ [c]; buffers := buffers e |}.

(** ** The runtime ([SolanaRuntime], debugRuntime.ts) *)

Record ISolanaBreakpoint := {
  bp_id : Z;
  bp_line : Z;
  bp_verified : bool
}.

(** A breakpoint record is an object: the array of its file, the value
    returned by [setBreakPoint] and the arguments of a scheduled event all
    refer to the same record, named here by its address in [heap]. *)
Abbreviation loc := nat.

(** [sendEvent(event, ...args)] *)
Inductive RuntimeEvent :=
| stopOnEntry
| stopOnStep
| stopOnBreakpoint
| breakpointValidated (bp : loc)
| end_of_program.

Record SolanaRuntime := {
  lldb : option Engine;                       (* undefined until initLLDB *)
  _sourceLines : list (list Z);                (* string[], each line as its code units *)
  _sourceTextAsMemory : list Z;               (* a Buffer: bytes 0..255 *)
  _breakPoints : gmap string (list loc);      (* Map<string, ISolanaBreakpoint[]> *)
  _breakpointId : Z;
  heap : list ISolanaBreakpoint;              (* the breakpoint records ever created *)
  timers : list RuntimeEvent                  (* setTimeout(() => emit(...), 0), pending *)
}.

Module Runtime.
Import JS Path.

(** [new SolanaRuntime()] *)
Definition new : SolanaRuntime :=
  {| lldb := None; _sourceLines := []; _sourceTextAsMemory := [];
     _breakPoints := ∅; _breakpointId := 1; heap := []; timers := [] |}.

Definition set_lldb (e : option Engine) (rt : SolanaRuntime) : SolanaRuntime :=
  {| lldb := e; _sourceLines := _sourceLines rt;
     _sourceTextAsMemory := _sourceTextAsMemory rt;
     _breakPoints := _breakPoints rt; _breakpointId := _breakpointId rt;
     heap := heap rt; timers := timers rt |}.

Definition set_breakPoints (m : gmap string (list loc)) (rt : SolanaRuntime) : SolanaRuntime :=
  {| lldb := lldb rt; _sourceLines := _sourceLines rt;
     _sourceTextAsMemory := _sourceTextAsMemory rt;
     _breakPoints := m; _breakpointId := _breakpointId rt;
     heap := heap rt; timers := timers rt |}.

Definition set_breakpointId (n : Z) (rt : SolanaRuntime) : SolanaRuntime :=
  {| lldb := lldb rt; _sourceLines := _sourceLines rt;
     _sourceTextAsMemory := _sourceTextAsMemory rt;
     _breakPoints := _breakPoints rt; _breakpointId := n;
     heap := heap rt; timers := timers rt |}.

Definition set_heap (h : list ISolanaBreakpoint) (rt : SolanaRuntime) : SolanaRuntime :=
  {| lldb := lldb rt; _sourceLines := _sourceLines rt;
     _sourceTextAsMemory := _sourceTextAsMemory rt;
     _breakPoints := _breakPoints rt; _breakpointId := _breakpointId rt;
     heap := h; timers := timers rt |}.

Definition set_timers (t : list RuntimeEvent) (rt : SolanaRuntime) : SolanaRuntime :=
  {| lldb := lldb rt; _sourceLines := _sourceLines rt;
     _sourceTextAsMemory := _sourceTextAsMemory rt;
     _breakPoints := _breakPoints rt; _breakpointId := _breakpointId rt;
     heap := heap rt; timers := t |}.

(** [this.lldb.ccall(...)]: fails when the module has not been loaded. *)
Definition lldb_ccall (c : EngineCall) (rt : SolanaRuntime) : completion SolanaRuntime :=
  match lldb rt with
  | Some e => Return (set_lldb (Some (ccall c e)) rt)
  | None => Throw (TypeError "Cannot read properties of undefined (reading 'ccall')")
  end.

(** [initLLDB]: load the module, create the target, attach to the remote
    endpoint (the executable is copied into the module's file system
    first, which leaves no trace in this state). *)
Definition initLLDB (rt : SolanaRuntime) : SolanaRuntime :=
  set_lldb (Some {| calls := [create_target "executable.so";
                              execute_command "target list";
                              execute_command "gdb-remote 9007"];
                    buffers := ∅ |}) rt.

(** [sendEvent]: the emission is deferred with [setTimeout(..., 0)]. *)
Definition sendEvent (ev : RuntimeEvent) (rt : SolanaRuntime) : SolanaRuntime :=
  set_timers (timers rt ++ [ev]) rt.

Definition set_verified (v : bool) (bp : ISolanaBreakpoint) : ISolanaBreakpoint :=
  {| bp_id := bp_id bp; bp_line := bp_line bp; bp_verified := v |}.

(** [verifyBreakpoints(path)]: every record of the file is marked verified
    and announced. *)
Definition verifyBreakpoints (path : string) (rt : SolanaRuntime) : SolanaRuntime :=
  match _breakPoints rt !! path with
  | Some bps =>
      foldl (λ rt (bp : loc),
               sendEvent (breakpointValidated bp)
                 (set_heap (alter (set_verified true) bp (heap rt)) rt))
            rt bps
  | None => rt
  end.

(** The first part of [setBreakPoint], up to and including [bps.push(bp)]. *)
Definition pushBreakpoint (path : string) (line : Z) (rt : SolanaRuntime)
  : loc * SolanaRuntime :=
  let bp := {| bp_verified := false; bp_line := line; bp_id := _breakpointId rt |} in
  let addr := length (heap rt) in
  let rt := set_heap (heap rt ++ [bp]) (set_breakpointId (_breakpointId rt + 1) rt) in
  let bps := default [] (_breakPoints rt !! path) in
  (addr, set_breakPoints (<[path := bps ++ [addr]]> (_breakPoints rt)) rt).

(** [setBreakPoint(path, line)] *)
Definition setBreakPoint (path : string) (line : Z) (rt : SolanaRuntime)
  : completion (loc * SolanaRuntime) :=
  let* lldbPath := runtimeEnginePath path in
  let* rt := lldb_ccall (set_breakpoint lldbPath line) rt in
  let '(bp, rt) := pushBreakpoint path line rt in
  let rt := verifyBreakpoints path rt in
  Return (bp, rt).

(** [bps.findIndex(pred)] *)
Fixpoint findIndex {A} (pred : A → bool) (l : list A) : option nat :=
  match l with
  | [] => None
  | x :: l' => if pred x then Some O else S <$> findIndex pred l'
  end.

(** [clearBreakPoint(path, line)] *)
Definition clearBreakPoint (path : string) (line : Z) (rt : SolanaRuntime)
  : option loc * SolanaRuntime :=
  match _breakPoints rt !! path with
  | Some bps =>
      match findIndex (λ bp : loc, match heap rt !! bp with
                                   | Some r => bp_line r =? line
                                   | None => false
                                   end) bps with
      | Some index =>
          (bps !! index,
           set_breakPoints (<[path := delete index bps]> (_breakPoints rt)) rt)
      | None => (None, rt)
      end
  | None => (None, rt)
  end.

(** [clearBreakpoints(path)] *)
Definition clearBreakpoints (path : string) (rt : SolanaRuntime) : SolanaRuntime :=
  set_breakPoints (delete path (_breakPoints rt)) rt.

(** The loop of [getBreakpoints] over the code units [l[i]], [l[i+1]],
    ...; 32 is the code unit of [' ']. *)
Fixpoint scanLine (l : list Z) (i : Z) (sawSpace : bool) (bps : list Z) : list Z :=
  match l with
  | [] => bps
  | c :: l' =>
      if negb (c =? 32) then
        if sawSpace then scanLine l' (i + 1) false (bps ++ [i])
        else scanLine l' (i + 1) sawSpace bps
      else scanLine l' (i + 1) true bps
  end.

(** [getBreakpoints(path, line)] *)
Definition getBreakpoints (path : string) (line : Z) (rt : SolanaRuntime)
  : completion (list Z) :=
  match (if 0 <=? line then _sourceLines rt !! Z.to_nat line else None) with
  | Some l => Return (scanLine l 0 true [])
  | None => Throw (TypeError "Cannot read properties of undefined (reading 'length')")
  end.

(** The other operations of the runtime. *)
Definition start (rt : SolanaRuntime) : SolanaRuntime := sendEvent stopOnEntry rt.

Definition continue (rt : SolanaRuntime) : completion SolanaRuntime :=
  let* rt := lldb_ccall (execute_command "continue") rt in
  Return (sendEvent stopOnBreakpoint rt).

Definition next (rt : SolanaRuntime) : completion SolanaRuntime :=
  let* rt := lldb_ccall request_next rt in
  Return (sendEvent stopOnStep rt).

Definition stepIn (rt : SolanaRuntime) : completion SolanaRuntime :=
  let* rt := lldb_ccall request_stepIn rt in
  Return (sendEvent stopOnStep rt).

Definition stepOut (rt : SolanaRuntime) : completion SolanaRuntime :=
  let* rt := lldb_ccall request_stepOut rt in
  Return (sendEvent stopOnStep rt).

(** A timer fires: the oldest scheduled event is emitted to the
    listeners. *)
Definition fireTimer (rt : SolanaRuntime) : option (RuntimeEvent * SolanaRuntime) :=
  match timers rt with
  | [] => None
  | ev :: rest => Some (ev, set_timers rest rt)
  end.

End Runtime.

(** ** Node's [Buffer] *)

Module Buffer.

(** An index argument of [slice]: negative values count from the end,
    and the result is clamped to the buffer. *)
Definition clampIndex (len i : Z) : Z :=
  if i <? 0 then Z.max (len + i) 0 else Z.min i len.

(** [buf.slice(start, end)]: the bytes from index [start] up to, but not
    including, index [end]. *)
Definition slice (buf : list Z) (start end_ : Z) : list Z :=
  let len := Z.of_nat (length buf) in
  let s := clampIndex len start in
  let e := clampIndex len end_ in
  take (Z.to_nat (e - s)) (drop (Z.to_nat s) buf).

Definition alphabet : string :=
  "ABCDEFGHIJKLMNOPQRSTUVWXYZabcdefghijklmnopqrstuvwxyz0123456789+/".

Definition sextet (n : Z) : ascii := default "="%char (JS.charAt alphabet (Z.to_nat n)).

(** [buf.toString('base64')] *)
Fixpoint base64 (bytes : list Z) : string :=
  match bytes with
  | [] => EmptyString
  | [a] =>
      String (sextet (Z.shiftr a 2))
        (String (sextet (Z.shiftl (Z.land a 3) 4)) "==")
  | [a; b] =>
      String (sextet (Z.shiftr a 2))
        (String (sextet (Z.lor (Z.shiftl (Z.land a 3) 4) (Z.shiftr b 4)))
           (String (sextet (Z.shiftl (Z.land b 15) 2)) "="))
  | a :: b :: c :: rest =>
      String (sextet (Z.shiftr a 2))
        (String (sextet (Z.lor (Z.shiftl (Z.land a 3) 4) (Z.shiftr b 4)))
           (String (sextet (Z.lor (Z.shiftl (Z.land b 15) 2) (Z.shiftr c 6)))
              (String (sextet (Z.land c 63)) (base64 rest))))
  end.

End Buffer.

(** ** The debug session ([SolanaDebugSession]) *)

Inductive DapEvent :=
| StoppedEvent (reason : string) (threadId : Z)
| BreakpointEvent (reason : string) (verified : bool) (id : Z)
| TerminatedEvent.

(** What the session hands to the editor. *)
Inductive DapMessage :=
| SentResponse (r : Response)
| SentEvent (e : DapEvent).

(** Where a call of [lldbRun] stands: the statement whose [await] it is
    suspended at, with the local variables that are live there. *)
Inductive Pc :=
| Polling                                        (* the test of the [while] loop / [await _sleep(10)] *)
| AwaitMalloc (rxPtr : Z)                        (* flag set, [await _malloc(...)] *)
| AwaitWrite (rxPtr : Z)                         (* [await stringToUTF8(request, rxPtr, ...)] *)
| AwaitCcall (rxPtr : Z)                         (* [await ccall(funcName, ..., [rxPtr], {async: true})] *)
| AwaitRead (rxPtr txPtr : Z) (responseStr : string)  (* [await UTF8ToString(txPtr)] *)
| AwaitFreeRx (txPtr : Z)                        (* response sent, [await _free(rxPtr)] *)
| AwaitFreeTx                                    (* [await _free(txPtr)] *)
| Returned
| Thrown (e : error) (leaked : list Z).          (* left by an exception: flag and buffers stay *)

Record Activation := {
  funcName : string;
  request_text : string;
  pc : Pc
}.

Record SolanaDebugSession := {
  _isRunningLldb : bool;
  _runtime : SolanaRuntime;
  sent : list DapMessage;
  activations : list Activation     (* the calls of [lldbRun], in the order they were made *)
}.

Record VariablesArguments := {
  variablesReference : Z;
  arg_filter : option string
}.

Record ReadMemoryArguments := {
  memoryReference : string;
  arg_offset : option Z;
  arg_count : Z
}.

(** What a request handler does up to its first [await]: it answers at
    once, or it calls [lldbRun]. *)
Inductive HandlerAction :=
| Respond (r : Response)
| CallLldbRun (funcName request : string).

Module Session.
Import JS Path StackTraceRewrite.

(** [new SolanaDebugSession(fileAccessor)] *)
Definition new : SolanaDebugSession :=
  {| _isRunningLldb := false; _runtime := Runtime.new; sent := []; activations := [] |}.

Definition threadID : Z := 1.

(** The listeners that the constructor registers on the runtime. *)
Definition listener (rt : SolanaRuntime) (ev : RuntimeEvent) : option DapEvent :=
  match ev with
  | stopOnEntry => Some (StoppedEvent "entry" threadID)
  | stopOnStep => Some (StoppedEvent "step" threadID)
  | stopOnBreakpoint => Some (StoppedEvent "breakpoint" threadID)
  | breakpointValidated bp =>
      (λ r, BreakpointEvent "changed" (bp_verified r) (bp_id r)) <$> heap rt !! bp
  | end_of_program => Some TerminatedEvent
  end.

Definition set_flag (b : bool) (s : SolanaDebugSession) : SolanaDebugSession :=
  {| _isRunningLldb := b; _runtime := _runtime s; sent := sent s;
     activations := activations s |}.

Definition set_runtime (rt : SolanaRuntime) (s : SolanaDebugSession) : SolanaDebugSession :=
  {| _isRunningLldb := _isRunningLldb s; _runtime := rt; sent := sent s;
     activations := activations s |}.

Definition set_engine (e : Engine) (s : SolanaDebugSession) : SolanaDebugSession :=
  set_runtime (Runtime.set_lldb (Some e) (_runtime s)) s.

Definition set_activations (l : list Activation) (s : SolanaDebugSession)
  : SolanaDebugSession :=
  {| _isRunningLldb := _isRunningLldb s; _runtime := _runtime s; sent := sent s;
     activations := l |}.

(** [this.sendResponse(r)] / [this.sendEvent(e)] *)
Definition send (m : DapMessage) (s : SolanaDebugSession) : SolanaDebugSession :=
  {| _isRunningLldb := _isRunningLldb s; _runtime := _runtime s;
     sent := sent s ++ [m]; activations := activations s |}.

Definition set_pc (p : Pc) (a : Activation) : Activation :=
  {| funcName := funcName a; request_text := request_text a; pc := p |}.

(** The activation [i] moves on to [p]. *)
Definition goto (i : nat) (p : Pc) (s : SolanaDebugSession) : SolanaDebugSession :=
  set_activations (alter (set_pc p) i (activations s)) s.

Definition set_buffers (b : gmap Z string) (e : Engine) : Engine :=
  {| calls := calls e; buffers := b |}.

Definition set_success (b : bool) (r : Response) : Response :=
  {| request_seq := request_seq r; success := b; command := command r; body := body r |}.

Definition set_body (b : Body) (r : Response) : Response :=
  {| request_seq := request_seq r; success := success r; command := command r;
     body := Some b |}.

(** [readMemoryRequest(response, { offset = 0, count })] *)
Definition readMemoryRequest (response : Response) (args : ReadMemoryArguments)
    (s : SolanaDebugSession) : HandlerAction :=
  let offset := default 0 (arg_offset args) in
  let count := arg_count args in
  let memory := _sourceTextAsMemory (_runtime s) in
  Respond (set_body (ReadMemory "0"
                       (Buffer.base64 (Buffer.slice memory offset count))
                       (Number.sub (Z.of_nat (length memory)) (Number.add offset count)))
             response).

(** [variablesRequest(response, args, request)]; [request] is the text
    [JSON.stringify(request)]. *)
Definition variablesRequest (response : Response) (args : VariablesArguments)
    (request : string) : HandlerAction :=
  if bool_decide (arg_filter args = Some "named") then
    Respond (set_success false response)
  else
    CallLldbRun "request_variables" request.

(** [setBreakPointsRequest]: the source path of the request is replaced by
    the engine path, then the request is serialised (by [stringify], which
    stands for [JSON.stringify] on a request with the given path) and
    handed to [lldbRun]. *)
Definition setBreakPointsRequest (path : option string)
    (stringify : string → string) : HandlerAction :=
  CallLldbRun "request_setBreakpoints" (stringify (toEnginePath path)).

Definition stackTraceRequest (request : string) : HandlerAction :=
  CallLldbRun "request_stackTrace" request.

Definition scopesRequest (request : string) : HandlerAction :=
  CallLldbRun "request_scopes" request.

Definition sourceRequest (request : string) : HandlerAction :=
  CallLldbRun "request_source" request.

(** One atomic stretch of an activation of [lldbRun]: from the point
    where it is suspended to its next [await] (or to its end).  The engine
    chooses the addresses it allocates and the text it answers;
    [JSON.parse] decodes the text or throws. *)
Inductive resume (i : nat) (a : Activation)
  : SolanaDebugSession → SolanaDebugSession → Prop :=
| resume_busy s :
    pc a = Polling → _isRunningLldb s = true →
    resume i a s s
| resume_enter s e rxPtr :
    pc a = Polling → _isRunningLldb s = false →
    lldb (_runtime s) = Some e → buffers e !! rxPtr = None →
    resume i a s
      (goto i (AwaitMalloc rxPtr)
         (set_engine (set_buffers (<[rxPtr := EmptyString]> (buffers e)) e)
            (set_flag true s)))
| resume_enter_unloaded s :
    pc a = Polling → _isRunningLldb s = false →
    lldb (_runtime s) = None →
    resume i a s
      (goto i (Thrown (TypeError "Cannot read properties of undefined (reading '_malloc')") [])
         (set_flag true s))
| resume_write s e rxPtr :
    pc a = AwaitMalloc rxPtr → lldb (_runtime s) = Some e →
    resume i a s
      (goto i (AwaitWrite rxPtr)
         (set_engine (set_buffers (<[rxPtr := request_text a]> (buffers e)) e) s))
| resume_ccall s e rxPtr :
    pc a = AwaitWrite rxPtr → lldb (_runtime s) = Some e →
    resume i a s
      (goto i (AwaitCcall rxPtr) (set_engine (ccall (request (funcName a) rxPtr) e) s))
| resume_result s e rxPtr txPtr responseStr :
    pc a = AwaitCcall rxPtr → lldb (_runtime s) = Some e →
    buffers e !! txPtr = None →
    resume i a s
      (goto i (AwaitRead rxPtr txPtr responseStr)
         (set_engine (set_buffers (<[txPtr := responseStr]> (buffers e)) e) s))
| resume_engine_error s rxPtr err :
    pc a = AwaitCcall rxPtr →
    resume i a s (goto i (Thrown err [rxPtr]) s)
| resume_send s e rxPtr txPtr responseStr responseJSON adjusted :
    pc a = AwaitRead rxPtr txPtr responseStr → lldb (_runtime s) = Some e →
    rewriteResponse (funcName a) responseJSON = Return adjusted →
    resume i a s
      (goto i (AwaitFreeRx txPtr)
         (set_engine (set_buffers (delete rxPtr (buffers e)) e)
            (send (SentResponse adjusted) s)))
| resume_parse_error s rxPtr txPtr responseStr msg :
    pc a = AwaitRead rxPtr txPtr responseStr →
    resume i a s (goto i (Thrown (SyntaxError msg) [rxPtr; txPtr]) s)
| resume_rewrite_error s rxPtr txPtr responseStr responseJSON err :
    pc a = AwaitRead rxPtr txPtr responseStr →
    rewriteResponse (funcName a) responseJSON = Throw err →
    resume i a s (goto i (Thrown err [rxPtr; txPtr]) s)
| resume_free s e txPtr :
    pc a = AwaitFreeRx txPtr → lldb (_runtime s) = Some e →
    resume i a s
      (goto i AwaitFreeTx (set_engine (set_buffers (delete txPtr (buffers e)) e) s))
| resume_return s :
    pc a = AwaitFreeTx →
    resume i a s (goto i Returned (set_flag false s)).

(** [lldbRun(funcName, request)] is called: a new activation, which runs
    at once up to its first [await]. *)
Definition lldbRun (funcName request : string)
    (s s' : SolanaDebugSession) : Prop :=
  let a := {| funcName := funcName; request_text := request; pc := Polling |} in
  resume (length (activations s)) a (set_activations (activations s ++ [a]) s) s'.

Inductive perform : HandlerAction → SolanaDebugSession → SolanaDebugSession → Prop :=
| perform_respond r s : perform (Respond r) s (send (SentResponse r) s)
| perform_call funcName request s s' :
    lldbRun funcName request s s' → perform (CallLldbRun funcName request) s s'.

(** The operations of the runtime that the handlers of the session call. *)
Inductive runtime_op : SolanaRuntime → SolanaRuntime → Prop :=
| op_initLLDB rt : lldb rt = None → runtime_op rt (Runtime.initLLDB rt)
| op_start rt : runtime_op rt (Runtime.start rt)
| op_continue rt rt' : Runtime.continue rt = Return rt' → runtime_op rt rt'
| op_next rt rt' : Runtime.next rt = Return rt' → runtime_op rt rt'
| op_stepIn rt rt' : Runtime.stepIn rt = Return rt' → runtime_op rt rt'
| op_stepOut rt rt' : Runtime.stepOut rt = Return rt' → runtime_op rt rt'.

(** One turn of the event loop of the session. *)
Inductive step : SolanaDebugSession → SolanaDebugSession → Prop :=
| step_handler action s s' :
    perform action s s' → step s s'
| step_resume i a s s' :
    activations s !! i = Some a → resume i a s s' → step s s'
| step_runtime s rt' :
    runtime_op (_runtime s) rt' → step s (set_runtime rt' s)
| step_timer s ev rt' :
    Runtime.fireTimer (_runtime s) = Some (ev, rt') →
    step s (match listener rt' ev with
            | Some e => send (SentEvent e) (set_runtime rt' s)
            | None => set_runtime rt' s
            end).

End Session.

(** ** Sample protocol data used in the examples below *)

Module Samples.
Import Path.

Definition fileSource (p : string) : Source :=
  {| src_name := Some "entrypoint.rs"; src_path := Some p; src_sourceReference := None |}.

Definition inlineSource (p : string) (ref : Z) : Source :=
  {| src_name := Some "entrypoint.rs"; src_path := Some p; src_sourceReference := Some ref |}.

Definition frame (id : Z) (name : string) (s : Source) : StackFrame :=
  {| frame_id := id; frame_name := name; frame_source := Some s;
     frame_line := 12; frame_column := 1 |}.

(** One frame in the SDK, all frames counted. *)
Definition sdkTrace : StackTraceBody :=
  {| stackFrames := [frame 0 "process_instruction"
                       (fileSource "home/home/sdk/program/src/entrypoint.rs")];
     totalFrames := Some 1 |}.

(** A path in which the marker occurs twice. *)
Definition twiceTrace : StackTraceBody :=
  {| stackFrames := [frame 0 "main" (fileSource "home/home/sdk/home/home/x.rs")];
     totalFrames := Some 1 |}.

(** The frame count is left out of the response. *)
Definition uncountedTrace : StackTraceBody :=
  {| stackFrames := [frame 0 "process_instruction"
                       (fileSource "home/home/sdk/program/src/entrypoint.rs")];
     totalFrames := None |}.

(** A frame whose source is supplied inline. *)
Definition inlineTrace : StackTraceBody :=
  {| stackFrames := [frame 0 "main" (inlineSource "home/home/a.rs" 1000)];
     totalFrames := Some 1 |}.

Definition inlineUncountedTrace : StackTraceBody :=
  {| stackFrames := [frame 0 "main" (inlineSource "home/home/a.rs" 1000)];
     totalFrames := None |}.

(** A runtime whose engine is loaded. *)
Definition ready : SolanaRuntime := Runtime.initLLDB Runtime.new.

(** The runtime after a breakpoint was set on line 5 of a project file,
    and after the timer of its notification has fired. *)
Definition afterSet : SolanaRuntime :=
  match Runtime.setBreakPoint "/home/wj/temp/test_theia/debug-test/code/src/lib.rs" 5
          ready with
  | Return (_, rt) => rt
  | Throw _ => ready
  end.

Definition afterTimer : SolanaRuntime := Runtime.set_timers [] afterSet.

Definition okResponse (command : string) : Response :=
  {| request_seq := 7; success := true; command := command; body := None |}.

(** A session whose engine is loaded. *)
Definition session : SolanaDebugSession := Session.set_runtime ready Session.new.

(** Two calls of [lldbRun], the second made while the first is
    outstanding. *)
Definition engine0 : Engine :=
  {| calls := [create_target "executable.so"; execute_command "target list";
               execute_command "gdb-remote 9007"];
     buffers := ∅ |}.

Definition call1 : Activation :=
  {| funcName := "request_stackTrace"; request_text := "{1}"; pc := Polling |}.

Definition call2 : Activation :=
  {| funcName := "request_scopes"; request_text := "{2}"; pc := Polling |}.

Definition call3 : Activation :=
  {| funcName := "request_variables"; request_text := "{3}"; pc := Polling |}.

Definition oneCall : SolanaDebugSession :=
  Session.goto 0 (AwaitMalloc 1024)
    (Session.set_engine
       (Session.set_buffers (<[1024 := EmptyString]> (buffers engine0)) engine0)
       (Session.set_flag true
          (Session.set_activations (activations session ++ [call1]) session))).

Definition twoCalls : SolanaDebugSession :=
  Session.set_activations (activations oneCall ++ [call2]) oneCall.

End Samples.

(** ** Vocabulary of the statements *)

Module Spec.
Import JS Path Runtime.

(** Every record created so far has an identifier below the counter. *)
Definition ids_below_counter (rt : SolanaRuntime) : Prop :=
  ∀ (bp : loc) r, heap rt !! bp = Some r → bp_id r < _breakpointId rt.

(** Marking a list of records verified, as [verifyBreakpoints] does. *)
Definition mark_all (bps : list loc) (h : list ISolanaBreakpoint) : list ISolanaBreakpoint :=
  foldl (λ h (bp : loc), alter (set_verified true) bp h) h bps.

(** The states of the runtime that its operations can produce; the
    session, which calls the engine on its own in [lldbRun], changes the
    calls and the buffers of a loaded engine. *)
Inductive reachable : SolanaRuntime → Prop :=
| reach_new : reachable new
| reach_initLLDB rt : reachable rt → reachable (initLLDB rt)
| reach_engine rt e e' :
    reachable rt → lldb rt = Some e → reachable (set_lldb (Some e') rt)
| reach_setBreakPoint path line rt bp rt' :
    reachable rt → setBreakPoint path line rt = Return (bp, rt') → reachable rt'
| reach_clearBreakPoint path line rt :
    reachable rt → reachable (clearBreakPoint path line rt).2
| reach_clearBreakpoints path rt :
    reachable rt → reachable (clearBreakpoints path rt)
| reach_start rt : reachable rt → reachable (start rt)
| reach_continue rt rt' : reachable rt → continue rt = Return rt' → reachable rt'
| reach_next rt rt' : reachable rt → next rt = Return rt' → reachable rt'
| reach_stepIn rt rt' : reachable rt → stepIn rt = Return rt' → reachable rt'
| reach_stepOut rt rt' : reachable rt → stepOut rt = Return rt' → reachable rt'
| reach_fireTimer rt ev rt' : reachable rt → fireTimer rt = Some (ev, rt') → reachable rt'.

Definition isSpace (c : option Z) : bool :=
  match c with
  | Some c => c =? 32
  | None => false
  end.

(** Offset [i] starts a run of non-space characters of [l]: the character
    at [i] is not a space, and [i] is the first offset of the line or the
    character before it is a space. *)
Definition startsRun (l : list Z) (i : nat) : bool :=
  match l !! i with
  | Some c => negb (c =? 32) && (Nat.eqb i 0 || isSpace (l !! (i - 1)%nat))
  | None => false
  end.

(** The starts of the runs of non-space characters of [l], in increasing
    order. *)
Definition runStarts (l : list Z) : list Z :=
  Z.of_nat <$> filter (λ i, startsRun l i = true) (seq 0 (length l)).


(** An activation of [lldbRun] holds the bridge from the moment it sets
    [_isRunningLldb] until it resets it; one that was left by an exception
    never resets it. *)
Definition holding (p : Pc) : bool :=
  match p with
  | Polling | Returned => false
  | _ => true
  end.

(** The buffers in the memory of the engine that belong to an
    activation. *)
Definition owned (p : Pc) : list Z :=
  match p with
  | AwaitMalloc rxPtr | AwaitWrite rxPtr | AwaitCcall rxPtr => [rxPtr]
  | AwaitRead rxPtr txPtr _ => [rxPtr; txPtr]
  | AwaitFreeRx txPtr => [txPtr]
  | Thrown _ leaked => leaked
  | Polling | AwaitFreeTx | Returned => []
  end.

(** The buffers that are allocated in the memory of the engine. *)
Definition allocated (rt : SolanaRuntime) : gset Z :=
  match lldb rt with
  | Some e => dom (buffers e)
  | None => ∅
  end.

Definition live (s : SolanaDebugSession) : gset Z := allocated (_runtime s).

(** No call of [lldbRun] is outstanding. *)
Definition idle (s : SolanaDebugSession) : Prop :=
  _isRunningLldb s = false ∧
  (∀ i a, activations s !! i = Some a → pc a = Returned) ∧
  live s = ∅.

(** The flag tells whether some activation holds the bridge; there is at
    most one, and the allocated buffers are exactly the ones it owns. *)
Definition bridge_inv (s : SolanaDebugSession) : Prop :=
  if _isRunningLldb s then
    ∃ i a, activations s !! i = Some a ∧ holding (pc a) = true ∧
      (∀ j b, activations s !! j = Some b → holding (pc b) = true → j = i) ∧
      (∀ p, p ∈ live s ↔ p ∈ owned (pc a)) ∧ NoDup (owned (pc a))
  else
    (∀ j b, activations s !! j = Some b → holding (pc b) = false) ∧ live s = ∅.

(** Order of service after an idle moment with [n0] earlier calls: the
    earlier calls have returned, call [n0] never waits, and a later call
    is served only once call [n0] has returned. *)
Definition fifo_inv (n0 : nat) (s : SolanaDebugSession) : Prop :=
  (n0 ≤ length (activations s))%nat ∧
  (∀ i a, (i < n0)%nat → activations s !! i = Some a → pc a = Returned) ∧
  (∀ a, activations s !! n0 = Some a → pc a ≠ Polling) ∧
  (∀ j b, (n0 < j)%nat → activations s !! j = Some b → pc b ≠ Polling →
     ∃ a, activations s !! n0 = Some a ∧ pc a = Returned).

Inductive reachable_from (s0 : SolanaDebugSession) : SolanaDebugSession → Prop :=
| reachable_refl : reachable_from s0 s0
| reachable_step s s' : reachable_from s0 s → Session.step s s' → reachable_from s0 s'.

End Spec.

(** ** Further request handlers of the session *)

Record BreakpointLocation := {
  loc_line : Z;
  loc_column : Z
}.

Module Handlers.
Import Session.

(** [breakpointLocationsRequest]: the [breakpoints] of the body of the
    response that is sent; [Throw] when the handler fails before it sends
    one.  A path that is absent or empty is falsy.
    [convertDebuggerColumnToClient] belongs to the base class of the
    session. *)
Definition breakpointLocationsRequest (convertDebuggerColumnToClient : Z → Z)
    (path : option string) (line : Z) (s : SolanaDebugSession)
  : completion (list BreakpointLocation) :=
  match path with
  | Some (String c p) =>
      let* bps := Runtime.getBreakpoints (String c p) line (_runtime s) in
      Return ((λ col, {| loc_line := line;
                         loc_column := convertDebuggerColumnToClient col |}) <$> bps)
  | Some EmptyString | None => Return []
  end.

(** [continueRequest]: [await this._runtime.continue()], then the
    response. *)
Definition continueRequest (response : Response) (s : SolanaDebugSession)
  : completion SolanaDebugSession :=
  let* rt := Runtime.continue (_runtime s) in
  Return (send (SentResponse response) (set_runtime rt s)).

(** [nextRequest] *)
Definition nextRequest (response : Response) (s : SolanaDebugSession)
  : completion SolanaDebugSession :=
  let* rt := Runtime.next (_runtime s) in
  Return (send (SentResponse response) (set_runtime rt s)).

(** [stepInRequest] *)
Definition stepInRequest (response : Response) (s : SolanaDebugSession)
  : completion SolanaDebugSession :=
  let* rt := Runtime.stepIn (_runtime s) in
  Return (send (SentResponse response) (set_runtime rt s)).

(** [stepOutRequest]: [this._runtime.stepOut()] is not awaited, so a
    failure of the runtime stays in the promise that nobody looks at and
    the response is sent in any case. *)
Definition stepOutRequest (response : Response) (s : SolanaDebugSession)
  : SolanaDebugSession :=
  send (SentResponse response)
    (match Runtime.stepOut (_runtime s) with
     | Return rt => set_runtime rt s
     | Throw _ => s
     end).

(** The turn of the event loop in which the oldest pending timer of the
    runtime fires: the listener that the constructor registered forwards
    the event. *)
Definition onTimer (s : SolanaDebugSession) : option SolanaDebugSession :=
  match Runtime.fireTimer (_runtime s) with
  | Some (ev, rt') =>
      Some (match listener rt' ev with
            | Some e => send (SentEvent e) (set_runtime rt' s)
            | None => set_runtime rt' s
            end)
  | None => None
  end.

End Handlers.

(** ** Further vocabulary of the statements *)

Module Spec2.
Import Runtime Spec.

(** The store is well formed: the list of every file holds addresses of
    records that exist, each at most once, and no record is in the lists
    of two files. *)
Definition store_wf (rt : SolanaRuntime) : Prop :=
  (∀ path bps, _breakPoints rt !! path = Some bps →
     NoDup bps ∧ ∀ bp : loc, bp ∈ bps → (bp < length (heap rt))%nat) ∧
  (∀ path1 path2 bps1 bps2 (bp : loc),
     _breakPoints rt !! path1 = Some bps1 → _breakPoints rt !! path2 = Some bps2 →
     bp ∈ bps1 → bp ∈ bps2 → path1 = path2).

(** The line of the record at an address. *)
Definition lineOf (rt : SolanaRuntime) (bp : loc) : option Z :=
  bp_line <$> heap rt !! bp.

(** Two states of the runtime that differ at most in the engine and in
    the pending timers. *)
Definition same_store (rt rt' : SolanaRuntime) : Prop :=
  _sourceLines rt' = _sourceLines rt ∧
  _sourceTextAsMemory rt' = _sourceTextAsMemory rt ∧
  _breakPoints rt' = _breakPoints rt ∧
  _breakpointId rt' = _breakpointId rt ∧
  heap rt' = heap rt.

(** The lists of [m'] are lists of [m] with some elements taken out. *)
Definition shrinks (m' m : gmap string (list loc)) : Prop :=
  ∀ path bps', m' !! path = Some bps' →
    ∃ bps, m !! path = Some bps ∧ bps' `sublist_of` bps.

(** The predicate of [clearBreakPoint]: the record at [bp] is on [line]. *)
Definition onLine (rt : SolanaRuntime) (line : Z) (bp : loc) : bool :=
  match heap rt !! bp with
  | Some r => bp_line r =? line
  | None => false
  end.

(** The events that the stepping operations and [start] schedule. *)
Definition isStop (ev : RuntimeEvent) : Prop :=
  ev = stopOnEntry ∨ ev = stopOnStep ∨ ev = stopOnBreakpoint.

(** A runtime whose breakpoint store was never used. *)
Definition untouched (rt : SolanaRuntime) : Prop :=
  heap rt = [] ∧ _breakPoints rt = ∅ ∧ _breakpointId rt = 1 ∧
  ∀ ev, ev ∈ timers rt → isStop ev.

(** The session [s] after one more call of [lldbRun] was made, while that
    call stands at [p]: the flag, the engine and the messages sent since
    are given. *)
Definition during (s : SolanaDebugSession) (a : Activation) (p : Pc) (flag : bool)
    (e : Engine) (msgs : list DapMessage) : SolanaDebugSession :=
  {| _isRunningLldb := flag;
     _runtime := set_lldb (Some e) (_runtime s);
     sent := sent s ++ msgs;
     activations := activations s ++ [Session.set_pc p a] |}.

(** The messages of the session that are stopped events or responses. *)
Definition isStopped (m : DapMessage) : Prop :=
  match m with
  | SentResponse _ => True
  | SentEvent (StoppedEvent reason threadId) =>
      threadId = 1 ∧ (reason = "entry" ∨ reason = "step" ∨ reason = "breakpoint")
  | SentEvent _ => False
  end.

End Spec2.

Module Samples2.

(** A stack-trace response that holds one frame of three. *)
Definition pagedTrace : StackTraceBody :=
  {| stackFrames := [Samples.frame 0 "process_instruction"
                       (Samples.fileSource "home/src/lib.rs")];
     totalFrames := Some 3 |}.

(** A project frame and a frame of the vendored runtime. *)
Definition mixedTrace : StackTraceBody :=
  {| stackFrames :=
       [Samples.frame 0 "process_instruction" (Samples.fileSource "home/src/lib.rs");
        Samples.frame 1 "fmt"
          (Samples.fileSource
             "/home/runner/work/bpf-tools/bpf-tools/out/rust/library/core/src/fmt/mod.rs");
        Samples.frame 2 "entrypoint" (Samples.inlineSource "home/home/a.rs" 1000)];
     totalFrames := Some 2 |}.

(** The runtime after two breakpoints were set on line 5 of a file. *)
Definition libPath : string := "/home/wj/temp/test_theia/debug-test/code/src/lib.rs".

Definition afterTwoSets : SolanaRuntime :=
  match Runtime.setBreakPoint libPath 5 Samples.afterSet with
  | Return (_, rt) => rt
  | Throw _ => Samples.afterSet
  end.

(** The same after [clearBreakPoint] on that line. *)
Definition afterClear : SolanaRuntime := (Runtime.clearBreakPoint libPath 5 afterTwoSets).2.

(** A session whose engine is not loaded and whose first call of
    [lldbRun] has failed for that reason, and the same after a second
    call. *)
Definition failedCall : SolanaDebugSession :=
  Session.goto 0
    (Thrown (TypeError "Cannot read properties of undefined (reading '_malloc')") [])
    (Session.set_flag true
       (Session.set_activations (activations Session.new ++ [Samples.call1])
          Session.new)).

Definition failedThenCalled : SolanaDebugSession :=
  Session.set_activations (activations failedCall ++ [Samples.call2]) failedCall.

End Samples2.

(** ** The string primitives on small inputs *)

Example split_two : JS.split "a/code/b/code/c" "code/" = ["a/"; "b/"; "c"].
Proof. reflexivity. Qed.

Example split_none : JS.split "a.rs" "code/" = ["a.rs"].
Proof. reflexivity. Qed.

Example split_empty_sep : JS.split "abc" EmptyString = ["a"; "b"; "c"].
Proof. reflexivity. Qed.

Example split_empty : JS.split EmptyString "x" = [EmptyString].
Proof. reflexivity. Qed.

Example split_overlap : JS.split "home/home/home/x" "home/home/" = [EmptyString; "home/x"].
Proof. reflexivity. Qed.

(** ** Facts about the string primitives *)

Section StringFacts.
Import JS.

Lemma app_cons c (s t : string) : String c s +:+ t = String c (s +:+ t).
Proof. reflexivity. Qed.

Lemma app_empty_l (s : string) : EmptyString +:+ s = s.
Proof. reflexivity. Qed.

Lemma app_empty_r (s : string) : s +:+ EmptyString = s.
Proof. induction s as [|c s IH]; [done|]. by rewrite app_cons, IH. Qed.

Lemma app_assoc_s (s t u : string) : (s +:+ t) +:+ u = s +:+ t +:+ u.
Proof. induction s as [|c s IH]; [done|]. by rewrite !app_cons, IH. Qed.

Lemma length_app_s (s t : string) :
  String.length (s +:+ t) = (String.length s + String.length t)%nat.
Proof. induction s as [|c s IH]; [done|]. rewrite app_cons. simpl. by rewrite IH. Qed.

Lemma startsWith_spec s t : startsWith s t = true ↔ ∃ r, s = t +:+ r.
Proof.
  revert s. induction t as [|a t IH]; intros s; simpl.
  - split; [intros _; by exists s|done].
  - destruct s as [|b s].
    + split; [done|]. intros [r Hr]. by rewrite app_cons in Hr.
    + destruct (Ascii.eqb_spec a b) as [->|Hne].
      * rewrite IH. split; intros [r Hr]; exists r.
        -- by rewrite app_cons, Hr.
        -- rewrite app_cons in Hr. congruence.
      * split; [done|]. intros [r Hr]. rewrite app_cons in Hr. congruence.
Qed.

Lemma startsWith_app t r : startsWith (t +:+ r) t = true.
Proof. apply startsWith_spec. by exists r. Qed.

Lemma startsWith_app_long x y t :
  (String.length t ≤ String.length x)%nat →
  startsWith (x +:+ y) t = startsWith x t.
Proof.
  revert x. induction t as [|a t IH]; intros x Hlen; [done|].
  destruct x as [|b x]; simpl in Hlen; [lia|].
  rewrite app_cons. simpl. destruct (Ascii.eqb a b); [|done].
  apply IH. lia.
Qed.

Lemma substring_app t r : substring (String.length t) (t +:+ r) = r.
Proof. induction t as [|a t IH]; [done|]. rewrite app_cons. simpl. apply IH. Qed.

Lemma includes_spec s t : includes s t = true ↔ ∃ p r, s = p +:+ t +:+ r.
Proof.
  induction s as [|c s IH]; simpl.
  - rewrite orb_false_r, startsWith_spec. split.
    + intros [r Hr]. by exists EmptyString, r.
    + intros (p & r & Hpr). destruct p; [by exists r|]. by rewrite app_cons in Hpr.
  - rewrite orb_true_iff, startsWith_spec, IH. split.
    + intros [[r Hr]|(p & r & Hpr)].
      * by exists EmptyString, r.
      * exists (String c p), r. by rewrite app_cons, Hpr.
    + intros (p & r & Hpr). destruct p as [|c' p].
      * left. by exists r.
      * right. rewrite app_cons in Hpr. exists p, r. congruence.
Qed.

Lemma includes_app p t r : includes (p +:+ t +:+ r) t = true.
Proof. apply includes_spec. by exists p, r. Qed.

Lemma startsWith_substring s t : startsWith s t = true → s = t +:+ substring (String.length t) s.
Proof. intros [r ->]%startsWith_spec. by rewrite substring_app. Qed.

Lemma cut_Some sep s b a : cut sep s = Some (b, a) → s = b +:+ sep +:+ a.
Proof.
  revert b. induction s as [|c s IH]; intros b; simpl.
  - destruct (startsWith EmptyString sep) eqn:Hs; [|done].
    intros [= <- <-]. by apply startsWith_substring.
  - destruct (startsWith (String c s) sep) eqn:Hs.
    + intros [= <- <-]. by apply startsWith_substring.
    + destruct (cut sep s) as [[b' a']|] eqn:Hc; [|done].
      intros [= <- <-]. rewrite app_cons. f_equal. by apply IH.
Qed.

Lemma cut_None sep s : cut sep s = None ↔ includes s sep = false.
Proof.
  induction s as [|c s IH]; simpl.
  - rewrite orb_false_r. by destruct (startsWith EmptyString sep).
  - destruct (startsWith (String c s) sep); simpl; [done|].
    rewrite <- IH. by destruct (cut sep s) as [[??]|].
Qed.

(** The occurrence of [sep] that follows [pre] is the leftmost one as soon
    as no occurrence starts inside [pre], that is, as soon as [sep] does
    not occur in [pre] followed by all of [sep] but its last character. *)
Lemma cut_app sep0 c pre rest :
  includes (pre +:+ sep0) (sep0 +:+ String c EmptyString) = false →
  cut (sep0 +:+ String c EmptyString) (pre +:+ (sep0 +:+ String c EmptyString) +:+ rest)
  = Some (pre, rest).
Proof.
  set (sep := sep0 +:+ String c EmptyString).
  induction pre as [|d pre IH]; intros Hno.
  - rewrite app_empty_l.
    assert (Hs : startsWith (sep +:+ rest) sep = true) by apply startsWith_app.
    destruct (sep +:+ rest) eqn:E; simpl; rewrite Hs; rewrite <- E, substring_app; done.
  - rewrite app_cons in Hno. simpl in Hno. apply orb_false_iff in Hno as [Hs Hin].
    assert (Hs' : startsWith (String d (pre +:+ sep +:+ rest)) sep = false).
    { replace (String d (pre +:+ sep +:+ rest))
        with (String d (pre +:+ sep0) +:+ String c rest).
      - rewrite startsWith_app_long; [done|].
        unfold sep. simpl. rewrite !length_app_s. simpl. lia.
      - unfold sep. rewrite !app_cons, !app_assoc_s. done. }
    rewrite app_cons. simpl. rewrite Hs'. by rewrite IH.
Qed.

Lemma cut_length sep s b a :
  cut sep s = Some (b, a) →
  String.length s = (String.length b + String.length sep + String.length a)%nat.
Proof. intros ->%cut_Some. rewrite !length_app_s. lia. Qed.

Lemma split_loop_enough sep s n m :
  sep ≠ EmptyString →
  (String.length s ≤ n)%nat → (String.length s ≤ m)%nat →
  split_loop n sep s = split_loop m sep s.
Proof.
  intros Hsep. revert s m. induction n as [|n IH]; intros s m Hn Hm.
  - destruct s; simpl in Hn; [|lia].
    destruct m; [done|]. simpl. by destruct sep.
  - destruct m as [|m].
    + destruct s; simpl in Hm; [|lia]. simpl. by destruct sep.
    + simpl. destruct (cut sep s) as [[b a]|] eqn:Hc; [|done].
      f_equal. pose proof (cut_length _ _ _ _ Hc).
      assert (0 < String.length sep)%nat by (destruct sep; simpl; [done|lia]).
      apply IH; lia.
Qed.

(** The defining equation of [split]: the fuel never runs out. *)
Lemma split_unfold s sep :
  sep ≠ EmptyString →
  split s sep = match cut sep s with
                | None => [s]
                | Some (b, a) => b :: split a sep
                end.
Proof.
  intros Hsep. unfold split. destruct sep as [|c sep]; [done|].
  destruct s as [|d s].
  - done.
  - cbn [String.length split_loop].
    destruct (cut (String c sep) (String d s)) as [[b a]|] eqn:Hc; [|done].
    f_equal. pose proof (cut_length _ _ _ _ Hc) as Hl. simpl in Hl.
    apply split_loop_enough; [done|lia|lia].
Qed.

(** [s.split(sep)[1]]: absent when [sep] does not occur; otherwise the text
    between the first occurrence of [sep] and the next one (the rest of
    [s] when there is no other). *)
Lemma split_1 s sep :
  sep ≠ EmptyString →
  split s sep !! 1%nat =
    match cut sep s with
    | None => None
    | Some (_, a) => Some (match cut sep a with
                           | None => a
                           | Some (m, _) => m
                           end)
    end.
Proof.
  intros Hsep. rewrite split_unfold by done.
  destruct (cut sep s) as [[b a]|]; [|done].
  simpl. rewrite split_unfold by done.
  by destruct (cut sep a) as [[m r]|].
Qed.

End StringFacts.

(** ** Path translation: lemmas *)

Section PathFacts.
Import JS Path.

(** [split(sep)[1]] when [sep] occurs once, right after [pre]. *)
Lemma split_1_once sep0 c pre rest :
  includes (pre +:+ sep0) (sep0 +:+ String c EmptyString) = false →
  includes rest (sep0 +:+ String c EmptyString) = false →
  split (pre +:+ (sep0 +:+ String c EmptyString) +:+ rest) (sep0 +:+ String c EmptyString) !! 1%nat
  = Some rest.
Proof.
  intros Hpre Hrest. rewrite split_1.
  - rewrite (cut_app _ _ _ _ Hpre). apply cut_None in Hrest. by rewrite Hrest.
  - by destruct sep0.
Qed.

Lemma split_1_absent s sep :
  sep ≠ EmptyString → includes s sep = false → split s sep !! 1%nat = None.
Proof. intros Hsep Hs. rewrite split_1 by done. apply cut_None in Hs. by rewrite Hs. Qed.

Lemma toEnginePath_sdk pre mid rem :
  includes (pre +:+ "code") "code/" = false →
  includes (mid +:+ "sdk/program/" +:+ rem) "code/" = false →
  includes (mid +:+ "sdk/program") "sdk/program/" = false →
  includes rem "sdk/program/" = false →
  toEnginePath (Some (pre +:+ "code/" +:+ mid +:+ "sdk/program/" +:+ rem))
  = "home/home/" +:+ rem.
Proof.
  intros Hpre Hroot Hmid Hrem. unfold toEnginePath.
  pose proof (split_1_once "code" "/" pre _ Hpre Hroot) as H1.
  change ("code" +:+ "/") with "code/" in H1.
  cbn [mbind option_bind]. rewrite H1. cbn [mbind option_bind optional].
  assert (includes (mid +:+ "sdk/program/" +:+ rem) "sdk" = true) as ->.
  { apply (includes_app mid "sdk" ("/program/" +:+ rem)). }
  pose proof (split_1_once "sdk/program" "/" mid rem Hmid Hrem) as H2.
  change ("sdk/program" +:+ "/") with "sdk/program/" in H2.
  by rewrite H2.
Qed.

Lemma toEditorPath_sdk pre rest :
  includes (pre +:+ "home/home") "home/home/" = false →
  includes rest "home/home/" = false →
  toEditorPath (Some (pre +:+ "home/home/" +:+ rest)) = solSdkPath +:+ rest.
Proof.
  intros Hpre Hrest. unfold toEditorPath. cbn [optional mbind option_bind].
  rewrite includes_app.
  pose proof (split_1_once "home/home" "/" pre rest Hpre Hrest) as H1.
  change ("home/home" +:+ "/") with "home/home/" in H1.
  by rewrite H1.
Qed.

(** [split(sep)] as a whole when [sep] occurs once. *)
Lemma split_once sep0 c pre rest :
  includes (pre +:+ sep0) (sep0 +:+ String c EmptyString) = false →
  includes rest (sep0 +:+ String c EmptyString) = false →
  split (pre +:+ (sep0 +:+ String c EmptyString) +:+ rest) (sep0 +:+ String c EmptyString)
  = [pre; rest].
Proof.
  intros Hpre Hrest.
  assert (Hsep : sep0 +:+ String c EmptyString ≠ EmptyString) by (by destruct sep0).
  rewrite split_unfold, (cut_app _ _ _ _ Hpre) by done.
  rewrite split_unfold by done. apply cut_None in Hrest. by rewrite Hrest.
Qed.

Lemma runtimeEnginePath_sdk pre mid rem :
  includes (pre +:+ "code") "code/" = false →
  includes (mid +:+ "sdk/program/" +:+ rem) "code/" = false →
  includes (mid +:+ "sdk/program") "sdk/program/" = false →
  includes rem "sdk/program/" = false →
  runtimeEnginePath (pre +:+ "code/" +:+ mid +:+ "sdk/program/" +:+ rem)
  = Return ("home/home/" +:+ mid +:+ "," +:+ rem).
Proof.
  intros Hpre Hroot Hmid Hrem. unfold runtimeEnginePath.
  pose proof (split_1_once "code" "/" pre _ Hpre Hroot) as H1.
  change ("code" +:+ "/") with "code/" in H1. rewrite H1.
  assert (includes (mid +:+ "sdk/program/" +:+ rem) "sdk" = true) as ->.
  { apply (includes_app mid "sdk" ("/program/" +:+ rem)). }
  pose proof (split_once "sdk/program" "/" mid rem Hmid Hrem) as H2.
  change ("sdk/program" +:+ "/") with "sdk/program/" in H2.
  by rewrite H2.
Qed.

End PathFacts.

(** ** Rewriting a stack-trace response: lemmas *)

Section StackTraceFacts.
Import JS Path StackTraceRewrite.

Lemma rewriteFrame_with_source f s :
  frame_source f = Some s →
  rewriteFrame f =
    Return (set_frame_source
              (match src_sourceReference s with
               | Some _ => set_src_name (Some (frame_name f)) s
               | None => set_src_path (Some (toEditorPath (src_path s))) s
               end) f).
Proof. intros Hs. unfold rewriteFrame. rewrite Hs. by destruct (src_sourceReference s). Qed.

(** What the loop has done when it completes: the frames at the indices
    it went through are rewritten, the others are the ones it was given. *)
Lemma rewriteLoop_Return n id frames frames' :
  rewriteLoop n id frames = Return frames' →
  ∀ i f, frames !! i = Some f →
    if bool_decide (id ≤ i < id + n)%nat
    then ∃ f', rewriteFrame f = Return f' ∧ frames' !! i = Some f'
    else frames' !! i = Some f.
Proof.
  revert id frames. induction n as [|n IH]; intros id frames Hrun i f Hi.
  - simpl in Hrun. injection Hrun as <-. rewrite bool_decide_eq_false_2 by lia. done.
  - simpl in Hrun. destruct (frames !! id) as [g|] eqn:Hg; [|done].
    destruct (rewriteFrame g) as [g'|e] eqn:Hrw; [|done]. simpl in Hrun.
    destruct (decide (i = id)) as [->|Hne].
    + rewrite bool_decide_eq_true_2 by lia.
      assert (f = g) as -> by congruence.
      exists g'. split; [done|].
      specialize (IH (S id) (<[id:=g']> frames) Hrun id g').
      rewrite list_lookup_insert_eq in IH by (by eapply lookup_lt_Some).
      specialize (IH eq_refl). rewrite bool_decide_eq_false_2 in IH by lia. done.
    + specialize (IH (S id) (<[id:=g']> frames) Hrun i f).
      rewrite list_lookup_insert_ne in IH by done. specialize (IH Hi).
      destruct (decide (id ≤ i < id + S n)%nat).
      * rewrite bool_decide_eq_true_2 by done.
        rewrite bool_decide_eq_true_2 in IH by lia. done.
      * rewrite bool_decide_eq_false_2 by done.
        rewrite bool_decide_eq_false_2 in IH by lia. done.
Qed.

(** The loop completes exactly when every index it goes through holds a
    frame that has a source. *)
Lemma rewriteLoop_completes n id frames :
  (∀ i, (id ≤ i < id + n)%nat → ∃ f s, frames !! i = Some f ∧ frame_source f = Some s) →
  ∃ frames', rewriteLoop n id frames = Return frames'.
Proof.
  revert id frames. induction n as [|n IH]; intros id frames Hall.
  - by exists frames.
  - simpl. destruct (Hall id ltac:(lia)) as (f & s & Hf & Hs).
    rewrite Hf, (rewriteFrame_with_source f s Hs). simpl.
    apply IH. intros i Hi. destruct (Hall i ltac:(lia)) as (g & t & Hg & Ht).
    exists g, t. rewrite list_lookup_insert_ne by lia. done.
Qed.

Lemma rewriteBody_Return b b' :
  rewriteBody b = Return b' →
  rewriteLoop (Z.to_nat (default 0 (totalFrames b))) 0 (stackFrames b)
  = Return (stackFrames b').
Proof.
  unfold rewriteBody.
  destruct (rewriteLoop _ 0 (stackFrames b)) as [fs|e]; [|done].
  simpl. by intros [= <-].
Qed.

End StackTraceFacts.

(** ** The runtime: lemmas *)

Section RuntimeFacts.
Import JS Path Runtime Spec.

Lemma verifyBreakpoints_foldl bps rt :
  let rt' := foldl (λ rt (bp : loc),
                      sendEvent (breakpointValidated bp)
                        (set_heap (alter (set_verified true) bp (heap rt)) rt)) rt bps in
  lldb rt' = lldb rt ∧ _sourceLines rt' = _sourceLines rt ∧
  _sourceTextAsMemory rt' = _sourceTextAsMemory rt ∧
  _breakPoints rt' = _breakPoints rt ∧ _breakpointId rt' = _breakpointId rt ∧
  heap rt' = mark_all bps (heap rt) ∧
  timers rt' = timers rt ++ (breakpointValidated <$> bps).
Proof.
  revert rt. induction bps as [|bp bps IH]; intros rt; simpl.
  - by rewrite app_nil_r.
  - destruct (IH (sendEvent (breakpointValidated bp)
                    (set_heap (alter (set_verified true) bp (heap rt)) rt)))
      as (H1 & H2 & H3 & H4 & H5 & H6 & H7).
    rewrite H1, H2, H3, H4, H5, H6, H7. simpl. by rewrite <- app_assoc.
Qed.

Lemma verifyBreakpoints_spec path bps rt :
  _breakPoints rt !! path = Some bps →
  let rt' := verifyBreakpoints path rt in
  lldb rt' = lldb rt ∧ _sourceLines rt' = _sourceLines rt ∧
  _sourceTextAsMemory rt' = _sourceTextAsMemory rt ∧
  _breakPoints rt' = _breakPoints rt ∧ _breakpointId rt' = _breakpointId rt ∧
  heap rt' = mark_all bps (heap rt) ∧
  timers rt' = timers rt ++ (breakpointValidated <$> bps).
Proof. intros Hb. unfold verifyBreakpoints. rewrite Hb. apply verifyBreakpoints_foldl. Qed.

Lemma mark_all_lookup bps h (bp : loc) :
  mark_all bps h !! bp
  = (if bool_decide (bp ∈ bps) then set_verified true else id) <$> h !! bp.
Proof.
  unfold mark_all. revert h. induction bps as [|b bps IH]; intros h.
  - cbn [foldl]. rewrite bool_decide_eq_false_2 by apply not_elem_of_nil.
    by destruct (h !! bp).
  - cbn [foldl]. rewrite IH.
    destruct (decide (b = bp)) as [->|Hne].
    + rewrite list_lookup_alter_eq.
      rewrite (bool_decide_eq_true_2 (bp ∈ bp :: bps)) by (apply elem_of_cons; by left).
      destruct (h !! bp) as [r|]; [|done]. cbn. by case_bool_decide.
    + rewrite list_lookup_alter_ne by done.
      destruct (h !! bp) as [r|]; [|done]. cbn. f_equal.
      case_bool_decide as H1; case_bool_decide as H2; try done.
      * exfalso. apply H2. apply elem_of_cons. by right.
      * exfalso. apply H1. apply elem_of_cons in H2 as [->|]; done.
Qed.

Lemma mark_all_id bps h (bp : loc) r :
  mark_all bps h !! bp = Some r → ∃ r0, h !! bp = Some r0 ∧ bp_id r = bp_id r0.
Proof.
  rewrite mark_all_lookup. destruct (h !! bp) as [r0|]; [|done].
  simpl. intros [= <-]. exists r0. split; [done|]. by case_bool_decide.
Qed.

Lemma pushBreakpoint_spec path line rt :
  let '(bp, rt') := pushBreakpoint path line rt in
  bp = length (heap rt) ∧
  heap rt' = heap rt ++ [{| bp_id := _breakpointId rt; bp_line := line;
                            bp_verified := false |}] ∧
  _breakPoints rt' = <[path := default [] (_breakPoints rt !! path) ++ [bp]]> (_breakPoints rt) ∧
  _breakpointId rt' = _breakpointId rt + 1 ∧
  lldb rt' = lldb rt ∧ timers rt' = timers rt ∧
  _sourceLines rt' = _sourceLines rt ∧
  _sourceTextAsMemory rt' = _sourceTextAsMemory rt.
Proof. done. Qed.

(** [findIndex] returns the first index whose element passes. *)
Lemma findIndex_Some {A} (pred : A → bool) l i :
  findIndex pred l = Some i →
  ∃ x, l !! i = Some x ∧ pred x = true ∧
       ∀ j y, (j < i)%nat → l !! j = Some y → pred y = false.
Proof.
  revert i. induction l as [|x l IH]; intros i; simpl; [done|].
  destruct (pred x) eqn:Hx.
  - intros [= <-]. exists x. split; [done|]. split; [done|]. intros; lia.
  - destruct (findIndex pred l) as [k|]; [|done]. simpl. intros [= <-].
    destruct (IH k eq_refl) as (y & Hy & Hp & Hfirst).
    exists y. split; [done|]. split; [done|].
    intros [|j] z Hj Hz; simpl in Hz; [congruence|]. eapply Hfirst; [|done]. lia.
Qed.

Lemma findIndex_None {A} (pred : A → bool) l :
  findIndex pred l = None ↔ ∀ x, x ∈ l → pred x = false.
Proof.
  induction l as [|x l IH]; simpl.
  - split; [|done]. intros _ x Hx. by apply elem_of_nil in Hx.
  - destruct (pred x) eqn:Hx.
    + split; [done|]. intros H. specialize (H x ltac:(apply elem_of_cons; by left)). congruence.
    + destruct (findIndex pred l) as [k|] eqn:Hk; simpl.
      * split; [done|]. intros H. apply proj2 in IH.
        discriminate IH. intros y Hy. apply H. apply elem_of_cons. by right.
      * split; [|done]. intros _ y [->|Hy]%elem_of_cons; [done|]. by apply IH.
Qed.

Lemma runtimeEnginePath_Return path :
  includes path "code/" = true → ∃ lldbPath, runtimeEnginePath path = Return lldbPath.
Proof.
  intros Hin. unfold runtimeEnginePath. rewrite split_1 by done.
  destruct (cut "code/" path) as [[b a]|] eqn:Hc.
  - eexists. reflexivity.
  - apply cut_None in Hc. congruence.
Qed.

Lemma runtimeEnginePath_Throw path :
  includes path "code/" = false →
  runtimeEnginePath path
  = Throw (TypeError "Cannot read properties of undefined (reading 'includes')").
Proof.
  intros Hin. unfold runtimeEnginePath. by rewrite split_1_absent.
Qed.

(** The shape of a completed [setBreakPoint]. *)
Lemma setBreakPoint_Return path line rt bp rt' :
  setBreakPoint path line rt = Return (bp, rt') →
  ∃ lldbPath e,
    runtimeEnginePath path = Return lldbPath ∧ lldb rt = Some e ∧
    let rt0 := set_lldb (Some (ccall (set_breakpoint lldbPath line) e)) rt in
    bp = (pushBreakpoint path line rt0).1 ∧
    rt' = verifyBreakpoints path (pushBreakpoint path line rt0).2.
Proof.
  unfold setBreakPoint, lldb_ccall.
  destruct (runtimeEnginePath path) as [lldbPath|]; [|done]. simpl.
  destruct (lldb rt) as [e|]; [|done]. simpl.
  intros [= <- <-]. by exists lldbPath, e.
Qed.

Lemma setBreakPoint_heap path line rt bp rt' :
  setBreakPoint path line rt = Return (bp, rt') →
  bp = length (heap rt) ∧
  _breakpointId rt' = _breakpointId rt + 1 ∧
  ∃ bps, _breakPoints rt' !! path = Some (bps ++ [bp]) ∧
    bps = default [] (_breakPoints rt !! path) ∧
    heap rt' = mark_all (bps ++ [bp])
                 (heap rt ++ [{| bp_id := _breakpointId rt; bp_line := line;
                                 bp_verified := false |}]) ∧
    timers rt' = timers rt ++ (breakpointValidated <$> (bps ++ [bp])).
Proof.
  intros (lldbPath & e & _ & _ & Hbp & Hrt)%setBreakPoint_Return.
  cbn zeta in Hbp, Hrt. subst bp.
  set (rt0 := set_lldb _ rt) in *.
  pose proof (pushBreakpoint_spec path line rt0) as Hpush.
  destruct (pushBreakpoint path line rt0) as [bp rt1] eqn:E.
  destruct Hpush as (Hbp & Hheap & Hmap & Hid & _ & Htm & _).
  cbn [fst snd] in *.
  assert (Hlook : _breakPoints rt1 !! path
                  = Some (default [] (_breakPoints rt !! path) ++ [bp])).
  { rewrite Hmap. by rewrite lookup_insert_eq. }
  destruct (verifyBreakpoints_spec path _ rt1 Hlook) as (_ & _ & _ & H4 & H5 & H6 & H7).
  subst rt'. split; [done|]. split; [by rewrite H5, Hid|].
  eexists. split; [by rewrite H4|]. split; [done|].
  split; [by rewrite H6, Hheap|by rewrite H7, Htm].
Qed.

Lemma ids_below_counter_setBreakPoint path line rt bp rt' :
  ids_below_counter rt →
  setBreakPoint path line rt = Return (bp, rt') →
  ids_below_counter rt'.
Proof.
  intros Hwf (Hbp & Hid & bps & _ & _ & Hheap & _)%setBreakPoint_heap b r Hb.
  rewrite Hheap in Hb. apply mark_all_id in Hb as (r0 & Hr0 & ->). rewrite Hid.
  apply lookup_app_Some in Hr0 as [Hold|[_ Hnew]].
  - specialize (Hwf b r0 Hold). lia.
  - destruct (b - length (heap rt))%nat; simpl in Hnew; [|done].
    injection Hnew as <-. simpl. lia.
Qed.

Lemma lldb_ccall_heap c rt rt' :
  lldb_ccall c rt = Return rt' →
  heap rt' = heap rt ∧ _breakpointId rt' = _breakpointId rt.
Proof. unfold lldb_ccall. destruct (lldb rt); [|done]. by intros [= <-]. Qed.

(** The identifiers of the records stay below the counter in every state
    that the operations of the runtime produce. *)
Lemma reachable_ids_below_counter rt : reachable rt → ids_below_counter rt.
Proof.
  induction 1 as [|rt _ IH|rt e e' _ IH _|path line rt bp rt' _ IH Hset|path line rt _ IH
                  |path rt _ IH|rt _ IH|rt rt' _ IH Hc|rt rt' _ IH Hc
                  |rt rt' _ IH Hc|rt rt' _ IH Hc|rt ev rt' _ IH Hf].
  - intros b r Hb. done.
  - exact IH.
  - exact IH.
  - by eapply ids_below_counter_setBreakPoint.
  - unfold clearBreakPoint. destruct (_breakPoints rt !! path) as [bps|]; [|exact IH].
    destruct (findIndex _ bps); exact IH.
  - exact IH.
  - exact IH.
  - unfold continue in Hc. destruct (lldb_ccall _ rt) as [rt0|] eqn:E; [|done].
    injection Hc as <-. apply lldb_ccall_heap in E as [Hh Hi].
    intros b r Hb. simpl in Hb. rewrite Hh in Hb. simpl. rewrite Hi. by eapply IH.
  - unfold next in Hc. destruct (lldb_ccall _ rt) as [rt0|] eqn:E; [|done].
    injection Hc as <-. apply lldb_ccall_heap in E as [Hh Hi].
    intros b r Hb. simpl in Hb. rewrite Hh in Hb. simpl. rewrite Hi. by eapply IH.
  - unfold stepIn in Hc. destruct (lldb_ccall _ rt) as [rt0|] eqn:E; [|done].
    injection Hc as <-. apply lldb_ccall_heap in E as [Hh Hi].
    intros b r Hb. simpl in Hb. rewrite Hh in Hb. simpl. rewrite Hi. by eapply IH.
  - unfold stepOut in Hc. destruct (lldb_ccall _ rt) as [rt0|] eqn:E; [|done].
    injection Hc as <-. apply lldb_ccall_heap in E as [Hh Hi].
    intros b r Hb. simpl in Hb. rewrite Hh in Hb. simpl. rewrite Hi. by eapply IH.
  - unfold fireTimer in Hf. destruct (timers rt); [done|]. injection Hf as _ <-.
    exact IH.
Qed.

Lemma findIndex_app {A} (pred : A → bool) l1 y l2 :
  (∀ x, x ∈ l1 → pred x = false) → pred y = true →
  findIndex pred (l1 ++ y :: l2) = Some (length l1).
Proof.
  intros Hl1 Hy. induction l1 as [|x l1 IH]; simpl.
  - by rewrite Hy.
  - rewrite (Hl1 x) by (apply elem_of_cons; by left).
    rewrite IH; [done|]. intros z Hz. apply Hl1, elem_of_cons. by right.
Qed.

(** On a path that [setBreakPoint] accepts, setting a breakpoint on a line
    that has none yet and clearing it gives back the record that was set
    and leaves the list of the file as it was before. *)
Lemma setBreakPoint_then_clearBreakPoint path line rt e :
  includes path "code/" = true →
  lldb rt = Some e →
  (∀ bp : loc, bp ∈ default [] (_breakPoints rt !! path) →
     ∃ r, heap rt !! bp = Some r ∧ bp_line r ≠ line) →
  ∃ (bp : loc) rt' rt'',
    setBreakPoint path line rt = Return (bp, rt') ∧
    clearBreakPoint path line rt' = (Some bp, rt'') ∧
    heap rt'' !! bp = Some {| bp_id := _breakpointId rt; bp_line := line;
                             bp_verified := true |} ∧
    _breakPoints rt'' !! path = Some (default [] (_breakPoints rt !! path)).
Proof.
  intros Hpath He Hold.
  destruct (runtimeEnginePath_Return path Hpath) as [lldbPath Hlp].
  set (rt0 := set_lldb (Some (ccall (set_breakpoint lldbPath line) e)) rt).
  destruct (pushBreakpoint path line rt0) as [bp rt1] eqn:Hpush.
  assert (Hset : setBreakPoint path line rt = Return (bp, verifyBreakpoints path rt1)).
  { unfold setBreakPoint, lldb_ccall. rewrite Hlp. cbn [bind]. rewrite He. cbn [bind].
    fold rt0. by rewrite Hpush. }
  destruct (setBreakPoint_heap _ _ _ _ _ Hset)
    as (Hbp & _ & bps & Hmap & Hbps & Hheap & _).
  set (rt' := verifyBreakpoints path rt1) in *.
  set (new := {| bp_id := _breakpointId rt; bp_line := line; bp_verified := false |}) in *.
  assert (Hnew : heap rt' !! bp = Some (set_verified true new)).
  { rewrite Hheap, mark_all_lookup, Hbp, lookup_app_r, Nat.sub_diag by lia.
    rewrite bool_decide_eq_true_2; [done|]. apply elem_of_app. right.
    apply elem_of_cons. by left. }
  assert (Hidx : findIndex (λ b : loc, match heap rt' !! b with
                                       | Some r => bp_line r =? line
                                       | None => false
                                       end) (bps ++ [bp]) = Some (length bps)).
  { apply findIndex_app.
    - intros b Hb. rewrite Hbps in Hb. destruct (Hold b Hb) as (r & Hr & Hline).
      rewrite Hheap, mark_all_lookup, (lookup_app_l_Some _ _ _ _ Hr). simpl.
      case_bool_decide; simpl; by apply Z.eqb_neq.
    - rewrite Hnew. simpl. apply Z.eqb_refl. }
  exists bp, rt', (set_breakPoints (<[path := delete (length bps) (bps ++ [bp])]>
                                     (_breakPoints rt')) rt').
  split; [done|]. split.
  { unfold clearBreakPoint. rewrite Hmap, Hidx.
    by rewrite list_lookup_middle. }
  split; [exact Hnew|].
  cbn [_breakPoints set_breakPoints]. rewrite lookup_insert_eq.
  rewrite <- Hbps. f_equal.
  rewrite delete_middle. by rewrite app_nil_r.
Qed.

(** ** The column scan of [getBreakpoints] *)

Lemma filter_seq_S (P : nat → bool) i n :
  filter (λ k, P k = true) (seq i (S n))
  = (if P i then [i] else []) ++ filter (λ k, P k = true) (seq (S i) n).
Proof.
  cbn [seq]. rewrite filter_cons. destruct (P i) eqn:E.
  - by rewrite decide_True.
  - rewrite decide_False; [done|congruence].
Qed.

Lemma scanLine_runStarts (w l : list Z) (i : nat) sawSpace bps :
  (∀ k, w !! (i + k)%nat = l !! k) →
  sawSpace = (Nat.eqb i 0 || isSpace (w !! (i - 1)%nat)) →
  scanLine l (Z.of_nat i) sawSpace bps
  = bps ++ (Z.of_nat <$>
              filter (λ k, startsRun w k = true) (seq i (length l))).
Proof.
  revert i sawSpace bps. induction l as [|c l IH]; intros i sawSpace bps Hw Hsaw.
  - simpl. by rewrite app_nil_r.
  - cbn [scanLine length]. rewrite filter_seq_S.
    assert (Hc : w !! i = Some c).
    { specialize (Hw 0%nat). by rewrite Nat.add_0_r in Hw. }
    assert (Hnext : ∀ k, w !! (S i + k)%nat = l !! k).
    { intros k. specialize (Hw (S k)). by rewrite Nat.add_succ_r in Hw. }
    assert (Hstart : startsRun w i = negb (c =? 32) && sawSpace).
    { unfold startsRun. by rewrite Hc, Hsaw. }
    replace (Z.of_nat i + 1) with (Z.of_nat (S i)) by lia.
    rewrite Hstart. destruct (c =? 32) eqn:Hsp; simpl.
    + apply IH; [done|]. simpl. rewrite Nat.sub_0_r, Hc. simpl. by rewrite Hsp.
    + destruct sawSpace; simpl.
      * rewrite (IH (S i) false); [by rewrite <- app_assoc|done|].
        simpl. rewrite Nat.sub_0_r, Hc. simpl. by rewrite Hsp.
      * apply IH; [done|]. simpl. rewrite Nat.sub_0_r, Hc. simpl. by rewrite Hsp.
Qed.

End RuntimeFacts.

(** ** The memory read handler: lemmas *)

Section BufferFacts.

Example base64_Man : Buffer.base64 [77; 97; 110] = "TWFu".
Proof. reflexivity. Qed.

Example base64_Ma : Buffer.base64 [77; 97] = "TWE=".
Proof. reflexivity. Qed.

Example base64_M : Buffer.base64 [77] = "TQ==".
Proof. reflexivity. Qed.

Example slice_negative : Buffer.slice [1; 2; 3; 4] (-3) (-1) = [2; 3].
Proof. reflexivity. Qed.

(** With indices that are not negative, [slice] gives the bytes from
    [start] up to [end_], not [end_] bytes. *)
Lemma slice_from_to buf start end_ :
  0 ≤ start → 0 ≤ end_ →
  Buffer.slice buf start end_
  = take (Z.to_nat (end_ - start)) (drop (Z.to_nat start) buf).
Proof.
  intros Hs He. unfold Buffer.slice, Buffer.clampIndex.
  rewrite (proj2 (Z.ltb_ge start 0) Hs), (proj2 (Z.ltb_ge end_ 0) He).
  destruct (decide (start ≤ Z.of_nat (length buf))) as [Hin|Hout].
  - rewrite (Z.min_l start) by done.
    destruct (decide (end_ ≤ Z.of_nat (length buf))) as [Hin'|Hout'].
    + by rewrite Z.min_l.
    + rewrite Z.min_r by lia.
      rewrite !take_ge; [done| |]; rewrite length_drop; lia.
  - rewrite (Z.min_r start) by lia.
    rewrite !drop_ge by lia. by rewrite !take_nil.
Qed.

(** An integer below 2^53 in magnitude is a number. *)
Lemma round_small x : Z.abs x < 9007199254740992 → Number.round x = x.
Proof. intros Hx. unfold Number.round. by rewrite (proj2 (Z.ltb_lt _ _) Hx). Qed.

Example round_tie_even : Number.round 9007199254740993 = 9007199254740992.
Proof. reflexivity. Qed.

Example round_tie_odd : Number.round 9007199254740995 = 9007199254740996.
Proof. reflexivity. Qed.

Example round_negative : Number.round (-9007199254740993) = -9007199254740992.
Proof. reflexivity. Qed.


End BufferFacts.

(** ** The engine bridge: lemmas *)

Section BridgeFacts.
Import Runtime Spec Session.
Local Set Warnings "-clear-no-such-hyp".

Lemma live_goto_set_engine i p e s : live (goto i p (set_engine e s)) = dom (buffers e).
Proof. done. Qed.

Lemma holding_false_cases p : holding p = false → p = Polling ∨ p = Returned.
Proof. destruct p; simpl; intros H; try discriminate; auto. Qed.

(** The four kinds of stretches of [lldbRun]: go on waiting, take the
    bridge, move on while holding it, give it back. *)
Lemma resume_cases i a s s' :
  resume i a s s' →
  (s' = s ∧ pc a = Polling ∧ _isRunningLldb s = true) ∨
  ∃ p', activations s' = alter (set_pc p') i (activations s) ∧
    ((pc a = Polling ∧ _isRunningLldb s = false ∧ _isRunningLldb s' = true ∧
      holding p' = true ∧ NoDup (owned p') ∧
      (live s = ∅ → ∀ p, p ∈ live s' ↔ p ∈ owned p'))
     ∨ (holding (pc a) = true ∧ holding p' = true ∧
        _isRunningLldb s' = _isRunningLldb s ∧
        ((∀ p, p ∈ live s ↔ p ∈ owned (pc a)) → NoDup (owned (pc a)) →
         (∀ p, p ∈ live s' ↔ p ∈ owned p') ∧ NoDup (owned p')))
     ∨ (pc a = AwaitFreeTx ∧ p' = Returned ∧ _isRunningLldb s' = false ∧
        live s' = live s)).
Proof.
  intros Hr.
  destruct Hr as [s Hpc Hf|s e rxPtr Hpc Hf He Hfresh|s Hpc Hf He
                 |s e rxPtr Hpc He|s e rxPtr Hpc He
                 |s e rxPtr txPtr responseStr Hpc He Hfresh|s rxPtr err Hpc
                 |s e rxPtr txPtr responseStr responseJSON adjusted Hpc He Hrw
                 |s rxPtr txPtr responseStr msg Hpc
                 |s rxPtr txPtr responseStr responseJSON err Hpc Hrw
                 |s e txPtr Hpc He|s Hpc].
  - by left.
  - right. eexists. split; [reflexivity|]. left.
    split; [done|]. split; [done|]. split; [done|]. split; [done|].
    split; [apply NoDup_singleton|].
    intros Hlive p. rewrite live_goto_set_engine. cbn [buffers set_buffers].
    unfold live, allocated in Hlive. rewrite He in Hlive.
    rewrite dom_insert_L, Hlive. cbn [owned]. set_solver.
  - right. eexists. split; [reflexivity|]. left.
    split; [done|]. split; [done|]. split; [done|]. split; [done|].
    split; [apply NoDup_nil_2|].
    intros Hlive p. unfold live, allocated in *. cbn in *. rewrite He in *. set_solver.
  - right. eexists. split; [reflexivity|]. right. left. rewrite Hpc.
    split; [done|]. split; [done|]. split; [done|].
    intros Hlive Hnd. split; [|done].
    intros p. rewrite live_goto_set_engine. cbn [buffers set_buffers].
    unfold live, allocated in Hlive. rewrite He in Hlive.
    rewrite dom_insert_L. cbn [owned] in *. specialize (Hlive p). set_solver.
  - right. eexists. split; [reflexivity|]. right. left. rewrite Hpc.
    split; [done|]. split; [done|]. split; [done|].
    intros Hlive Hnd. split; [|done].
    intros p. rewrite live_goto_set_engine. cbn [buffers ccall].
    unfold live, allocated in Hlive. rewrite He in Hlive. exact (Hlive p).
  - right. eexists. split; [reflexivity|]. right. left. rewrite Hpc.
    split; [done|]. split; [done|]. split; [done|].
    intros Hlive Hnd. unfold live, allocated in Hlive. rewrite He in Hlive. cbn [owned] in *.
    assert (Hne : rxPtr ≠ txPtr).
    { intros <-. apply not_elem_of_dom in Hfresh. apply Hfresh, Hlive. set_solver. }
    split.
    + intros p. rewrite live_goto_set_engine. cbn [buffers set_buffers].
      rewrite dom_insert_L. specialize (Hlive p). set_solver.
    + apply NoDup_cons. split; [set_solver|apply NoDup_singleton].
  - right. eexists. split; [reflexivity|]. right. left. rewrite Hpc.
    split; [done|]. split; [done|]. split; [done|]. done.
  - right. eexists. split; [reflexivity|]. right. left. rewrite Hpc.
    split; [done|]. split; [done|]. split; [done|].
    intros Hlive Hnd. unfold live, allocated in Hlive. rewrite He in Hlive. cbn [owned] in *.
    apply NoDup_cons in Hnd as [Hne _].
    split; [|apply NoDup_singleton].
    intros p. rewrite live_goto_set_engine. cbn [buffers set_buffers].
    rewrite dom_delete_L. specialize (Hlive p). set_solver.
  - right. eexists. split; [reflexivity|]. right. left. rewrite Hpc.
    split; [done|]. split; [done|]. split; [done|]. done.
  - right. eexists. split; [reflexivity|]. right. left. rewrite Hpc.
    split; [done|]. split; [done|]. split; [done|]. done.
  - right. eexists. split; [reflexivity|]. right. left. rewrite Hpc.
    split; [done|]. split; [done|]. split; [done|].
    intros Hlive Hnd. unfold live, allocated in Hlive. rewrite He in Hlive. cbn [owned] in *.
    split; [|apply NoDup_nil_2].
    intros p. rewrite live_goto_set_engine. cbn [buffers set_buffers].
    rewrite dom_delete_L. specialize (Hlive p). set_solver.
  - right. eexists. split; [reflexivity|]. right. right. done.
Qed.

Lemma lookup_alter_pc p' i (l : list Activation) j b :
  alter (set_pc p') i l !! j = Some b →
  (j = i ∧ pc b = p' ∧ ∃ a, l !! i = Some a) ∨ (j ≠ i ∧ l !! j = Some b).
Proof.
  rewrite list_lookup_alter. case_decide as Hij.
  - subst j. destruct (l !! i) as [a|]; [|done]. simpl. intros [= <-].
    left. split; [done|]. split; [done|]. by exists a.
  - intros Hb. right. split; [congruence|done].
Qed.

Lemma resume_bridge_inv i a s s' :
  activations s !! i = Some a →
  resume i a s s' →
  bridge_inv s → bridge_inv s'.
Proof.
  intros Hi Hr Hinv.
  destruct (resume_cases _ _ _ _ Hr)
    as [(-> & _ & _)|(p' & Hacts & [(Hpc & Hf & Hf' & Hh & Hnd & Hlive)
                                   |[(Hha & Hh & Hf' & Hlive)
                                    |(Hpc & -> & Hf' & Hlive)]])]; [done|..].
  - unfold bridge_inv in *. rewrite Hf in Hinv. rewrite Hf'.
    destruct Hinv as [Hnone Hempty].
    exists i, (set_pc p' a). rewrite Hacts, list_lookup_alter_eq, Hi.
    split; [done|]. split; [done|]. split; [|by auto].
    intros j b [(-> & _)|(Hne & Hb)]%lookup_alter_pc Hhb; [done|].
    specialize (Hnone j b Hb). congruence.
  - unfold bridge_inv in *. rewrite Hf'.
    destruct (_isRunningLldb s).
    + destruct Hinv as (i0 & a0 & Hi0 & _ & Huniq & Hl & Hnd).
      assert (i = i0) as <- by (by eapply Huniq).
      assert (a0 = a) as -> by congruence.
      destruct (Hlive Hl Hnd) as [Hl' Hnd'].
      exists i, (set_pc p' a). rewrite Hacts, list_lookup_alter_eq, Hi.
      split; [done|]. split; [done|]. split; [|done].
      intros j b [(-> & _)|(Hne & Hb)]%lookup_alter_pc Hhb; [done|].
      by eapply Huniq.
    + destruct Hinv as [Hnone _]. specialize (Hnone i a Hi). congruence.
  - unfold bridge_inv in *. rewrite Hf'.
    destruct (_isRunningLldb s).
    + destruct Hinv as (i0 & a0 & Hi0 & _ & Huniq & Hl & Hnd).
      assert (i = i0) as <-.
      { eapply Huniq; [done|]. by rewrite Hpc. }
      assert (a0 = a) as -> by congruence.
      split.
      * rewrite Hacts.
        intros j b [(-> & Hb & _)|(Hne & Hb)]%lookup_alter_pc; [by rewrite Hb|].
        destruct (holding (pc b)) eqn:Hhb; [|done].
        exfalso. apply Hne. by eapply Huniq.
      * rewrite Hlive. apply set_eq. intros p. rewrite Hl, Hpc. set_solver.
    + destruct Hinv as [Hnone _]. specialize (Hnone i a Hi).
      rewrite Hpc in Hnone. done.
Qed.

Lemma bridge_inv_ext s s' :
  _isRunningLldb s' = _isRunningLldb s →
  activations s' = activations s →
  live s' = live s →
  bridge_inv s → bridge_inv s'.
Proof. unfold bridge_inv. intros -> -> ->. done. Qed.

Lemma bridge_inv_call a s :
  pc a = Polling →
  bridge_inv s → bridge_inv (set_activations (activations s ++ [a]) s).
Proof.
  intros Hpc. unfold bridge_inv. cbn [_isRunningLldb set_activations activations].
  change (live (set_activations (activations s ++ [a]) s)) with (live s).
  destruct (_isRunningLldb s).
  - intros (i & b & Hi & Hh & Huniq & Hl & Hnd).
    exists i, b. split; [by apply lookup_app_l_Some|]. split; [done|].
    split; [|done].
    intros j c [Hc|[_ Hc]]%lookup_app_Some Hhc; [by eapply Huniq|].
    destruct (j - length (activations s))%nat; [|done].
    simpl in Hc. injection Hc as <-. by rewrite Hpc in Hhc.
  - intros [Hnone Hl]. split; [|done].
    intros j c [Hc|[_ Hc]]%lookup_app_Some; [by eapply Hnone|].
    destruct (j - length (activations s))%nat; [|done].
    simpl in Hc. injection Hc as <-. by rewrite Hpc.
Qed.

Lemma lldb_ccall_allocated c rt rt' :
  lldb_ccall c rt = Return rt' → allocated rt' = allocated rt.
Proof.
  unfold lldb_ccall, allocated. destruct (lldb rt); [|done]. by intros [= <-].
Qed.

Lemma runtime_op_live s rt' :
  runtime_op (_runtime s) rt' → live (set_runtime rt' s) = live s.
Proof.
  unfold live. cbn [_runtime set_runtime].
  intros [rt Hnone|rt|rt rt0 H|rt rt0 H|rt rt0 H|rt rt0 H].
  - unfold allocated. rewrite Hnone. cbn. apply dom_empty_L.
  - done.
  - unfold continue in H.
    destruct (lldb_ccall _ rt) as [rt1|] eqn:E; [|done]. injection H as <-.
    exact (lldb_ccall_allocated _ _ _ E).
  - unfold next in H.
    destruct (lldb_ccall _ rt) as [rt1|] eqn:E; [|done]. injection H as <-.
    exact (lldb_ccall_allocated _ _ _ E).
  - unfold stepIn in H.
    destruct (lldb_ccall _ rt) as [rt1|] eqn:E; [|done]. injection H as <-.
    exact (lldb_ccall_allocated _ _ _ E).
  - unfold stepOut in H.
    destruct (lldb_ccall _ rt) as [rt1|] eqn:E; [|done]. injection H as <-.
    exact (lldb_ccall_allocated _ _ _ E).
Qed.

Lemma fireTimer_live s ev rt' :
  fireTimer (_runtime s) = Some (ev, rt') → live (set_runtime rt' s) = live s.
Proof.
  unfold fireTimer, live, allocated. destruct (timers (_runtime s)); [done|].
  by intros [= _ <-].
Qed.

(** What a turn of the event loop does to the calls of [lldbRun]: nothing,
    or one of them is resumed, possibly right after it was added. *)
Lemma step_cases s s' :
  step s s' →
  (_isRunningLldb s' = _isRunningLldb s ∧ activations s' = activations s ∧
   live s' = live s)
  ∨ (∃ i a, activations s !! i = Some a ∧ resume i a s s')
  ∨ (∃ a, pc a = Polling ∧
       resume (length (activations s)) a
         (set_activations (activations s ++ [a]) s) s').
Proof.
  intros Hstep.
  destruct Hstep as [action s s' Hp|i a s s' Hi Hr|s rt' Hop|s ev rt' Hf].
  - destruct Hp as [r s|f t s s' Hrun].
    + by left.
    + right. right. eexists. split; [|exact Hrun]. done.
  - right. left. eauto.
  - left. split; [done|]. split; [done|]. by apply runtime_op_live.
  - left. destruct (listener rt' ev); (split; [done|]); (split; [done|]);
      by eapply fireTimer_live.
Qed.

Lemma step_bridge_inv s s' : step s s' → bridge_inv s → bridge_inv s'.
Proof.
  intros [(Hf & Ha & Hl)|[(i & a & Hi & Hr)|(a & Hpc & Hr)]]%step_cases Hinv.
  - by eapply bridge_inv_ext.
  - by eapply resume_bridge_inv.
  - eapply resume_bridge_inv; [|exact Hr|by apply bridge_inv_call].
    cbn [activations set_activations]. by apply list_lookup_middle.
Qed.

Lemma holding_not_Polling p : holding p = true → p ≠ Polling.
Proof. by intros H ->. Qed.

Lemma resume_fifo_inv n0 i a s s' :
  activations s !! i = Some a →
  resume i a s s' →
  bridge_inv s →
  (n0 ≤ length (activations s))%nat →
  (∀ j b, (j < n0)%nat → activations s !! j = Some b → pc b = Returned) →
  (∀ b, activations s !! n0 = Some b → pc b = Polling →
        i = n0 ∧ _isRunningLldb s = false) →
  (∀ j b, (n0 < j)%nat → activations s !! j = Some b → pc b ≠ Polling →
     ∃ a0, activations s !! n0 = Some a0 ∧ pc a0 = Returned) →
  fifo_inv n0 s'.
Proof.
  intros Hi Hr Hinv Hlen H4 H5 H6.
  destruct (resume_cases _ _ _ _ Hr)
    as [(-> & Hpc & Hf)|(p' & Hacts & Hkind)].
  { split; [done|]. split; [done|]. split; [|done].
    intros b Hb Hp. destruct (H5 b Hb Hp) as [_ Hf']. congruence. }
  assert (Hn0 : ∀ a0, activations s !! n0 = Some a0 → n0 ≠ i →
                 alter (set_pc p') i (activations s) !! n0 = Some a0).
  { intros a0 Ha0 Hne. rewrite list_lookup_alter_ne by done. done. }
  assert (Hn0i : n0 = i →
                 alter (set_pc p') i (activations s) !! n0 = Some (set_pc p' a)).
  { intros ->. by rewrite list_lookup_alter_eq, Hi. }
  unfold fifo_inv. rewrite Hacts, length_alter. split; [done|].
  destruct Hkind as [(Hpc & Hf & Hf' & Hh & _)
                    |[(Hha & Hh & _)|(Hpc & -> & _)]].
  - (* the activation takes the bridge *)
    unfold bridge_inv in Hinv. rewrite Hf in Hinv. destruct Hinv as [Hnone _].
    split; [|split].
    + intros j b Hj [(-> & _)|(Hne & Hb)]%lookup_alter_pc; [|by eapply H4].
      specialize (H4 i a Hj Hi). congruence.
    + intros b [(-> & Hb & _)|(Hne & Hb)]%lookup_alter_pc.
      * rewrite Hb. by apply holding_not_Polling.
      * intros Hp. destruct (H5 b Hb Hp) as [-> _]. done.
    + intros j b Hj [(-> & Hb & _)|(Hne & Hb)]%lookup_alter_pc Hnp.
      * destruct (lookup_lt_is_Some_2 (activations s) n0) as [a0 Ha0].
        { apply lookup_lt_Some in Hi. lia. }
        exists a0. split; [apply Hn0; [done|lia]|].
        destruct (holding_false_cases _ (Hnone n0 a0 Ha0)) as [Hp|Hp]; [|done].
        destruct (H5 a0 Ha0 Hp). lia.
      * destruct (H6 j b Hj Hb Hnp) as (a0 & Ha0 & Hret).
        exists a0. split; [|done]. apply Hn0; [done|].
        intros ->. congruence.
  - (* the activation moves on while it holds the bridge *)
    split; [|split].
    + intros j b Hj [(-> & _)|(Hne & Hb)]%lookup_alter_pc; [|by eapply H4].
      specialize (H4 i a Hj Hi). rewrite H4 in Hha. done.
    + intros b [(-> & Hb & _)|(Hne & Hb)]%lookup_alter_pc.
      * rewrite Hb. by apply holding_not_Polling.
      * intros Hp. destruct (H5 b Hb Hp) as [-> _]. done.
    + intros j b Hj [(-> & Hb & _)|(Hne & Hb)]%lookup_alter_pc Hnp.
      * destruct (H6 i a Hj Hi (holding_not_Polling _ Hha)) as (a0 & Ha0 & Hret).
        exists a0. split; [apply Hn0; [done|lia]|done].
      * destruct (H6 j b Hj Hb Hnp) as (a0 & Ha0 & Hret).
        exists a0. split; [|done]. apply Hn0; [done|].
        intros ->. assert (a0 = a) as -> by congruence. rewrite Hret in Hha. done.
  - (* the activation gives the bridge back *)
    split; [|split].
    + intros j b Hj [(-> & Hb & _)|(Hne & Hb)]%lookup_alter_pc; [done|by eapply H4].
    + intros b [(-> & Hb & _)|(Hne & Hb)]%lookup_alter_pc.
      * by rewrite Hb.
      * intros Hp. destruct (H5 b Hb Hp) as [-> _]. done.
    + intros j b Hj [(-> & Hb & _)|(Hne & Hb)]%lookup_alter_pc Hnp.
      * assert (Hnp' : pc a ≠ Polling) by (by rewrite Hpc).
        destruct (H6 i a Hj Hi Hnp') as (a0 & Ha0 & Hret).
        exists a0. split; [apply Hn0; [done|lia]|done].
      * destruct (H6 j b Hj Hb Hnp) as (a0 & Ha0 & Hret).
        destruct (decide (n0 = i)) as [->|Hne'].
        -- exists (set_pc Returned a). split; [by apply Hn0i|done].
        -- exists a0. split; [by apply Hn0|done].
Qed.

Lemma step_fifo_inv n0 s s' :
  step s s' → bridge_inv s → fifo_inv n0 s → fifo_inv n0 s'.
Proof.
  intros [(Hf & Ha & Hl)|[(i & a & Hi & Hr)|(a & Hpc & Hr)]]%step_cases
    Hinv (Hlen & H4 & H5 & H6).
  - unfold fifo_inv. rewrite Ha. done.
  - eapply resume_fifo_inv; [done|exact Hr|done|done|done| |done].
    intros b Hb Hp. by destruct (H5 b Hb).
  - eapply resume_fifo_inv; [|exact Hr|by apply bridge_inv_call|..];
      cbn [activations set_activations _isRunningLldb].
    + by apply list_lookup_middle.
    + rewrite length_app. lia.
    + intros j b Hj [Hb|[Hge Hb]]%lookup_app_Some; [by eapply H4|lia].
    + intros b [Hb|[Hge Hb]]%lookup_app_Some Hp; [by destruct (H5 b Hb)|].
      assert (n0 = length (activations s)) as -> by lia.
      split; [done|].
      destruct (_isRunningLldb s) eqn:Hf; [|done].
      unfold bridge_inv in Hinv. rewrite Hf in Hinv.
      destruct Hinv as (k & c & Hk & Hh & _).
      rewrite (H4 k c (lookup_lt_Some _ _ _ Hk) Hk) in Hh. done.
    + intros j b Hj [Hb|[Hge Hb]]%lookup_app_Some Hnp.
      * destruct (H6 j b Hj Hb Hnp) as (a0 & Ha0 & Hret).
        exists a0. split; [by apply lookup_app_l_Some|done].
      * destruct (j - length (activations s))%nat; [|done].
        simpl in Hb. injection Hb as <-. done.
Qed.

Lemma idle_bridge_inv s : idle s → bridge_inv s.
Proof.
  intros (Hf & Hall & Hl). unfold bridge_inv. rewrite Hf. split; [|done].
  intros j b Hb. by rewrite (Hall j b Hb).
Qed.

Lemma idle_fifo_inv s : idle s → fifo_inv (length (activations s)) s.
Proof.
  intros (Hf & Hall & Hl). split; [done|]. split; [|split].
  - intros i a _ Hi. by eapply Hall.
  - intros a Ha. apply lookup_lt_Some in Ha. lia.
  - intros j b Hj Hb. apply lookup_lt_Some in Hb. lia.
Qed.

Lemma reachable_inv s0 s :
  idle s0 → reachable_from s0 s →
  bridge_inv s ∧ fifo_inv (length (activations s0)) s.
Proof.
  intros Hidle. induction 1 as [|s s' _ [IH1 IH2] Hstep].
  - split; [by apply idle_bridge_inv|by apply idle_fifo_inv].
  - split; [by eapply step_bridge_inv|by eapply step_fifo_inv].
Qed.

(** While an activation holds the bridge, one that waits goes on
    waiting. *)
Lemma step_keeps_waiting s s' i a j b :
  bridge_inv s → step s s' →
  activations s !! i = Some a → holding (pc a) = true →
  activations s !! j = Some b → pc b = Polling →
  ∃ b', activations s' !! j = Some b' ∧ pc b' = Polling.
Proof.
  intros Hinv Hstep Hi Hh Hj Hp.
  assert (Hf : _isRunningLldb s = true).
  { unfold bridge_inv in Hinv. destruct (_isRunningLldb s); [done|].
    destruct Hinv as [Hnone _]. rewrite (Hnone i a Hi) in Hh. done. }
  apply step_cases in Hstep as [(_ & Ha & _)|[(k & c & Hk & Hr)|(c & Hpc & Hr)]].
  - exists b. by rewrite Ha.
  - destruct (resume_cases _ _ _ _ Hr)
      as [(-> & _)|(p' & Hacts & [(_ & Hf' & _)|[(Hhc & _)|(Hpc & _)]])].
    + by exists b.
    + congruence.
    + exists b. split; [|done]. rewrite Hacts, list_lookup_alter_ne; [done|].
      intros ->. assert (c = b) as -> by congruence. by rewrite Hp in Hhc.
    + exists b. split; [|done]. rewrite Hacts, list_lookup_alter_ne; [done|].
      intros ->. assert (c = b) as -> by congruence. congruence.
  - destruct (resume_cases _ _ _ _ Hr)
      as [(-> & _)|(p' & Hacts & [(_ & Hf' & _)|[(Hhc & _)|(Hpc' & _)]])].
    + exists b. split; [|done]. by apply lookup_app_l_Some.
    + cbn in Hf'. congruence.
    + by rewrite Hpc in Hhc.
    + congruence.
Qed.

(** An activation that has left the waiting loop never goes back to it,
    and one that has returned stays so. *)
Lemma step_not_Polling s s' i a :
  step s s' → activations s !! i = Some a → pc a ≠ Polling →
  ∃ a', activations s' !! i = Some a' ∧ pc a' ≠ Polling ∧
        (pc a = Returned → pc a' = Returned).
Proof.
  intros Hstep Hi Hnp.
  assert (Hres : ∀ k c l, l !! k = Some c → l !! i = Some a →
            resume k c (set_activations l s) s' →
            ∃ a', activations s' !! i = Some a' ∧ pc a' ≠ Polling ∧
                  (pc a = Returned → pc a' = Returned)).
  { intros k c l Hk Hl Hr.
    destruct (resume_cases _ _ _ _ Hr)
      as [(-> & _)|(p' & Hacts & Hkind)]; [by exists a|].
    cbn [activations set_activations] in Hacts.
    destruct (decide (k = i)) as [->|Hne].
    - assert (c = a) as -> by congruence.
      exists (set_pc p' a). rewrite Hacts, list_lookup_alter_eq, Hl.
      split; [done|].
      destruct Hkind as [(Hpc & _)|[(Hha & Hh & _)|(Hpc & -> & _)]].
      + done.
      + split; [by apply holding_not_Polling|]. intros Hret. by rewrite Hret in Hha.
      + split; [done|done].
    - exists a. rewrite Hacts, list_lookup_alter_ne by done. done. }
  apply step_cases in Hstep as [(_ & Ha & _)|[(k & c & Hk & Hr)|(c & Hpc & Hr)]].
  - exists a. by rewrite Ha.
  - apply (Hres k c (activations s)); [done|done|]. by destruct s.
  - apply (Hres (length (activations s)) c (activations s ++ [c])); [|..|done].
    + by apply list_lookup_middle.
    + by apply lookup_app_l_Some.
Qed.

(** An activation leaves the waiting loop only in a turn that finds the
    flag reset, and that turn changes no other activation. *)
Lemma step_leaves_Polling s s' j b' :
  step s s' → activations s' !! j = Some b' → pc b' ≠ Polling →
  (∃ b, activations s !! j = Some b ∧ pc b ≠ Polling) ∨
  (_isRunningLldb s = false ∧
   ∀ k c, k ≠ j → activations s !! k = Some c → activations s' !! k = Some c).
Proof.
  intros Hstep Hj Hnp.
  assert (Hres : ∀ k c l, l !! k = Some c →
            (∀ m d, l !! m = Some d → m ≠ k → activations s !! m = Some d) →
            (∀ m d, activations s !! m = Some d → l !! m = Some d) →
            (pc c = Polling ∨ activations s !! k = Some c) →
            resume k c (set_activations l s) s' →
            (∃ b, activations s !! j = Some b ∧ pc b ≠ Polling) ∨
            (_isRunningLldb s = false ∧
             ∀ m d, m ≠ j → activations s !! m = Some d →
                    activations s' !! m = Some d)).
  { intros k c l Hk Hold Hnew Hc Hr.
    destruct (resume_cases _ _ _ _ Hr)
      as [(-> & Hpc & _)|(p' & Hacts & Hkind)].
    - cbn [activations set_activations] in Hj. left.
      destruct (decide (j = k)) as [->|Hne].
      + assert (b' = c) as -> by congruence. done.
      + exists b'. split; [by eapply Hold|done].
    - cbn [activations set_activations _isRunningLldb] in Hacts, Hkind.
      rewrite Hacts in Hj.
      apply lookup_alter_pc in Hj as [(-> & Hb' & _)|(Hne & Hb)].
      + destruct Hkind as [(Hpc & Hf & _)|[(Hha & _)|(Hpc & _)]].
        * right. split; [done|]. intros m d Hm Hd.
          rewrite Hacts, list_lookup_alter_ne by done. by apply Hnew.
        * left. exists c. destruct Hc as [Hc|Hc].
          -- by rewrite Hc in Hha.
          -- split; [done|]. by apply holding_not_Polling.
        * left. exists c. destruct Hc as [Hc|Hc]; [congruence|].
          split; [done|]. by rewrite Hpc.
      + left. exists b'. split; [by eapply Hold|done]. }
  apply step_cases in Hstep as [(_ & Ha & _)|[(k & c & Hk & Hr)|(c & Hpc & Hr)]].
  - left. exists b'. by rewrite <- Ha.
  - apply (Hres k c (activations s)); [done|auto|auto|by right|]. by destruct s.
  - apply (Hres (length (activations s)) c (activations s ++ [c]));
      [by apply list_lookup_middle| | |by left|done].
    + intros m d [Hd|[Hge Hd]]%lookup_app_Some Hne; [done|].
      destruct (m - length (activations s))%nat eqn:E; [lia|done].
    + intros m d Hd. by apply lookup_app_l_Some.
Qed.

(** A call that waits, or that is made, while call [i] holds the bridge
    leaves the waiting loop only after call [i] has returned. *)
Lemma served_after_holder s s' i a :
  bridge_inv s →
  activations s !! i = Some a → holding (pc a) = true →
  reachable_from s s' →
  ∀ j b', j ≠ i →
    (∀ b, activations s !! j = Some b → pc b = Polling) →
    activations s' !! j = Some b' → pc b' ≠ Polling →
    ∃ a', activations s' !! i = Some a' ∧ pc a' = Returned.
Proof.
  intros Hinv Hi Hh Hreach.
  assert (Hall : bridge_inv s' ∧
            (∃ a', activations s' !! i = Some a' ∧ pc a' ≠ Polling) ∧
            ∀ j b', j ≠ i →
              (∀ b, activations s !! j = Some b → pc b = Polling) →
              activations s' !! j = Some b' → pc b' ≠ Polling →
              ∃ a', activations s' !! i = Some a' ∧ pc a' = Returned);
    [|by destruct Hall as (_ & _ & Hgoal)].
  induction Hreach as [|s' s'' _ (Hinv' & (a' & Hi' & Hnp') & IH) Hstep].
  - split; [done|]. split; [exists a; split; [done|by apply holding_not_Polling]|].
    intros j b' Hne Hw Hj Hnp. by rewrite (Hw b' Hj) in Hnp.
  - split; [by eapply step_bridge_inv|].
    destruct (step_not_Polling _ _ _ _ Hstep Hi' Hnp') as (a'' & Hi'' & Hnp'' & Hret).
    split; [by exists a''|].
    intros j b'' Hne Hw Hj Hnp.
    destruct (step_leaves_Polling _ _ _ _ Hstep Hj Hnp)
      as [(b' & Hj' & Hnpj)|(Hf & Hsame)].
    + destruct (IH j b' Hne Hw Hj' Hnpj) as (a1 & Ha1 & Hr1).
      assert (a1 = a') as -> by congruence.
      exists a''. split; [done|by apply Hret].
    + unfold bridge_inv in Hinv'. rewrite Hf in Hinv'. destruct Hinv' as [Hnone _].
      destruct (holding_false_cases _ (Hnone i a' Hi')) as [Hp|Hp]; [done|].
      exists a''. split; [done|by apply Hret].
Qed.

End BridgeFacts.

Section BridgeRun.
Import Runtime Spec Session.

(** A whole run: the first call goes through the bridge while the second
    waits, then the second takes the bridge. *)
Example two_calls_in_order :
  ∃ s, reachable_from Samples.session s ∧
       pc <$> activations s = [Returned; AwaitMalloc 2048] ∧
       _isRunningLldb s = true ∧
       live s = {[ 2048 ]} ∧
       sent s = [SentResponse
                   {| request_seq := 7; success := true; command := "stackTrace";
                      body := Some (StackTrace
                        {| stackFrames :=
                             [Samples.frame 0 "process_instruction"
                                (Samples.fileSource
                                   (Path.solSdkPath +:+ "sdk/program/src/entrypoint.rs"))];
                           totalFrames := Some 1 |}) |}].
Proof.
  pose proof (reachable_refl Samples.session) as H.
  (* the two calls are made *)
  eapply reachable_step in H.
  2:{ apply (step_handler (CallLldbRun "request_stackTrace" "{1}")), perform_call.
      eapply (resume_enter _ _ _ _ 1024); [reflexivity..|apply lookup_empty]. }
  eapply reachable_step in H.
  2:{ apply (step_handler (CallLldbRun "request_scopes" "{2}")), perform_call.
      eapply resume_busy; reflexivity. }
  (* the first call writes, calls the engine, reads the answer *)
  eapply reachable_step in H.
  2:{ eapply (step_resume 0); [reflexivity|]. eapply resume_write; reflexivity. }
  eapply reachable_step in H.
  2:{ eapply (step_resume 0); [reflexivity|]. eapply resume_ccall; reflexivity. }
  eapply reachable_step in H.
  2:{ eapply (step_resume 0); [reflexivity|].
      eapply (resume_result _ _ _ _ _ 4096 "{}"); [reflexivity|reflexivity|].
      by vm_compute. }
  (* the second call polls in between *)
  eapply reachable_step in H.
  2:{ eapply (step_resume 1); [reflexivity|]. eapply resume_busy; reflexivity. }
  eapply reachable_step in H.
  2:{ eapply (step_resume 0); [reflexivity|].
      eapply (resume_send _ _ _ _ _ _ _
                {| request_seq := 7; success := true; command := "stackTrace";
                   body := Some (StackTrace Samples.sdkTrace) |});
        reflexivity. }
  eapply reachable_step in H.
  2:{ eapply (step_resume 0); [reflexivity|]. eapply resume_free; reflexivity. }
  eapply reachable_step in H.
  2:{ eapply (step_resume 0); [reflexivity|]. eapply resume_return; reflexivity. }
  (* the second call takes the bridge *)
  eapply reachable_step in H.
  2:{ eapply (step_resume 1); [reflexivity|].
      eapply (resume_enter _ _ _ _ 2048); [reflexivity..|by vm_compute]. }
  eexists. split; [exact H|]. split; [reflexivity|]. split; [reflexivity|].
  split; [by vm_compute|reflexivity].
Qed.

End BridgeRun.

(** ** The breakpoint store in the states the runtime reaches: lemmas *)

Section StoreFacts.
Import JS Path Runtime Spec Spec2.

Lemma mark_all_length bps h : length (mark_all bps h) = length h.
Proof.
  unfold mark_all. revert h. induction bps as [|b bps IH]; intros h; cbn [foldl]; [done|].
  by rewrite IH, length_alter.
Qed.

Lemma mark_all_line bps h (bp : loc) :
  bp_line <$> mark_all bps h !! bp = bp_line <$> h !! bp.
Proof.
  rewrite mark_all_lookup. destruct (h !! bp) as [r|]; [|done].
  simpl. by case_bool_decide.
Qed.

Lemma lldb_ccall_same_store c rt rt' : lldb_ccall c rt = Return rt' → same_store rt rt'.
Proof. unfold lldb_ccall. destruct (lldb rt); [|done]. by intros [= <-]. Qed.

Lemma lldb_ccall_timers c rt rt' : lldb_ccall c rt = Return rt' → timers rt' = timers rt.
Proof. unfold lldb_ccall. destruct (lldb rt); [|done]. by intros [= <-]. Qed.

(** The stepping operations: one call of the engine, one scheduled
    event. *)
Lemma stepping_cases rt rt' :
  continue rt = Return rt' ∨ next rt = Return rt' ∨
  stepIn rt = Return rt' ∨ stepOut rt = Return rt' →
  ∃ c ev rt0, lldb_ccall c rt = Return rt0 ∧ rt' = sendEvent ev rt0 ∧
    (ev = stopOnBreakpoint ∨ ev = stopOnStep).
Proof.
  unfold continue, next, stepIn, stepOut.
  intros [H|[H|[H|H]]];
    (destruct (lldb_ccall _ rt) as [rt0|] eqn:E; [|done]); injection H as <-;
    eexists _, _, rt0; (split; [exact E|]); (split; [reflexivity|]); auto.
Qed.

Lemma stepping_same_store rt rt' :
  continue rt = Return rt' ∨ next rt = Return rt' ∨
  stepIn rt = Return rt' ∨ stepOut rt = Return rt' →
  same_store rt rt'.
Proof.
  intros (c & ev & rt0 & Hc & -> & _)%stepping_cases.
  by apply lldb_ccall_same_store in Hc.
Qed.

(** A completed [setBreakPoint], field by field. *)
Lemma setBreakPoint_store path line rt bp rt' :
  setBreakPoint path line rt = Return (bp, rt') →
  let bps := default [] (_breakPoints rt !! path) in
  bp = length (heap rt) ∧
  _sourceLines rt' = _sourceLines rt ∧
  _sourceTextAsMemory rt' = _sourceTextAsMemory rt ∧
  _breakPoints rt' = <[path := bps ++ [bp]]> (_breakPoints rt) ∧
  _breakpointId rt' = _breakpointId rt + 1 ∧
  heap rt' = mark_all (bps ++ [bp])
               (heap rt ++ [{| bp_id := _breakpointId rt; bp_line := line;
                               bp_verified := false |}]) ∧
  timers rt' = timers rt ++ (breakpointValidated <$> (bps ++ [bp])).
Proof.
  intros (lldbPath & e & _ & _ & Hbp & Hrt)%setBreakPoint_Return.
  cbn zeta in Hbp, Hrt. subst bp.
  set (rt0 := set_lldb _ rt) in *.
  pose proof (pushBreakpoint_spec path line rt0) as Hpush.
  destruct (pushBreakpoint path line rt0) as [bp rt1] eqn:E.
  destruct Hpush as (Hbp & Hheap & Hmap & Hid & _ & Htm & Hsl & Hmem).
  cbn [fst snd] in *.
  assert (Hlook : _breakPoints rt1 !! path
                  = Some (default [] (_breakPoints rt !! path) ++ [bp])).
  { rewrite Hmap. by rewrite lookup_insert_eq. }
  destruct (verifyBreakpoints_spec path _ rt1 Hlook) as (_ & H2 & H3 & H4 & H5 & H6 & H7).
  subst rt'. split; [done|]. split; [by rewrite H2, Hsl|]. split; [by rewrite H3, Hmem|].
  split; [by rewrite H4, Hmap|]. split; [by rewrite H5, Hid|].
  split; [by rewrite H6, Hheap|by rewrite H7, Htm].
Qed.

(** [clearBreakPoint] either leaves the state as it is or takes one
    element out of the list of the file. *)
Lemma clearBreakPoint_cases path line rt :
  (clearBreakPoint path line rt = (None, rt) ∧
   ∀ bps, _breakPoints rt !! path = Some bps →
     ∀ bp : loc, bp ∈ bps → onLine rt line bp = false) ∨
  (∃ l1 (bp : loc) l2,
     _breakPoints rt !! path = Some (l1 ++ bp :: l2) ∧
     (∀ b : loc, b ∈ l1 → onLine rt line b = false) ∧
     onLine rt line bp = true ∧
     clearBreakPoint path line rt
     = (Some bp, set_breakPoints (<[path := l1 ++ l2]> (_breakPoints rt)) rt)).
Proof.
  unfold clearBreakPoint. destruct (_breakPoints rt !! path) as [bps|] eqn:Hm.
  - fold (onLine rt line).
    change (λ bp : loc, match heap rt !! bp with
                        | Some r => bp_line r =? line
                        | None => false
                        end) with (onLine rt line).
    destruct (findIndex (onLine rt line) bps) as [index|] eqn:Hidx.
    + right. apply findIndex_Some in Hidx as (bp & Hbp & Hpred & Hfirst).
      exists (take index bps), bp, (drop (S index) bps).
      pose proof (take_drop_middle bps index bp Hbp) as Hsplit.
      assert (Hlen : length (take index bps) = index).
      { apply length_take_le. apply lookup_lt_Some in Hbp. lia. }
      split; [by rewrite Hsplit|]. split.
      { intros b [j Hj]%list_elem_of_lookup.
        assert (j < index)%nat as Hlt.
        { apply lookup_lt_Some in Hj. lia. }
        apply (Hfirst j b Hlt). rewrite lookup_take_lt in Hj by done. done. }
      split; [done|]. rewrite Hbp. f_equal. f_equal. f_equal.
      rewrite <- Hsplit at 1. rewrite <- Hlen at 1. apply delete_middle.
    + left. split; [done|]. intros bps' [= <-]. by apply findIndex_None.
  - left. split; [done|]. done.
Qed.

Lemma shrinks_clearBreakPoint path line rt :
  (clearBreakPoint path line rt).2 = rt ∨
  ∃ m, (clearBreakPoint path line rt).2 = set_breakPoints m rt ∧
       shrinks m (_breakPoints rt).
Proof.
  destruct (clearBreakPoint_cases path line rt)
    as [[-> _]|(l1 & bp & l2 & Hm & _ & _ & ->)]; [by left|right].
  eexists. split; [reflexivity|]. intros p bps'.
  destruct (decide (p = path)) as [->|Hne].
  - rewrite lookup_insert_eq. intros [= <-]. eexists. split; [exact Hm|].
    apply sublist_app; [done|]. by apply sublist_cons.
  - rewrite lookup_insert_ne by done. intros Hp. by exists bps'.
Qed.

Lemma shrinks_clearBreakpoints path rt :
  shrinks (delete path (_breakPoints rt)) (_breakPoints rt).
Proof.
  intros p bps' [_ Hp]%lookup_delete_Some. by exists bps'.
Qed.

(** Induction over the states of the runtime for a property of the
    store: it is enough to look at [setBreakPoint] and at the removal of
    elements from the lists. *)
Lemma reachable_store_ind (P : SolanaRuntime → Prop) :
  (∀ rt rt', same_store rt rt' → P rt → P rt') →
  P new →
  (∀ path line rt bp rt',
     reachable rt → P rt → setBreakPoint path line rt = Return (bp, rt') → P rt') →
  (∀ m rt, reachable rt → P rt → shrinks m (_breakPoints rt) → P (set_breakPoints m rt)) →
  ∀ rt, reachable rt → P rt.
Proof.
  intros Hframe Hnew Hset Hshrink.
  induction 1 as [|rt _ IH|rt e e' _ IH _|path line rt bp rt' Hr IH Hs|path line rt Hr IH
                  |path rt Hr IH|rt _ IH|rt rt' _ IH Hc|rt rt' _ IH Hc
                  |rt rt' _ IH Hc|rt rt' _ IH Hc|rt ev rt' _ IH Hf].
  - exact Hnew.
  - by apply (Hframe rt).
  - by apply (Hframe rt).
  - by eapply Hset.
  - destruct (shrinks_clearBreakPoint path line rt) as [->|(m & -> & Hm)]; [done|].
    by apply Hshrink.
  - apply Hshrink; [done..|]. apply shrinks_clearBreakpoints.
  - by apply (Hframe rt).
  - apply (Hframe rt); [|done]. apply stepping_same_store. auto.
  - apply (Hframe rt); [|done]. apply stepping_same_store. auto.
  - apply (Hframe rt); [|done]. apply stepping_same_store. auto.
  - apply (Hframe rt); [|done]. apply stepping_same_store. auto.
  - unfold fireTimer in Hf. destruct (timers rt); [done|]. injection Hf as _ <-.
    by apply (Hframe rt).
Qed.

(** The record at address [k] carries the identifier [k + 1], and the
    counter is one above the number of records. *)
Lemma reachable_numbered rt :
  reachable rt →
  _breakpointId rt = Z.of_nat (length (heap rt)) + 1 ∧
  ∀ (bp : loc) r, heap rt !! bp = Some r → bp_id r = Z.of_nat bp + 1.
Proof.
  revert rt. apply reachable_store_ind.
  - intros rt rt' (_ & _ & _ & Hid & Hh) [H1 H2]. rewrite Hid, Hh. done.
  - split; [done|]. intros bp r Hb. done.
  - intros path line rt bp rt' _ [Hc Hids] Hs.
    apply setBreakPoint_store in Hs as (Hbp & _ & _ & _ & Hid & Hh & _).
    rewrite Hid, Hh, mark_all_length, length_app. simpl. split; [lia|].
    intros b r (r0 & Hr0 & ->)%mark_all_id.
    apply lookup_app_Some in Hr0 as [Hold|[Hge Hnew]].
    + by apply Hids.
    + destruct (b - length (heap rt))%nat eqn:Hd; simpl in Hnew; [|done].
      injection Hnew as <-. simpl. lia.
  - intros m rt _ H _. exact H.
Qed.

Lemma reachable_verified rt :
  reachable rt → ∀ (bp : loc) r, heap rt !! bp = Some r → bp_verified r = true.
Proof.
  revert rt.
  apply (reachable_store_ind
           (λ rt, ∀ (bp : loc) r, heap rt !! bp = Some r → bp_verified r = true)).
  - intros rt rt' (_ & _ & _ & _ & Hh) H. by rewrite Hh.
  - intros bp r Hb. done.
  - intros path line rt bp rt' _ IH Hs b r.
    apply setBreakPoint_store in Hs as (Hbp & _ & _ & _ & _ & Hh & _).
    rewrite Hh, mark_all_lookup.
    destruct ((heap rt ++ _) !! b) as [r0|] eqn:Hr0; [|done]. simpl. intros [= <-].
    case_bool_decide as Hin; [done|]. simpl.
    apply lookup_app_Some in Hr0 as [Hold|[Hge Hnew]]; [by eapply IH|].
    destruct (b - length (heap rt))%nat eqn:Hd; simpl in Hnew; [|done].
    exfalso. apply Hin. apply elem_of_app. right. apply elem_of_cons. left. lia.
  - intros m rt _ H _. exact H.
Qed.

Lemma reachable_store_wf rt : reachable rt → store_wf rt.
Proof.
  revert rt. apply reachable_store_ind.
  - intros rt rt' (_ & _ & Hm & _ & Hh) H. unfold store_wf. by rewrite Hm, Hh.
  - split.
    + intros path bps Hp. cbn [_breakPoints new] in Hp. by rewrite lookup_empty in Hp.
    + intros p1 p2 b1 b2 bp Hp. cbn [_breakPoints new] in Hp. by rewrite lookup_empty in Hp.
  - intros path line rt bp rt' _ [Hwf Hdisj] Hs.
    apply setBreakPoint_store in Hs as (Hbp & _ & _ & Hm & _ & Hh & _).
    cbn zeta in *.
    set (old := default [] (_breakPoints rt !! path)) in *.
    assert (Hold : NoDup old ∧ ∀ b : loc, b ∈ old → (b < length (heap rt))%nat).
    { unfold old. destruct (_breakPoints rt !! path) as [l|] eqn:Hl; simpl.
      - by apply (Hwf path).
      - split; [constructor|]. intros b Hb. by apply elem_of_nil in Hb. }
    destruct Hold as [Hnd Hlt].
    assert (Hlen : length (heap rt') = S (length (heap rt))).
    { rewrite Hh, mark_all_length, length_app. simpl. lia. }
    assert (Hfresh : ∀ p l, _breakPoints rt !! p = Some l → bp ∉ l).
    { intros p l Hp Hin. apply (Hwf p l Hp) in Hin. lia. }
    split.
    + intros p l. rewrite Hm. destruct (decide (p = path)) as [->|Hne].
      * rewrite lookup_insert_eq. intros [= <-]. split.
        -- apply NoDup_app. split; [done|]. split; [|apply NoDup_singleton].
           intros b Hb ->%list_elem_of_singleton. apply Hlt in Hb. lia.
        -- intros b [Hb| ->%list_elem_of_singleton]%elem_of_app; [|lia].
           apply Hlt in Hb. lia.
      * rewrite lookup_insert_ne by done. intros Hp.
        destruct (Hwf p l Hp) as [H1 H2]. split; [done|].
        intros b Hb. apply H2 in Hb. lia.
    + assert (Hin : ∀ p l (b : loc), _breakPoints rt' !! p = Some l → b ∈ l →
                (p = path ∧ b = bp) ∨ ∃ l0, _breakPoints rt !! p = Some l0 ∧ b ∈ l0).
      { intros p l b. rewrite Hm. destruct (decide (p = path)) as [->|Hne].
        - rewrite lookup_insert_eq. intros [= <-].
          intros [Hb| ->%list_elem_of_singleton]%elem_of_app; [|by left].
          right. unfold old in Hb. destruct (_breakPoints rt !! path) as [l0|]; simpl in Hb.
          + by exists l0.
          + by apply elem_of_nil in Hb.
        - rewrite lookup_insert_ne by done. intros Hp Hb. right. by exists l. }
      intros p1 p2 l1 l2 b Hp1 Hp2 Hb1 Hb2.
      destruct (Hin p1 l1 b Hp1 Hb1) as [[-> ->]|(k1 & Hk1 & Hbk1)];
        destruct (Hin p2 l2 _ Hp2 Hb2) as [[-> Hb]|(k2 & Hk2 & Hbk2)]; try done.
      * exfalso. by apply (Hfresh p2 k2 Hk2).
      * exfalso. subst b. by apply (Hfresh p1 k1 Hk1).
      * by eapply Hdisj.
  - intros m rt _ [Hwf Hdisj] Hm. split.
    + intros p l Hp. destruct (Hm p l Hp) as (l0 & Hl0 & Hsub).
      destruct (Hwf p l0 Hl0) as [H1 H2]. split; [by eapply sublist_NoDup|].
      intros b Hb. apply H2. by eapply elem_of_sublist.
    + intros p1 p2 l1 l2 b Hp1 Hp2 Hb1 Hb2.
      destruct (Hm p1 l1 Hp1) as (k1 & Hk1 & Hs1).
      destruct (Hm p2 l2 Hp2) as (k2 & Hk2 & Hs2).
      exact (Hdisj p1 p2 k1 k2 b Hk1 Hk2 (elem_of_sublist _ _ _ Hb1 Hs1)
               (elem_of_sublist _ _ _ Hb2 Hs2)).
Qed.

(** No operation of the runtime fills the source lines or the memory
    buffer, and none schedules the event that ends the session. *)
Lemma reachable_no_source rt :
  reachable rt → _sourceLines rt = [] ∧ _sourceTextAsMemory rt = [].
Proof.
  revert rt. apply reachable_store_ind.
  - intros rt rt' (H1 & H2 & _) [H3 H4]. by rewrite H1, H2.
  - done.
  - intros path line rt bp rt' _ [H1 H2] Hs.
    apply setBreakPoint_store in Hs as (_ & H3 & H4 & _). by rewrite H3, H4.
  - intros m rt _ H _. exact H.
Qed.

Lemma reachable_no_end rt : reachable rt → end_of_program ∉ timers rt.
Proof.
  induction 1 as [|rt _ IH|rt e e' _ IH _|path line rt bp rt' Hr IH Hs|path line rt Hr IH
                  |path rt Hr IH|rt _ IH|rt rt' _ IH Hc|rt rt' _ IH Hc
                  |rt rt' _ IH Hc|rt rt' _ IH Hc|rt ev rt' _ IH Hf].
  - apply not_elem_of_nil.
  - exact IH.
  - exact IH.
  - apply setBreakPoint_store in Hs as (_ & _ & _ & _ & _ & _ & Ht). rewrite Ht.
    intros [Hin|Hin]%elem_of_app; [done|].
    by apply list_elem_of_fmap in Hin as (b & Hb & _).
  - by destruct (shrinks_clearBreakPoint path line rt) as [->|(m & -> & _)].
  - exact IH.
  - simpl. intros [Hin|Hin%list_elem_of_singleton]%elem_of_app; done.
  - destruct (stepping_cases rt rt') as (c & ev & rt0 & Hc0 & -> & Hev); [auto|].
    apply lldb_ccall_timers in Hc0. simpl. rewrite Hc0.
    intros [Hin|Hin%list_elem_of_singleton]%elem_of_app; [done|].
    destruct Hev; congruence.
  - destruct (stepping_cases rt rt') as (c & ev & rt0 & Hc0 & -> & Hev); [auto|].
    apply lldb_ccall_timers in Hc0. simpl. rewrite Hc0.
    intros [Hin|Hin%list_elem_of_singleton]%elem_of_app; [done|].
    destruct Hev; congruence.
  - destruct (stepping_cases rt rt') as (c & ev & rt0 & Hc0 & -> & Hev); [auto|].
    apply lldb_ccall_timers in Hc0. simpl. rewrite Hc0.
    intros [Hin|Hin%list_elem_of_singleton]%elem_of_app; [done|].
    destruct Hev; congruence.
  - destruct (stepping_cases rt rt') as (c & ev & rt0 & Hc0 & -> & Hev); [auto|].
    apply lldb_ccall_timers in Hc0. simpl. rewrite Hc0.
    intros [Hin|Hin%list_elem_of_singleton]%elem_of_app; [done|].
    destruct Hev; congruence.
  - unfold fireTimer in Hf. destruct (timers rt) as [|ev0 rest] eqn:Ht; [done|].
    injection Hf as _ <-. simpl. intros Hin. apply IH. apply elem_of_cons. by right.
Qed.

(** The lines of the records after a completed [setBreakPoint]: the old
    records keep theirs, the new record is on the line that was asked
    for. *)
Lemma setBreakPoint_lineOf path line rt bp rt' :
  setBreakPoint path line rt = Return (bp, rt') →
  lineOf rt' bp = Some line ∧
  ∀ b : loc, (b < length (heap rt))%nat → lineOf rt' b = lineOf rt b.
Proof.
  intros (Hbp & _ & _ & _ & _ & Hh & _)%setBreakPoint_store. cbn zeta in Hh.
  unfold lineOf. rewrite Hh. split.
  - rewrite mark_all_line, Hbp, lookup_app_r, Nat.sub_diag by lia. done.
  - intros b Hb. rewrite mark_all_line, lookup_app_l by done. done.
Qed.

Lemma onLine_lineOf rt line bp :
  onLine rt line bp = true ↔ lineOf rt bp = Some line.
Proof.
  unfold onLine, lineOf. destruct (heap rt !! bp) as [r|]; simpl.
  - rewrite Z.eqb_eq. split; [by intros ->|by intros [= ->]].
  - split; done.
Qed.

Lemma setBreakPoint_succeeds path line rt e :
  includes path "code/" = true → lldb rt = Some e →
  ∃ (bp : loc) rt' e', setBreakPoint path line rt = Return (bp, rt') ∧ lldb rt' = Some e'.
Proof.
  intros Hpath He. destruct (runtimeEnginePath_Return path Hpath) as [lldbPath Hlp].
  unfold setBreakPoint, lldb_ccall. rewrite Hlp. cbn [bind]. rewrite He. cbn [bind].
  set (rt0 := set_lldb _ rt).
  pose proof (pushBreakpoint_spec path line rt0) as Hpush.
  destruct (pushBreakpoint path line rt0) as [bp rt1].
  destruct Hpush as (_ & _ & Hmap & _ & Hl & _).
  assert (Hlook : _breakPoints rt1 !! path
                  = Some (default [] (_breakPoints rt0 !! path) ++ [bp])).
  { rewrite Hmap. by rewrite lookup_insert_eq. }
  destruct (verifyBreakpoints_spec path _ rt1 Hlook) as (H1 & _).
  eexists bp, _, _. split; [reflexivity|]. rewrite H1, Hl. reflexivity.
Qed.

(** Every pending notification of a breakpoint names a record that
    exists. *)
Lemma reachable_timers_valid rt :
  reachable rt →
  ∀ bp : loc, breakpointValidated bp ∈ timers rt → (bp < length (heap rt))%nat.
Proof.
  induction 1 as [|rt _ IH|rt e e' _ IH _|path line rt bp rt' Hr IH Hs|path line rt Hr IH
                  |path rt Hr IH|rt _ IH|rt rt' _ IH Hc|rt rt' _ IH Hc
                  |rt rt' _ IH Hc|rt rt' _ IH Hc|rt ev rt' _ IH Hf].
  - intros bp Hin. by apply elem_of_nil in Hin.
  - exact IH.
  - exact IH.
  - pose proof (reachable_store_wf rt Hr) as [Hwf _].
    apply setBreakPoint_store in Hs as (Hbp & _ & _ & _ & _ & Hh & Ht). cbn zeta in *.
    intros b. rewrite Ht, Hh, mark_all_length, length_app. simpl.
    intros [Hin|Hin]%elem_of_app.
    + apply IH in Hin. lia.
    + apply list_elem_of_fmap in Hin as (b0 & [= <-] & Hb0).
      apply elem_of_app in Hb0 as [Hb0|Hb0%list_elem_of_singleton]; [|lia].
      destruct (_breakPoints rt !! path) as [l|] eqn:Hl; simpl in Hb0.
      * apply (Hwf path l Hl) in Hb0. lia.
      * by apply elem_of_nil in Hb0.
  - by destruct (shrinks_clearBreakPoint path line rt) as [->|(m & -> & _)].
  - exact IH.
  - intros b. simpl. intros [Hin|Hin%list_elem_of_singleton]%elem_of_app; [|done].
    by apply IH.
  - destruct (stepping_cases rt rt') as (c & ev & rt0 & Hc0 & -> & Hev); [auto|].
    pose proof (lldb_ccall_timers _ _ _ Hc0) as Ht.
    apply lldb_ccall_same_store in Hc0 as (_ & _ & _ & _ & Hh).
    intros b. simpl. rewrite Ht, Hh.
    intros [Hin|Hin%list_elem_of_singleton]%elem_of_app; [by apply IH|].
    destruct Hev; congruence.
  - destruct (stepping_cases rt rt') as (c & ev & rt0 & Hc0 & -> & Hev); [auto|].
    pose proof (lldb_ccall_timers _ _ _ Hc0) as Ht.
    apply lldb_ccall_same_store in Hc0 as (_ & _ & _ & _ & Hh).
    intros b. simpl. rewrite Ht, Hh.
    intros [Hin|Hin%list_elem_of_singleton]%elem_of_app; [by apply IH|].
    destruct Hev; congruence.
  - destruct (stepping_cases rt rt') as (c & ev & rt0 & Hc0 & -> & Hev); [auto|].
    pose proof (lldb_ccall_timers _ _ _ Hc0) as Ht.
    apply lldb_ccall_same_store in Hc0 as (_ & _ & _ & _ & Hh).
    intros b. simpl. rewrite Ht, Hh.
    intros [Hin|Hin%list_elem_of_singleton]%elem_of_app; [by apply IH|].
    destruct Hev; congruence.
  - destruct (stepping_cases rt rt') as (c & ev & rt0 & Hc0 & -> & Hev); [auto|].
    pose proof (lldb_ccall_timers _ _ _ Hc0) as Ht.
    apply lldb_ccall_same_store in Hc0 as (_ & _ & _ & _ & Hh).
    intros b. simpl. rewrite Ht, Hh.
    intros [Hin|Hin%list_elem_of_singleton]%elem_of_app; [by apply IH|].
    destruct Hev; congruence.
  - unfold fireTimer in Hf. destruct (timers rt) as [|ev0 rest] eqn:Ht; [done|].
    injection Hf as _ <-. simpl. intros b Hin. apply IH. apply elem_of_cons. by right.
Qed.

(** In a list that ends with [x; y], the part after the first element
    that passes a test which [x] passes holds [y]. *)
Lemma after_first_of_two {A} (pred : A → bool) (l1 l2 old : list A) b x y :
  l1 ++ b :: l2 = (old ++ [x]) ++ [y] →
  (∀ z, z ∈ l1 → pred z = false) → pred x = true →
  y ∈ l2.
Proof.
  intros Heq Hl1 Hx.
  assert (Hlen : (length l1 ≤ length old)%nat).
  { destruct (decide (length l1 ≤ length old)%nat) as [|Hgt]; [done|exfalso].
    assert (Hlook : (l1 ++ b :: l2) !! length old = Some x).
    { rewrite Heq. rewrite lookup_app_l by (rewrite length_app; simpl; lia).
      by rewrite list_lookup_middle. }
    rewrite lookup_app_l in Hlook by lia.
    assert (pred x = false) by (apply Hl1; by eapply list_elem_of_lookup_2).
    congruence. }
  assert (Hlook : (l1 ++ b :: l2) !! S (length old) = Some y).
  { rewrite Heq. replace (S (length old)) with (length (old ++ [x]))
      by (rewrite length_app; simpl; lia).
    by rewrite list_lookup_middle. }
  rewrite lookup_app_r in Hlook by lia.
  replace (S (length old) - length l1)%nat with (S (length old - length l1)) in Hlook by lia.
  simpl in Hlook. by eapply list_elem_of_lookup_2.
Qed.

(** The sample states are states of the runtime. *)
Lemma setBreakPoint_ready :
  setBreakPoint Samples2.libPath 5 Samples.ready = Return (0%nat, Samples.afterSet).
Proof. vm_compute. reflexivity. Qed.

Lemma setBreakPoint_afterSet :
  setBreakPoint Samples2.libPath 5 Samples.afterSet = Return (1%nat, Samples2.afterTwoSets).
Proof. vm_compute. reflexivity. Qed.

Lemma clearBreakPoint_afterTwoSets :
  clearBreakPoint Samples2.libPath 5 Samples2.afterTwoSets
  = (Some 0%nat, Samples2.afterClear).
Proof. vm_compute. reflexivity. Qed.

Lemma reachable_afterSet : reachable Samples.afterSet.
Proof.
  exact (reach_setBreakPoint _ _ _ _ _ (reach_initLLDB _ reach_new) setBreakPoint_ready).
Qed.

Lemma reachable_afterTwoSets : reachable Samples2.afterTwoSets.
Proof.
  exact (reach_setBreakPoint _ _ _ _ _ reachable_afterSet setBreakPoint_afterSet).
Qed.

End StoreFacts.

(** ** The session and its runtime: lemmas *)

Section SessionFacts.
Import Runtime Spec Spec2 Session.

(** What a stretch of [lldbRun] does besides moving its activation: it
    changes the engine of a loaded runtime at most, and it sends one
    response at most.  An activation that has returned or was left by an
    exception is never resumed. *)
Lemma resume_effect i a s s' :
  resume i a s s' →
  pc a ≠ Returned ∧ (∀ err leaked, pc a ≠ Thrown err leaked) ∧
  (_runtime s' = _runtime s ∨
   ∃ e e', lldb (_runtime s) = Some e ∧ _runtime s' = set_lldb (Some e') (_runtime s)) ∧
  (sent s' = sent s ∨ ∃ r, sent s' = sent s ++ [SentResponse r]).
Proof.
  intros Hr.
  destruct Hr as [s Hpc Hf|s e rxPtr Hpc Hf He Hfresh|s Hpc Hf He
                 |s e rxPtr Hpc He|s e rxPtr Hpc He
                 |s e rxPtr txPtr responseStr Hpc He Hfresh|s rxPtr err Hpc
                 |s e rxPtr txPtr responseStr responseJSON adjusted Hpc He Hrw
                 |s rxPtr txPtr responseStr msg Hpc
                 |s rxPtr txPtr responseStr responseJSON err Hpc Hrw
                 |s e txPtr Hpc He|s Hpc];
    (split; [by rewrite Hpc|]); (split; [intros ??; by rewrite Hpc|]);
    cbn [_runtime sent goto set_engine set_runtime set_flag set_activations send];
    (split; [first [by left|right; by eexists _, _]|first [by left|right; by eexists]]).
Qed.

(** What a turn of the event loop does to the runtime and to the
    messages sent. *)
Lemma step_effect s s' :
  step s s' →
  ((_runtime s' = _runtime s ∨
    ∃ e e', lldb (_runtime s) = Some e ∧ _runtime s' = set_lldb (Some e') (_runtime s)) ∧
   (sent s' = sent s ∨ ∃ r, sent s' = sent s ++ [SentResponse r]))
  ∨ (runtime_op (_runtime s) (_runtime s') ∧ sent s' = sent s)
  ∨ (∃ ev, fireTimer (_runtime s) = Some (ev, _runtime s') ∧
       sent s' = match listener (_runtime s') ev with
                 | Some e => sent s ++ [SentEvent e]
                 | None => sent s
                 end).
Proof.
  intros Hstep.
  destruct Hstep as [action s s' Hp|i a s s' Hi Hr|s rt' Hop|s ev rt' Hf].
  - left. destruct Hp as [r s|f t s s' Hrun].
    + split; [by left|]. right. by eexists.
    + by apply resume_effect in Hrun as (_ & _ & H1 & H2).
  - left. by apply resume_effect in Hr as (_ & _ & H1 & H2).
  - right. left. done.
  - right. right. exists ev.
    destruct (listener rt' ev) as [e|] eqn:Hl;
      cbn [_runtime sent send set_runtime]; by rewrite Hl.
Qed.

Lemma runtime_op_reachable rt rt' : runtime_op rt rt' → reachable rt → reachable rt'.
Proof.
  intros [rt0 Hnone|rt0|rt0 rt1 H|rt0 rt1 H|rt0 rt1 H|rt0 rt1 H] Hr.
  - by apply reach_initLLDB.
  - by apply reach_start.
  - by eapply reach_continue.
  - by eapply reach_next.
  - by eapply reach_stepIn.
  - by eapply reach_stepOut.
Qed.

(** The runtime of a session stays among the states of the runtime. *)
Lemma session_reachable_runtime s0 s :
  reachable_from s0 s → reachable (_runtime s0) → reachable (_runtime s).
Proof.
  intros Hreach H0. induction Hreach as [|s s' _ IH Hstep]; [done|].
  apply step_effect in Hstep as [[[->|(e & e' & He & ->)] _]|[[Hop _]|(ev & Hf & _)]].
  - done.
  - by eapply reach_engine.
  - by eapply runtime_op_reachable.
  - by eapply reach_fireTimer.
Qed.

Lemma runtime_op_untouched rt rt' : runtime_op rt rt' → untouched rt → untouched rt'.
Proof.
  intros Hop (Hh & Hm & Hid & Ht).
  assert (Hstep : ∀ c ev rt0, lldb_ccall c rt = Return rt0 → isStop ev →
            untouched (sendEvent ev rt0)).
  { intros c ev rt0 Hc Hev. pose proof (lldb_ccall_timers _ _ _ Hc) as Htm.
    apply lldb_ccall_same_store in Hc as (_ & _ & Hm0 & Hid0 & Hh0).
    split; [by rewrite <- Hh|]. split; [by rewrite <- Hm|]. split; [by rewrite <- Hid|].
    intros ev0. cbn [timers sendEvent set_timers]. rewrite Htm.
    intros [Hin| ->%list_elem_of_singleton]%elem_of_app; [by apply Ht|done]. }
  destruct Hop as [rt0 Hnone|rt0|rt0 rt1 H|rt0 rt1 H|rt0 rt1 H|rt0 rt1 H].
  - done.
  - split; [done|]. split; [done|]. split; [done|].
    intros ev0. cbn [timers start sendEvent set_timers].
    intros [Hin| ->%list_elem_of_singleton]%elem_of_app; [by apply Ht|]. by left.
  - unfold continue in H. destruct (lldb_ccall _ rt0) as [rt2|] eqn:E; [|done].
    injection H as <-. eapply Hstep; [done|]. right. by right.
  - unfold next in H. destruct (lldb_ccall _ rt0) as [rt2|] eqn:E; [|done].
    injection H as <-. eapply Hstep; [done|]. right. by left.
  - unfold stepIn in H. destruct (lldb_ccall _ rt0) as [rt2|] eqn:E; [|done].
    injection H as <-. eapply Hstep; [done|]. right. by left.
  - unfold stepOut in H. destruct (lldb_ccall _ rt0) as [rt2|] eqn:E; [|done].
    injection H as <-. eapply Hstep; [done|]. right. by left.
Qed.

Lemma listener_isStop rt ev e :
  isStop ev → listener rt ev = Some e → isStopped (SentEvent e).
Proof.
  intros [->|[->| ->]] [= <-]; (split; [done|]); auto.
Qed.

(** The session never uses the breakpoint store of its runtime: the
    only notifications it forwards are the ones of [start] and of the
    stepping operations. *)
Lemma step_untouched s s' :
  step s s' →
  untouched (_runtime s) ∧ Forall isStopped (sent s) →
  untouched (_runtime s') ∧ Forall isStopped (sent s').
Proof.
  intros Hstep [Hun Hsent].
  apply step_effect in Hstep
    as [[Hrt Hs]|[[Hop Hs]|(ev & Hf & Hs)]].
  - split.
    + destruct Hrt as [->|(e & e' & He & ->)]; done.
    + destruct Hs as [->|[r ->]]; [done|]. apply Forall_app. split; [done|].
      by apply Forall_singleton.
  - split; [by eapply runtime_op_untouched|by rewrite Hs].
  - destruct Hun as (Hh & Hm & Hid & Ht).
    unfold fireTimer in Hf. destruct (timers (_runtime s)) as [|ev0 rest] eqn:Htm; [done|].
    injection Hf as -> Hrt'.
    assert (Hev : isStop ev) by (apply Ht, elem_of_cons; by left).
    split.
    + rewrite <- Hrt'. split; [done|]. split; [done|]. split; [done|].
      intros ev1 Hin. apply Ht, elem_of_cons. by right.
    + rewrite Hs. destruct (listener (_runtime s') ev) as [e|] eqn:Hl; [|done].
      apply Forall_app. split; [done|]. apply Forall_singleton.
      by eapply listener_isStop.
Qed.

Lemma session_untouched s :
  reachable_from Session.new s →
  untouched (_runtime s) ∧ Forall isStopped (sent s).
Proof.
  induction 1 as [|s s' _ IH Hstep].
  - split; [|constructor]. split; [done|]. split; [done|]. split; [done|].
    intros ev Hin. by apply elem_of_nil in Hin.
  - by eapply step_untouched.
Qed.

(** A call of [lldbRun] that was left by an exception stays as it is. *)
Lemma step_keeps_Thrown s s' i a err leaked :
  step s s' → activations s !! i = Some a → pc a = Thrown err leaked →
  activations s' !! i = Some a.
Proof.
  intros Hstep Hi Hpc.
  assert (Hres : ∀ k c l, l !! k = Some c → l !! i = Some a →
            resume k c (set_activations l s) s' → activations s' !! i = Some a).
  { intros k c l Hk Hl Hr.
    pose proof (resume_effect _ _ _ _ Hr) as (_ & Hnt & _).
    destruct (resume_cases _ _ _ _ Hr) as [(-> & _)|(p' & Hacts & _)]; [done|].
    cbn [activations set_activations] in Hacts. rewrite Hacts.
    destruct (decide (k = i)) as [->|Hne].
    - assert (c = a) as -> by congruence. by destruct (Hnt err leaked).
    - by rewrite list_lookup_alter_ne. }
  apply step_cases in Hstep as [(_ & Ha & _)|[(k & c & Hk & Hr)|(c & _ & Hr)]].
  - by rewrite Ha.
  - apply (Hres k c (activations s)); [done|done|]. by destruct s.
  - apply (Hres (length (activations s)) c (activations s ++ [c])); [| |done].
    + by apply list_lookup_middle.
    + by apply lookup_app_l_Some.
Qed.

Lemma reachable_from_bridge_inv s s' :
  bridge_inv s → reachable_from s s' → bridge_inv s'.
Proof.
  intros Hinv. induction 1 as [|s' s'' _ IH Hstep]; [done|]. by eapply step_bridge_inv.
Qed.

Lemma reachable_from_keeps_Thrown s s' i a err leaked :
  reachable_from s s' → activations s !! i = Some a → pc a = Thrown err leaked →
  activations s' !! i = Some a.
Proof.
  intros Hreach Hi Hpc. induction Hreach as [|s' s'' _ IH Hstep]; [done|].
  by eapply step_keeps_Thrown.
Qed.

Lemma reachable_from_trans s0 s s' :
  reachable_from s0 s → reachable_from s s' → reachable_from s0 s'.
Proof.
  intros H0. induction 1 as [|s' s'' _ IH Hstep]; [done|]. by eapply reachable_step.
Qed.

Lemma slice_nil start end_ : Buffer.slice [] start end_ = [].
Proof. unfold Buffer.slice. by rewrite drop_nil, take_nil. Qed.

End SessionFacts.

(** ** One call of [lldbRun] from its start to its end: lemmas *)

Section RoundFacts.
Import Runtime Spec Spec2 Session.

Lemma alter_last (a : Activation) p p' (l : list Activation) :
  alter (set_pc p') (length l) (l ++ [set_pc p a]) = l ++ [set_pc p' a].
Proof.
  replace (length l) with (length l + 0)%nat by lia. by rewrite alter_app_r.
Qed.

Lemma goto_engine_during s a p p' flag e e' msgs :
  goto (length (activations s)) p' (set_engine e' (during s a p flag e msgs))
  = during s a p' flag e' msgs.
Proof.
  unfold goto, during, set_activations, set_engine, set_runtime.
  cbn [activations _isRunningLldb _runtime sent]. by rewrite alter_last.
Qed.

Lemma goto_send_during s a p p' flag e e' msgs m :
  goto (length (activations s)) p' (set_engine e' (send m (during s a p flag e msgs)))
  = during s a p' flag e' (msgs ++ [m]).
Proof.
  unfold goto, during, set_activations, set_engine, set_runtime, send.
  cbn [activations _isRunningLldb _runtime sent]. by rewrite alter_last, app_assoc.
Qed.

Lemma goto_flag_during s a p p' flag flag' e msgs :
  goto (length (activations s)) p' (set_flag flag' (during s a p flag e msgs))
  = during s a p' flag' e msgs.
Proof.
  unfold goto, during, set_activations, set_flag.
  cbn [activations _isRunningLldb _runtime sent]. by rewrite alter_last.
Qed.

Lemma during_step s a p flag e msgs s' :
  resume (length (activations s)) (set_pc p a) (during s a p flag e msgs) s' →
  step (during s a p flag e msgs) s'.
Proof.
  intros Hr. eapply step_resume; [|exact Hr].
  cbn [activations during]. by apply list_lookup_middle.
Qed.

Lemma enter_during s a e rxPtr :
  pc a = Polling →
  goto (length (activations s)) (AwaitMalloc rxPtr)
    (set_engine (set_buffers (<[rxPtr := EmptyString]> (buffers e)) e)
       (set_flag true (set_activations (activations s ++ [a]) s)))
  = during s a (AwaitMalloc rxPtr) true
      (set_buffers (<[rxPtr := EmptyString]> (buffers e)) e) [].
Proof.
  intros Hpc. unfold goto, during, set_activations, set_engine, set_runtime, set_flag.
  cbn [activations _isRunningLldb _runtime sent]. rewrite app_nil_r. f_equal.
  replace a with (set_pc Polling a) at 1 by (destruct a; simpl in Hpc; by subst).
  apply alter_last.
Qed.

End RoundFacts.

(** ** Path translation of project files and of the vendored runtime:
    lemmas *)

Section PathFacts2.
Import JS Path StackTraceRewrite.

Lemma includes_startsWith s t : includes s t = false → startsWith s t = false.
Proof. destruct s; simpl; by intros [H _]%orb_false_iff. Qed.

Lemma includes_prefix s t u : includes s (t +:+ u) = true → includes s t = true.
Proof.
  intros (p & r & ->)%includes_spec. apply includes_spec. exists p, (u +:+ r).
  by rewrite app_assoc_s.
Qed.

Lemma includes_suffix s t u : includes s (t +:+ u) = true → includes s u = true.
Proof.
  intros (p & r & ->)%includes_spec. apply includes_spec. exists (p +:+ t), r.
  by rewrite !app_assoc_s.
Qed.

Lemma startsWith_includes s t : startsWith s t = true → includes s t = true.
Proof. destruct s; simpl; intros ->; done. Qed.

Lemma not_true_false (b : bool) : (b = true → False) → b = false.
Proof. destruct b; [intros H; by destruct H|done]. Qed.

Lemma toEnginePath_project rem :
  includes rem "code/" = false →
  includes rem "sdk" = false →
  includes rem "rust-solana" = false →
  toEnginePath (Some (projectPath +:+ rem)) = "home/" +:+ rem.
Proof.
  intros Hcode Hsdk Hrust.
  pose proof (split_1_once "code" "/" "/home/wj/temp/test_theia/debug-test/" rem
                eq_refl Hcode) as H1.
  change (split (projectPath +:+ rem) "code/" !! 1%nat = Some rem) in H1.
  unfold toEnginePath. cbn [mbind option_bind]. rewrite H1. cbn [optional].
  by rewrite Hsdk, Hrust.
Qed.

Lemma toEditorPath_project rem :
  includes rem "home/" = false →
  toEditorPath (Some ("home/" +:+ rem)) = projectPath +:+ rem.
Proof.
  intros Hhome.
  assert (H1 : includes ("home/" +:+ rem) "home/home/" = false).
  { change (startsWith rem "home/" || includes rem "home/home/" = false).
    rewrite (includes_startsWith _ _ Hhome). apply not_true_false.
    intros H%(includes_prefix rem "home/" "home/"). congruence. }
  assert (H2 : includes ("home/" +:+ rem) "/home/runner" = false).
  { change (startsWith rem "home/runner" || includes rem "/home/runner" = false).
    apply not_true_false. intros [H|H]%orb_true_iff.
    - apply startsWith_includes, (includes_prefix rem "home/" "runner") in H. congruence.
    - apply (includes_suffix rem "/" "home/runner"),
        (includes_prefix rem "home/" "runner") in H. congruence. }
  pose proof (split_1_once "home" "/" EmptyString rem eq_refl Hhome) as H3.
  change (split ("home/" +:+ rem) "home/" !! 1%nat = Some rem) in H3.
  unfold toEditorPath. cbn [optional mbind option_bind]. by rewrite H1, H2, H3.
Qed.

Lemma toEnginePath_rust rem :
  includes rem "code/" = false →
  includes rem "sdk" = false →
  includes rem "rust-solana-1.59.0/" = false →
  toEnginePath (Some (rustCorePath +:+ rem))
  = "/home/runner/work/bpf-tools/bpf-tools/out/rust/" +:+ rem.
Proof.
  intros Hcode Hsdk Hrust.
  assert (Hcode' : includes ("rust-solana-1.59.0/" +:+ rem) "code/" = false) by exact Hcode.
  pose proof (split_1_once "code" "/" "/home/wj/temp/test_theia/debug-test/"
                ("rust-solana-1.59.0/" +:+ rem) eq_refl Hcode') as H1.
  change (split (rustCorePath +:+ rem) "code/" !! 1%nat
          = Some ("rust-solana-1.59.0/" +:+ rem)) in H1.
  pose proof (split_1_once "rust-solana-1.59.0" "/" EmptyString rem eq_refl Hrust) as H2.
  change (split ("rust-solana-1.59.0/" +:+ rem) "rust-solana-1.59.0/" !! 1%nat
          = Some rem) in H2.
  unfold toEnginePath. cbn [mbind option_bind]. rewrite H1. cbn [optional mbind option_bind].
  change (includes ("rust-solana-1.59.0/" +:+ rem) "sdk") with (includes rem "sdk").
  rewrite Hsdk.
  change (includes ("rust-solana-1.59.0/" +:+ rem) "rust-solana") with true.
  cbn match. by rewrite H2.
Qed.

Lemma toEditorPath_rust rem :
  includes rem "home/home/" = false →
  includes rem "out/rust/" = false →
  toEditorPath (Some ("/home/runner/work/bpf-tools/bpf-tools/out/rust/" +:+ rem))
  = rustCorePath +:+ rem.
Proof.
  intros Hhome Hout.
  pose proof (split_1_once "out/rust" "/" "/home/runner/work/bpf-tools/bpf-tools/" rem
                eq_refl Hout) as H1.
  change (split ("/home/runner/work/bpf-tools/bpf-tools/out/rust/" +:+ rem) "out/rust/"
            !! 1%nat = Some rem) in H1.
  unfold toEditorPath. cbn [optional mbind option_bind].
  change (includes ("/home/runner/work/bpf-tools/bpf-tools/out/rust/" +:+ rem) "home/home/")
    with (includes rem "home/home/").
  rewrite Hhome.
  change (includes ("/home/runner/work/bpf-tools/bpf-tools/out/rust/" +:+ rem)
            "/home/runner") with true.
  cbn match. by rewrite H1.
Qed.

(** ** Rewriting a stack-trace response: further lemmas *)

Lemma rewriteFrame_Return f f' :
  rewriteFrame f = Return f' →
  ∃ s, frame_source f = Some s ∧
    f' = set_frame_source
           (match src_sourceReference s with
            | Some _ => set_src_name (Some (frame_name f)) s
            | None => set_src_path (Some (toEditorPath (src_path s))) s
            end) f.
Proof.
  unfold rewriteFrame. destruct (frame_source f) as [s|]; [|done].
  intros Hrw. exists s. split; [done|].
  destruct (src_sourceReference s); by injection Hrw as <-.
Qed.

Lemma rewriteLoop_sources n id frames frames' :
  rewriteLoop n id frames = Return frames' →
  ∀ i, (id ≤ i < id + n)%nat → ∃ f s, frames !! i = Some f ∧ frame_source f = Some s.
Proof.
  revert id frames. induction n as [|n IH]; intros id frames Hrun i Hi; [lia|].
  simpl in Hrun. destruct (frames !! id) as [g|] eqn:Hg; [|done].
  destruct (rewriteFrame g) as [g'|e] eqn:Hrw; [|done]. simpl in Hrun.
  destruct (decide (i = id)) as [->|Hne].
  - apply rewriteFrame_Return in Hrw as (s & Hs & _). by exists g, s.
  - destruct (IH (S id) _ Hrun i ltac:(lia)) as (f & s & Hf & Hs).
    rewrite list_lookup_insert_ne in Hf by lia. by exists f, s.
Qed.

Lemma rewriteLoop_length n id frames frames' :
  rewriteLoop n id frames = Return frames' → length frames' = length frames.
Proof.
  revert id frames. induction n as [|n IH]; intros id frames Hrun.
  - simpl in Hrun. by injection Hrun as <-.
  - simpl in Hrun. destruct (frames !! id) as [g|] eqn:Hg; [|done].
    destruct (rewriteFrame g) as [g'|e] eqn:Hrw; [|done]. simpl in Hrun.
    apply IH in Hrun. by rewrite length_insert in Hrun.
Qed.

End PathFacts2.

(** * The claims *)

(** ** Path translation (C1, C4, C9) *)

Section PathClaims.
Import JS Path StackTraceRewrite.

(** C1, as amended: for every editor path [pre + "code/" + mid +
    "sdk/program/" + rem] in which these are the only occurrences of
    "code/" and of "sdk/program/", and whose remainder [rem] does not
    contain "home/home/", the forward translation of [setBreakPointsRequest]
    followed by the reverse translation of [lldbRun] yields the SDK prefix
    followed by [rem]. *)
Theorem roundtrip_sdk pre mid rem :
  includes (pre +:+ "code") "code/" = false →
  includes (mid +:+ "sdk/program/" +:+ rem) "code/" = false →
  includes (mid +:+ "sdk/program") "sdk/program/" = false →
  includes rem "sdk/program/" = false →
  includes rem "home/home/" = false →
  toEditorPath (Some (toEnginePath
    (Some (pre +:+ "code/" +:+ mid +:+ "sdk/program/" +:+ rem))))
  = solSdkPath +:+ rem.
Proof.
  intros Hpre Hroot Hmid Hrem Hhome.
  rewrite toEnginePath_sdk by done.
  apply (toEditorPath_sdk EmptyString rem); [reflexivity|done].
Qed.

Lemma roundtrip_sdk_witness :
  toEditorPath (Some (toEnginePath
    (Some "/home/wj/temp/test_theia/debug-test/code/sdk/program/src/entrypoint.rs")))
  = "/home/wj/temp/test_theia/debug-test/code/sdk/program/src/entrypoint.rs".
Proof.
  exact (roundtrip_sdk "/home/wj/temp/test_theia/debug-test/" EmptyString
           "src/entrypoint.rs" eq_refl eq_refl eq_refl eq_refl eq_refl).
Defined.

(** C1 as stated fails.  A path under "code/" that contains "sdk" but not
    "sdk/program/" comes back as the SDK prefix followed by the text
    "undefined", which occurs nowhere in the path; and an SDK path whose
    remainder contains "home/home/" comes back as the bare SDK prefix. *)
Lemma roundtrip_sdk_counterexample :
  (split "/w/code/sdk/src/lib.rs" "code/" !! 1%nat = Some "sdk/src/lib.rs"
   ∧ includes "sdk/src/lib.rs" "sdk" = true
   ∧ toEnginePath (Some "/w/code/sdk/src/lib.rs") = "home/home/undefined"
   ∧ toEditorPath (Some (toEnginePath (Some "/w/code/sdk/src/lib.rs")))
     = solSdkPath +:+ "undefined"
   ∧ includes "/w/code/sdk/src/lib.rs" "undefined" = false)
  ∧
  (split "/w/code/sdk/program/home/home/x.rs" "code/" !! 1%nat
   = Some "sdk/program/home/home/x.rs"
   ∧ includes "sdk/program/home/home/x.rs" "sdk" = true
   ∧ toEditorPath (Some (toEnginePath (Some "/w/code/sdk/program/home/home/x.rs")))
     = solSdkPath
   ∧ solSdkPath ≠ solSdkPath +:+ "home/home/x.rs").
Proof. repeat split; try reflexivity. discriminate. Qed.

(** C4, as amended: in a stack-trace response whose rewriting completes,
    every frame that the loop goes through (index below [totalFrames],
    taken as 0 when absent), that carries no source reference and whose
    source path is [pre + "home/home/" + rest] with no other occurrence of
    "home/home/", gets the path SDK prefix + [rest]; the other fields of
    the frame are kept. *)
Theorem stackTrace_sdk_path b b' (i : nat) f s pre rest :
  rewriteBody b = Return b' →
  Z.of_nat i < default 0 (totalFrames b) →
  stackFrames b !! i = Some f →
  frame_source f = Some s →
  src_sourceReference s = None →
  src_path s = Some (pre +:+ "home/home/" +:+ rest) →
  includes (pre +:+ "home/home") "home/home/" = false →
  includes rest "home/home/" = false →
  stackFrames b' !! i
  = Some (set_frame_source (set_src_path (Some (solSdkPath +:+ rest)) s) f).
Proof.
  intros Hrun Hi Hf Hs Href Hp Hpre Hrest.
  apply rewriteBody_Return in Hrun.
  pose proof (rewriteLoop_Return _ _ _ _ Hrun i f Hf) as H.
  rewrite bool_decide_eq_true_2 in H by lia.
  destruct H as (f' & Hrw & Hf').
  rewrite (rewriteFrame_with_source f s Hs), Href, Hp in Hrw.
  rewrite toEditorPath_sdk in Hrw by done. congruence.
Qed.

(** The example of the claim: "home/home/sdk/program/src/entrypoint.rs"
    becomes SDK prefix + "sdk/program/src/entrypoint.rs". *)
Lemma stackTrace_sdk_path_witness :
  ∃ b', rewriteBody Samples.sdkTrace = Return b' ∧
    stackFrames b' !! 0%nat
    = Some (Samples.frame 0 "process_instruction"
              (Samples.fileSource
                 (solSdkPath +:+ "sdk/program/src/entrypoint.rs"))).
Proof.
  eexists. split; [reflexivity|].
  exact (stackTrace_sdk_path Samples.sdkTrace _ 0
           (Samples.frame 0 "process_instruction"
              (Samples.fileSource "home/home/sdk/program/src/entrypoint.rs"))
           (Samples.fileSource "home/home/sdk/program/src/entrypoint.rs")
           EmptyString "sdk/program/src/entrypoint.rs"
           eq_refl eq_refl eq_refl eq_refl eq_refl eq_refl eq_refl eq_refl).
Defined.

(** C4 as stated fails.  When "home/home/" occurs twice, the new path holds
    only the text between the two occurrences, not the text after the
    marker; and when the response leaves [totalFrames] out, no frame is
    rewritten at all. *)
Lemma stackTrace_sdk_path_counterexample :
  (rewriteBody Samples.twiceTrace
   = Return {| stackFrames :=
                 [Samples.frame 0 "main" (Samples.fileSource (solSdkPath +:+ "sdk/"))];
               totalFrames := Some 1 |}
   ∧ "home/home/sdk/home/home/x.rs" = EmptyString +:+ "home/home/" +:+ "sdk/home/home/x.rs"
   ∧ solSdkPath +:+ "sdk/" ≠ solSdkPath +:+ "sdk/home/home/x.rs")
  ∧
  (includes "home/home/sdk/program/src/entrypoint.rs" "home/home/" = true
   ∧ rewriteBody Samples.uncountedTrace = Return Samples.uncountedTrace).
Proof. repeat split; try reflexivity. discriminate. Qed.

(** C9, as amended: in a stack-trace response whose rewriting completes,
    a frame that the loop goes through (index below [totalFrames], taken
    as 0 when absent) and whose source carries a source reference is not
    translated: its source path is left unchanged, the display name of its
    source is set to the name of the frame, and nothing else of the frame
    changes. *)
Theorem stackTrace_sourceReference b b' (i : nat) f s ref :
  rewriteBody b = Return b' →
  Z.of_nat i < default 0 (totalFrames b) →
  stackFrames b !! i = Some f →
  frame_source f = Some s →
  src_sourceReference s = Some ref →
  ∃ f' s',
    stackFrames b' !! i = Some f' ∧ frame_source f' = Some s' ∧
    src_path s' = src_path s ∧
    src_name s' = Some (frame_name f) ∧
    f' = set_frame_source (set_src_name (Some (frame_name f)) s) f.
Proof.
  intros Hrun Hlt Hf Hs Href.
  apply rewriteBody_Return in Hrun.
  pose proof (rewriteLoop_Return _ _ _ _ Hrun i f Hf) as H.
  rewrite bool_decide_eq_true_2 in H by lia.
  destruct H as (f' & Hrw & Hf').
  rewrite (rewriteFrame_with_source f s Hs), Href in Hrw.
  injection Hrw as <-.
  eexists _, _. split; [done|]. split; [done|]. split; [done|]. split; done.
Qed.

Lemma stackTrace_sourceReference_witness :
  ∃ b' f' s',
    rewriteBody Samples.inlineTrace = Return b' ∧
    stackFrames b' !! 0%nat = Some f' ∧ frame_source f' = Some s' ∧
    src_path s' = Some "home/home/a.rs" ∧ src_name s' = Some "main".
Proof.
  destruct (stackTrace_sourceReference Samples.inlineTrace _ 0
              (Samples.frame 0 "main" (Samples.inlineSource "home/home/a.rs" 1000))
              (Samples.inlineSource "home/home/a.rs" 1000) 1000
              eq_refl eq_refl eq_refl eq_refl eq_refl)
    as (f' & s' & Hf' & Hs' & Hp & Hn & _).
  eexists _, f', s'. split; [reflexivity|]. split; [exact Hf'|].
  split; [exact Hs'|]. split; [exact Hp|exact Hn].
Defined.

(** C9 as stated fails for the naming part: when the response leaves
    [totalFrames] out, the loop goes through no frame and the source keeps
    its own name. *)
Lemma stackTrace_sourceReference_counterexample :
  rewriteBody Samples.inlineUncountedTrace = Return Samples.inlineUncountedTrace
  ∧ ∃ f s, stackFrames Samples.inlineUncountedTrace !! 0%nat = Some f
      ∧ frame_source f = Some s
      ∧ src_sourceReference s = Some 1000
      ∧ src_name s = Some "entrypoint.rs"
      ∧ src_name s ≠ Some (frame_name f).
Proof.
  split; [reflexivity|].
  eexists _, _. repeat split; try reflexivity. discriminate.
Qed.

End PathClaims.

(** ** The breakpoint store (C3, C5, C7, C8) *)

Section RuntimeClaims.
Import JS Path Runtime Spec.

(** C3, the two places that apply the forward rule, on an editor path
    [pre + "code/" + mid + "sdk/program/" + rem] in which these are the
    only occurrences of "code/" and of "sdk/program/":
    [setBreakPointsRequest] produces "home/home/" + [rem], as the claim
    says; [setBreakPoint] concatenates the whole result of [split] and
    produces "home/home/" + [mid] + "," + [rem]. *)
Theorem forward_rule_sdk pre mid rem :
  includes (pre +:+ "code") "code/" = false →
  includes (mid +:+ "sdk/program/" +:+ rem) "code/" = false →
  includes (mid +:+ "sdk/program") "sdk/program/" = false →
  includes rem "sdk/program/" = false →
  let path := pre +:+ "code/" +:+ mid +:+ "sdk/program/" +:+ rem in
  toEnginePath (Some path) = "home/home/" +:+ rem ∧
  runtimeEnginePath path = Return ("home/home/" +:+ mid +:+ "," +:+ rem) ∧
  ∀ line e rt, lldb rt = Some e →
    ∃ bp rt' e',
      setBreakPoint path line rt = Return (bp, rt') ∧
      lldb rt' = Some e' ∧
      calls e' = calls e ++ [set_breakpoint ("home/home/" +:+ mid +:+ "," +:+ rem) line].
Proof.
  intros Hpre Hroot Hmid Hrem path.
  split; [by apply toEnginePath_sdk|].
  split; [by apply runtimeEnginePath_sdk|].
  intros line e rt He. unfold setBreakPoint, lldb_ccall.
  unfold path. rewrite runtimeEnginePath_sdk by done. cbn [bind]. rewrite He. cbn [bind].
  set (rt0 := set_lldb _ rt).
  pose proof (pushBreakpoint_spec (pre +:+ "code/" +:+ mid +:+ "sdk/program/" +:+ rem)
                line rt0) as Hpush.
  destruct (pushBreakpoint _ line rt0) as [bp rt1].
  destruct Hpush as (_ & _ & Hmap & _ & Hl & _).
  eexists bp, _, _. split; [reflexivity|].
  assert (Hlook : ∃ bps, _breakPoints rt1 !! (pre +:+ "code/" +:+ mid +:+ "sdk/program/" +:+ rem)
                  = Some bps).
  { rewrite Hmap. rewrite lookup_insert_eq. by eexists. }
  destruct Hlook as [bps Hlook].
  destruct (verifyBreakpoints_spec _ _ rt1 Hlook) as (H1 & _).
  rewrite H1, Hl. split; reflexivity.
Qed.

(** The SDK entry point: the engine is asked for a breakpoint in
    "home/home/,src/entrypoint.rs". *)
Lemma forward_rule_sdk_witness :
  toEnginePath (Some "/home/wj/temp/test_theia/debug-test/code/sdk/program/src/entrypoint.rs")
  = "home/home/src/entrypoint.rs" ∧
  runtimeEnginePath "/home/wj/temp/test_theia/debug-test/code/sdk/program/src/entrypoint.rs"
  = Return "home/home/,src/entrypoint.rs".
Proof.
  destruct (forward_rule_sdk "/home/wj/temp/test_theia/debug-test/" EmptyString
              "src/entrypoint.rs" eq_refl eq_refl eq_refl eq_refl) as (H1 & H2 & _).
  split; [exact H1|exact H2].
Defined.

(** C5, as amended: in every state that the runtime reaches, on a path
    that contains "code/" and with the engine loaded, [setBreakPoint]
    returns a new record whose identifier is above the identifier of every
    record created before; right after [bps.push(bp)] the record is
    unverified and is the last one of the list of its file; when
    [setBreakPoint] completes the record is verified, it is still the last
    one of the list, and the [breakpointValidated] notification for it is
    scheduled, last in the timer queue: [sendEvent] defers the emission
    with [setTimeout(..., 0)].  When that timer fires, the listener of the
    session reports a "changed" breakpoint event with [verified = true]
    and the identifier. *)
Theorem setBreakPoint_new_breakpoint path line rt e :
  includes path "code/" = true →
  lldb rt = Some e →
  reachable rt →
  ∃ (bp : loc) r rt0 rt1 rt' bps,
    setBreakPoint path line rt = Return (bp, rt') ∧
    heap rt !! bp = None ∧
    heap rt' !! bp = Some r ∧
    (∀ (b : loc) r0, heap rt !! b = Some r0 → bp_id r0 < bp_id r) ∧
    pushBreakpoint path line rt0 = (bp, rt1) ∧
    heap rt1 !! bp = Some (set_verified false r) ∧
    _breakPoints rt1 !! path = Some (bps ++ [bp]) ∧
    bps = default [] (_breakPoints rt !! path) ∧
    rt' = verifyBreakpoints path rt1 ∧
    bp_line r = line ∧ bp_verified r = true ∧
    _breakPoints rt' !! path = Some (bps ++ [bp]) ∧
    timers rt' = timers rt ++ (breakpointValidated <$> bps) ++ [breakpointValidated bp] ∧
    Session.listener rt' (breakpointValidated bp)
    = Some (BreakpointEvent "changed" true (bp_id r)).
Proof.
  intros Hpath He Hwf%reachable_ids_below_counter.
  destruct (runtimeEnginePath_Return path Hpath) as [lldbPath Hlp].
  set (rt0 := set_lldb (Some (ccall (set_breakpoint lldbPath line) e)) rt).
  destruct (pushBreakpoint path line rt0) as [bp rt1] eqn:Hpush.
  assert (Hset : setBreakPoint path line rt = Return (bp, verifyBreakpoints path rt1)).
  { unfold setBreakPoint, lldb_ccall. rewrite Hlp. cbn [bind]. rewrite He. cbn [bind].
    fold rt0. by rewrite Hpush. }
  pose proof (pushBreakpoint_spec path line rt0) as Hspec. rewrite Hpush in Hspec.
  destruct Hspec as (Hbp & Hheap1 & Hmap1 & _).
  destruct (setBreakPoint_heap _ _ _ _ _ Hset) as (_ & _ & bps & Hmap & Hbps & Hheap & Htm).
  set (new := {| bp_id := _breakpointId rt; bp_line := line; bp_verified := false |}) in *.
  assert (Hnew : (heap rt ++ [new]) !! bp = Some new).
  { rewrite Hbp. change (heap rt0) with (heap rt).
    rewrite lookup_app_r by lia. by rewrite Nat.sub_diag. }
  assert (Hfinal : heap (verifyBreakpoints path rt1) !! bp = Some (set_verified true new)).
  { rewrite Hheap, mark_all_lookup, Hnew.
    rewrite bool_decide_eq_true_2; [done|]. apply elem_of_app. right.
    apply elem_of_cons. by left. }
  exists bp, (set_verified true new), rt0, rt1, (verifyBreakpoints path rt1), bps.
  split; [done|]. split.
  { rewrite Hbp. apply lookup_ge_None_2. change (heap rt0) with (heap rt). lia. }
  split; [exact Hfinal|]. split; [exact Hwf|]. split; [done|]. split.
  { rewrite Hheap1. exact Hnew. }
  split.
  { rewrite Hmap1, lookup_insert_eq. by rewrite Hbps. }
  split; [done|]. split; [done|]. split; [done|]. split; [done|].
  split; [done|]. split.
  { rewrite Htm, fmap_app. done. }
  unfold Session.listener. by rewrite Hfinal.
Qed.

Lemma setBreakPoint_new_breakpoint_witness :
  ∃ rt', setBreakPoint "/home/wj/temp/test_theia/debug-test/code/src/lib.rs" 5 Samples.ready
         = Return (0%nat, rt') ∧
    heap rt' = [{| bp_id := 1; bp_line := 5; bp_verified := true |}] ∧
    timers rt' = [breakpointValidated 0%nat].
Proof.
  destruct (setBreakPoint_new_breakpoint
              "/home/wj/temp/test_theia/debug-test/code/src/lib.rs" 5 Samples.ready
              _ eq_refl eq_refl (reach_initLLDB _ reach_new))
    as (bp & r & rt0 & rt1 & rt' & bps & _).
  eexists. repeat split; reflexivity.
Defined.

(** C5 as stated fails for the notification: when [setBreakPoint] has
    completed nothing has been emitted yet.  The notification waits in the
    timer queue and the session has sent no event; it is emitted, and the
    session sends the breakpoint event, on a later turn of the event
    loop. *)
Lemma setBreakPoint_new_breakpoint_counterexample :
  setBreakPoint "/home/wj/temp/test_theia/debug-test/code/src/lib.rs" 5 Samples.ready
  = Return (0%nat, Samples.afterSet) ∧
  heap Samples.afterSet = [{| bp_id := 1; bp_line := 5; bp_verified := true |}] ∧
  timers Samples.afterSet = [breakpointValidated 0%nat] ∧
  sent (Session.set_runtime Samples.afterSet Session.new) = [] ∧
  fireTimer Samples.afterSet = Some (breakpointValidated 0%nat, Samples.afterTimer) ∧
  Session.step (Session.set_runtime Samples.afterSet Session.new)
    (Session.send (SentEvent (BreakpointEvent "changed" true 1))
       (Session.set_runtime Samples.afterTimer Session.new)).
Proof.
  split; [reflexivity|]. split; [reflexivity|]. split; [reflexivity|].
  split; [reflexivity|]. split; [reflexivity|].
  exact (Session.step_timer (Session.set_runtime Samples.afterSet Session.new)
           (breakpointValidated 0%nat) Samples.afterTimer eq_refl).
Qed.

(** C7, on the input of the claim: "a.rs" has no "code/" segment, so
    [setBreakPoint("a.rs", 5)] throws before it creates anything, and
    [clearBreakPoint("a.rs", 5)] finds nothing to return.  (On a path that
    holds "code/" the pair works as the claim says, see
    [setBreakPoint_then_clearBreakPoint].) *)
Theorem setBreakPoint_a_rs :
  (∀ rt, setBreakPoint "a.rs" 5 rt
         = Throw (TypeError "Cannot read properties of undefined (reading 'includes')"))
  ∧ clearBreakPoint "a.rs" 5 Samples.ready = (None, Samples.ready).
Proof. split; [intros rt|]; reflexivity. Qed.

(** C8: [getBreakpoints] does not return the offsets of the claim.  The
    loop, run on the code units of a line, gives the offsets at which
    the runs of units other than [' '] (U+0020) start, [2, 6, 11] on the
    line of the claim; but [_sourceLines] is [[]] from the start and no
    operation of the runtime assigns it, so in every state that the
    operations of the runtime produce, for every path and every line,
    [this._sourceLines[line]] is [undefined] and [getBreakpoints] throws
    on [l.length] before the loop is entered: it returns no offsets at
    all. *)
Theorem getBreakpoints_unloaded path line rt :
  reachable rt →
  (∀ l, scanLine l 0 true [] = runStarts l) ∧
  scanLine (units "  mov rax, rbx") 0 true [] = [2; 6; 11] ∧
  _sourceLines rt = [] ∧
  (∀ cols, getBreakpoints path line rt ≠ Return cols) ∧
  getBreakpoints path line rt
  = Throw (TypeError "Cannot read properties of undefined (reading 'length')").
Proof.
  intros [Hsl _]%reachable_no_source.
  assert (Hthrow : getBreakpoints path line rt
            = Throw (TypeError "Cannot read properties of undefined (reading 'length')")).
  { unfold getBreakpoints. rewrite Hsl. by destruct (0 <=? line). }
  split; [intros l; exact (scanLine_runStarts l l 0%nat true [] (λ k, eq_refl) eq_refl)|].
  split; [reflexivity|]. split; [done|]. split; [|done].
  intros cols. by rewrite Hthrow.
Qed.

(** On a runtime that was just created, and on one whose engine is
    loaded and that holds a breakpoint, the line 0 is asked for. *)
Lemma getBreakpoints_unloaded_witness :
  getBreakpoints "/home/wj/temp/test_theia/debug-test/code/src/lib.rs" 0 Runtime.new
  = Throw (TypeError "Cannot read properties of undefined (reading 'length')") ∧
  getBreakpoints "/home/wj/temp/test_theia/debug-test/code/src/lib.rs" 0 Samples.afterSet
  = Throw (TypeError "Cannot read properties of undefined (reading 'length')").
Proof.
  split.
  - exact (proj2 (proj2 (proj2 (proj2
             (getBreakpoints_unloaded "/home/wj/temp/test_theia/debug-test/code/src/lib.rs"
                0 Runtime.new reach_new))))).
  - exact (proj2 (proj2 (proj2 (proj2
             (getBreakpoints_unloaded "/home/wj/temp/test_theia/debug-test/code/src/lib.rs"
                0 Samples.afterSet reachable_afterSet))))).
Defined.

End RuntimeClaims.

(** ** The handlers of the session (C6, C10) *)

Section SessionClaims.
Import JS Path Runtime Spec Session.



(** C10: a variables request with the filter "named" is answered at once
    with a response whose [success] is [false] (its other fields are the
    ones of the response that was handed in); nothing else of the
    session changes: the busy flag, the runtime (with the engine, its
    calls and its buffers) and the calls of [lldbRun] are the ones from
    before, so no call of the bridge is made and no buffer is allocated
    or written. *)
Theorem variablesRequest_named response args request s s' :
  arg_filter args = Some "named" →
  perform (variablesRequest response args request) s s' →
  (∃ r, sent s' = sent s ++ [SentResponse r] ∧
        success r = false ∧
        request_seq r = request_seq response ∧
        command r = command response ∧
        body r = body response) ∧
  s' = send (SentResponse (set_success false response)) s ∧
  _isRunningLldb s' = _isRunningLldb s ∧
  _runtime s' = _runtime s ∧
  activations s' = activations s ∧
  live s' = live s.
Proof.
  intros Hf Hp. unfold variablesRequest in Hp.
  rewrite bool_decide_eq_true_2 in Hp by done.
  inversion Hp; subst. split; [|done].
  exists (set_success false response). done.
Qed.

Lemma variablesRequest_named_witness :
  ∃ s', perform (variablesRequest (Samples.okResponse "variables")
                   {| variablesReference := 3; arg_filter := Some "named" |}
                   "{}") Samples.session s' ∧
    sent s' = [SentResponse {| request_seq := 7; success := false;
                               command := "variables"; body := None |}] ∧
    _isRunningLldb s' = false ∧ activations s' = [] ∧
    _runtime s' = Samples.ready.
Proof.
  eexists. split; [apply perform_respond|].
  destruct (variablesRequest_named (Samples.okResponse "variables")
              {| variablesReference := 3; arg_filter := Some "named" |}
              "{}" Samples.session _ eq_refl (perform_respond _ _))
    as ((r & Hsent & Hsucc & Hseq & Hcmd & Hbody) & _ & H2 & H3 & H4 & _).
  split.
  { rewrite Hsent. destruct r as [seq su cmd bd].
    cbn in Hsucc, Hseq, Hcmd, Hbody. by subst. }
  split; [exact H2|]. split; [exact H4|exact H3].
Defined.

End SessionClaims.

(** ** The engine bridge (C2) *)

Section BridgeClaims.
Import Runtime Spec Session.

(** C2, as amended: in every state [s] that the session reaches from a
    moment at which no call of [lldbRun] is outstanding ([n0] calls were
    made before),
    - at most one call holds the bridge (is between setting and
      resetting [_isRunningLldb], the engine call included);
    - while one call holds the bridge, a call that waits goes on waiting,
      whatever the next turn of the event loop is;
    - every buffer allocated in the engine belongs to the one call that
      holds the bridge, so the buffers of two calls never coexist;
    - when a call is about to write its request buffer, every other call
      is still waiting or has returned;
    - a call that waits, or that is made later, while call [i] holds the
      bridge leaves the waiting loop (and so allocates and writes its
      request buffer, and completes) only after call [i] has returned,
      that is after call [i] has read its response and released its
      buffers;
    - the first call made after the idle moment never waits, and a later
      call leaves the waiting loop only once that first call has
      returned.
    Nothing is said about the order among the calls that wait: the
    bridge is taken by whichever call tests the flag first after it was
    reset. *)
Theorem lldbRun_single_flight s0 s :
  idle s0 →
  reachable_from s0 s →
  let n0 := length (activations s0) in
  (∀ i j a b, activations s !! i = Some a → activations s !! j = Some b →
     holding (pc a) = true → holding (pc b) = true → i = j) ∧
  (∀ i j a b s', activations s !! i = Some a → holding (pc a) = true →
     activations s !! j = Some b → pc b = Polling → step s s' →
     ∃ b', activations s' !! j = Some b' ∧ pc b' = Polling) ∧
  (∀ p, p ∈ live s →
     ∃ i a, activations s !! i = Some a ∧ holding (pc a) = true ∧
            p ∈ owned (pc a)) ∧
  (∀ j b rxPtr i a, activations s !! j = Some b → pc b = AwaitMalloc rxPtr →
     i ≠ j → activations s !! i = Some a → pc a = Polling ∨ pc a = Returned) ∧
  (∀ i a s' j b', activations s !! i = Some a → holding (pc a) = true →
     reachable_from s s' → j ≠ i →
     (∀ b, activations s !! j = Some b → pc b = Polling) →
     activations s' !! j = Some b' → pc b' ≠ Polling →
     ∃ a', activations s' !! i = Some a' ∧ pc a' = Returned) ∧
  (∀ a, activations s !! n0 = Some a → pc a ≠ Polling) ∧
  (∀ j b, (n0 < j)%nat → activations s !! j = Some b → pc b ≠ Polling →
     ∃ a, activations s !! n0 = Some a ∧ pc a = Returned).
Proof.
  intros Hidle Hreach n0.
  destruct (reachable_inv _ _ Hidle Hreach) as [Hinv (_ & _ & H5 & H6)].
  assert (Huniq : ∀ i j a b, activations s !! i = Some a →
            activations s !! j = Some b →
            holding (pc a) = true → holding (pc b) = true → i = j).
  { intros i j a b Hi Hj Ha Hb. unfold bridge_inv in Hinv.
    destruct (_isRunningLldb s).
    - destruct Hinv as (k & c & _ & _ & Hu & _).
      rewrite (Hu i a Hi Ha), (Hu j b Hj Hb). done.
    - destruct Hinv as [Hnone _]. rewrite (Hnone i a Hi) in Ha. done. }
  split; [exact Huniq|]. split.
  { intros i j a b s' Hi Ha Hj Hb Hstep.
    exact (step_keeps_waiting s s' i a j b Hinv Hstep Hi Ha Hj Hb). }
  split.
  { intros p Hp. unfold bridge_inv in Hinv. destruct (_isRunningLldb s).
    - destruct Hinv as (k & c & Hk & Hh & _ & Hl & _).
      exists k, c. split; [done|]. split; [done|]. by apply Hl.
    - destruct Hinv as [_ Hl]. rewrite Hl in Hp. set_solver. }
  split.
  { intros j b rxPtr i a Hj Hb Hne Hi.
    apply holding_false_cases. destruct (holding (pc a)) eqn:Ha; [|done].
    exfalso. apply Hne. eapply Huniq; [done..|]. by rewrite Hb. }
  split.
  { intros i a s' j b' Hi Ha Hs' Hne Hw Hj Hnp.
    exact (served_after_holder s s' i a Hinv Hi Ha Hs' j b' Hne Hw Hj Hnp). }
  split; [exact H5|exact H6].
Qed.

(** Two calls, the second made while the first holds the bridge: the
    first is about to write its request buffer, the second waits. *)
Lemma lldbRun_single_flight_witness :
  (pc <$> activations Samples.twoCalls) = [AwaitMalloc 1024; Polling] ∧
  (pc Samples.call2 = Polling ∨ pc Samples.call2 = Returned).
Proof.
  assert (Hidle : idle Samples.session).
  { split; [reflexivity|]. split; [intros i a Hi; discriminate Hi|].
    apply dom_empty_L. }
  assert (Hone : step Samples.session Samples.oneCall).
  { apply (step_handler (CallLldbRun "request_stackTrace" "{1}")).
    apply perform_call.
    apply (resume_enter 0 Samples.call1
             (set_activations (activations Samples.session ++ [Samples.call1])
                Samples.session) Samples.engine0 1024);
      [reflexivity|reflexivity|reflexivity|apply lookup_empty]. }
  assert (Htwo : step Samples.oneCall Samples.twoCalls).
  { apply (step_handler (CallLldbRun "request_scopes" "{2}")).
    apply perform_call.
    apply (resume_busy 1 Samples.call2 Samples.twoCalls); reflexivity. }
  split; [reflexivity|].
  destruct (lldbRun_single_flight Samples.session Samples.twoCalls Hidle
              (reachable_step _ _ _ (reachable_step _ _ _ (reachable_refl _) Hone)
                 Htwo)) as (_ & _ & _ & Hwrite & _).
  exact (Hwrite 0%nat (set_pc (AwaitMalloc 1024) Samples.call1) 1024 1%nat
           Samples.call2 eq_refl eq_refl ltac:(discriminate) eq_refl).
Defined.

(** C2 as stated fails for the order of completion: calls are not
    served in the order in which they were made.  Three calls are made,
    in this order: a stack-trace request, a scopes request while the
    first holds the bridge, and, right after the first has returned and
    before the timer of the second has fired, a variables request.  The
    third finds the flag reset and takes the bridge at once; when it has
    completed the second is still waiting. *)
Lemma lldbRun_single_flight_counterexample :
  ∃ s, reachable_from Samples.session s ∧
       funcName <$> activations s
       = ["request_stackTrace"; "request_scopes"; "request_variables"] ∧
       pc <$> activations s = [Returned; Polling; Returned] ∧
       _isRunningLldb s = false ∧
       sent s = [SentResponse
                   {| request_seq := 7; success := true; command := "stackTrace";
                      body := Some (StackTrace
                        {| stackFrames :=
                             [Samples.frame 0 "process_instruction"
                                (Samples.fileSource
                                   (Path.solSdkPath +:+ "sdk/program/src/entrypoint.rs"))];
                           totalFrames := Some 1 |}) |};
                 SentResponse
                   {| request_seq := 9; success := true; command := "variables";
                      body := Some (OtherBody "{}") |}].
Proof.
  pose proof (reachable_refl Samples.session) as H.
  (* the first call takes the bridge, the second waits *)
  eapply reachable_step in H.
  2:{ apply (step_handler (CallLldbRun "request_stackTrace" "{1}")), perform_call.
      eapply (resume_enter _ _ _ _ 1024); [reflexivity..|apply lookup_empty]. }
  eapply reachable_step in H.
  2:{ apply (step_handler (CallLldbRun "request_scopes" "{2}")), perform_call.
      eapply resume_busy; reflexivity. }
  (* the first call runs to its end *)
  eapply reachable_step in H.
  2:{ eapply (step_resume 0); [reflexivity|]. eapply resume_write; reflexivity. }
  eapply reachable_step in H.
  2:{ eapply (step_resume 0); [reflexivity|]. eapply resume_ccall; reflexivity. }
  eapply reachable_step in H.
  2:{ eapply (step_resume 0); [reflexivity|].
      eapply (resume_result _ _ _ _ _ 4096 "{}"); [reflexivity|reflexivity|].
      by vm_compute. }
  eapply reachable_step in H.
  2:{ eapply (step_resume 0); [reflexivity|].
      eapply (resume_send _ _ _ _ _ _ _
                {| request_seq := 7; success := true; command := "stackTrace";
                   body := Some (StackTrace Samples.sdkTrace) |});
        reflexivity. }
  eapply reachable_step in H.
  2:{ eapply (step_resume 0); [reflexivity|]. eapply resume_free; reflexivity. }
  eapply reachable_step in H.
  2:{ eapply (step_resume 0); [reflexivity|]. eapply resume_return; reflexivity. }
  (* the third call is made: the flag is reset, it does not wait *)
  eapply reachable_step in H.
  2:{ apply (step_handler (CallLldbRun "request_variables" "{3}")), perform_call.
      eapply (resume_enter _ _ _ _ 2048); [reflexivity..|by vm_compute]. }
  (* the second call tests the flag again and goes on waiting *)
  eapply reachable_step in H.
  2:{ eapply (step_resume 1); [reflexivity|]. eapply resume_busy; reflexivity. }
  (* the third call runs to its end *)
  eapply reachable_step in H.
  2:{ eapply (step_resume 2); [reflexivity|]. eapply resume_write; reflexivity. }
  eapply reachable_step in H.
  2:{ eapply (step_resume 2); [reflexivity|]. eapply resume_ccall; reflexivity. }
  eapply reachable_step in H.
  2:{ eapply (step_resume 2); [reflexivity|].
      eapply (resume_result _ _ _ _ _ 4096 "{}"); [reflexivity|reflexivity|].
      by vm_compute. }
  eapply reachable_step in H.
  2:{ eapply (step_resume 2); [reflexivity|].
      eapply (resume_send _ _ _ _ _ _ _
                {| request_seq := 9; success := true; command := "variables";
                   body := Some (OtherBody "{}") |});
        reflexivity. }
  eapply reachable_step in H.
  2:{ eapply (step_resume 2); [reflexivity|]. eapply resume_free; reflexivity. }
  eapply reachable_step in H.
  2:{ eapply (step_resume 2); [reflexivity|]. eapply resume_return; reflexivity. }
  eexists. split; [exact H|]. repeat split; reflexivity.
Qed.

End BridgeClaims.

(** ** Further properties of the breakpoint store *)

Section StoreProperties.
Import JS Path Runtime Spec Spec2.

(** X1: in every state that the operations of the runtime produce, the
    breakpoint identifiers follow the order of creation: the [k]-th
    record ever created (address [k - 1]) carries the identifier [k],
    the counter [_breakpointId] is one above the number of records
    created, and no two records share an identifier; clearing
    breakpoints never gives an identifier back. *)
Theorem breakpoint_ids_follow_creation rt :
  reachable rt →
  _breakpointId rt = Z.of_nat (length (heap rt)) + 1 ∧
  (∀ (bp : loc) r, heap rt !! bp = Some r → bp_id r = Z.of_nat bp + 1) ∧
  (∀ (bp1 bp2 : loc) r1 r2, heap rt !! bp1 = Some r1 → heap rt !! bp2 = Some r2 →
     bp_id r1 = bp_id r2 → bp1 = bp2).
Proof.
  intros [Hc Hids]%reachable_numbered. split; [done|]. split; [done|].
  intros bp1 bp2 r1 r2 H1 H2 Heq.
  apply Hids in H1, H2. lia.
Qed.

Lemma breakpoint_ids_follow_creation_witness :
  _breakpointId Samples2.afterTwoSets = 3 ∧
  bp_id <$> heap Samples2.afterTwoSets = [1; 2].
Proof.
  destruct (breakpoint_ids_follow_creation Samples2.afterTwoSets reachable_afterTwoSets)
    as (Hc & _).
  split; [|by vm_compute]. rewrite Hc. by vm_compute.
Defined.

(** X2: in every state that the operations of the runtime produce, the
    store is well formed: the list of a file holds a record at most
    once, every record of a list exists, and no record is in the lists of
    two files. *)
Theorem breakpoint_lists_well_formed rt :
  reachable rt →
  (∀ path bps, _breakPoints rt !! path = Some bps →
     NoDup bps ∧ ∀ bp : loc, bp ∈ bps → is_Some (heap rt !! bp)) ∧
  (∀ path1 path2 bps1 bps2 (bp : loc),
     _breakPoints rt !! path1 = Some bps1 → _breakPoints rt !! path2 = Some bps2 →
     bp ∈ bps1 → bp ∈ bps2 → path1 = path2).
Proof.
  intros [Hwf Hdisj]%reachable_store_wf. split; [|exact Hdisj].
  intros path bps Hp. destruct (Hwf path bps Hp) as [Hnd Hlt]. split; [done|].
  intros bp Hb. apply lookup_lt_is_Some. by apply Hlt.
Qed.

Lemma breakpoint_lists_well_formed_witness :
  _breakPoints Samples2.afterTwoSets !! Samples2.libPath = Some [0%nat; 1%nat] ∧
  NoDup [0%nat; 1%nat].
Proof.
  destruct (breakpoint_lists_well_formed Samples2.afterTwoSets reachable_afterTwoSets)
    as (Hwf & _).
  assert (Hlist : _breakPoints Samples2.afterTwoSets !! Samples2.libPath
                  = Some [0%nat; 1%nat]) by (by vm_compute).
  split; [exact Hlist|].
  exact (proj1 (Hwf Samples2.libPath [0%nat; 1%nat] Hlist)).
Defined.

(** X3: a record is unverified only inside [setBreakPoint]: in every
    state that the operations of the runtime produce every record is
    verified, and when the timer of a [breakpointValidated] notification
    fires, the listener of the session reports a "changed" breakpoint
    event with [verified = true] and the identifier of the record. *)
Theorem breakpoint_events_verified rt :
  reachable rt →
  (∀ (b : loc) r, heap rt !! b = Some r → bp_verified r = true) ∧
  (∀ (bp : loc) rt', fireTimer rt = Some (breakpointValidated bp, rt') →
     Session.listener rt' (breakpointValidated bp)
     = Some (BreakpointEvent "changed" true (Z.of_nat bp + 1))).
Proof.
  intros Hr. split; [by apply reachable_verified|]. intros bp rt' Hf.
  pose proof (reachable_timers_valid rt Hr bp) as Hlt.
  unfold fireTimer in Hf. destruct (timers rt) as [|ev rest] eqn:Ht; [done|].
  injection Hf as -> <-.
  specialize (Hlt ltac:(apply elem_of_cons; by left)).
  apply lookup_lt_is_Some in Hlt as [r Hb].
  unfold Session.listener. cbn [heap set_timers]. rewrite Hb. cbn.
  rewrite (reachable_verified rt Hr bp r Hb).
  destruct (reachable_numbered rt Hr) as [_ Hids]. by rewrite (Hids bp r Hb).
Qed.

Lemma breakpoint_events_verified_witness :
  (∀ (b : loc) r, heap Samples2.afterTwoSets !! b = Some r → bp_verified r = true) ∧
  Session.listener Samples.afterTimer (breakpointValidated 0%nat)
  = Some (BreakpointEvent "changed" true 1).
Proof.
  assert (Hfire : fireTimer Samples.afterSet
                  = Some (breakpointValidated 0%nat, Samples.afterTimer))
    by (by vm_compute).
  split.
  - exact (proj1 (breakpoint_events_verified Samples2.afterTwoSets reachable_afterTwoSets)).
  - exact (proj2 (breakpoint_events_verified Samples.afterSet reachable_afterSet)
             0%nat Samples.afterTimer Hfire).
Defined.

(** X4: when [clearBreakPoint(path, line)] returns a record, it is the
    first record of the list of the file that is on that line; it is
    taken out of the list and nothing else changes: the other records of
    the list keep their order, and the lists of the other files, the
    records themselves, the counter, the engine and the pending
    notifications are the ones from before. *)
Theorem clearBreakPoint_removes_first path line rt bp rt' :
  clearBreakPoint path line rt = (Some bp, rt') →
  ∃ l1 l2,
    _breakPoints rt !! path = Some (l1 ++ bp :: l2) ∧
    lineOf rt bp = Some line ∧
    (∀ b : loc, b ∈ l1 → lineOf rt b ≠ Some line) ∧
    rt' = set_breakPoints (<[path := l1 ++ l2]> (_breakPoints rt)) rt.
Proof.
  intros Hclear.
  destruct (clearBreakPoint_cases path line rt)
    as [[Heq _]|(l1 & b & l2 & Hm & Hl1 & Hb & Heq)]; rewrite Heq in Hclear; [done|].
  injection Hclear as <- <-. exists l1, l2.
  split; [done|]. split; [by apply onLine_lineOf|]. split; [|done].
  intros b0 Hb0 Hline%onLine_lineOf. by rewrite (Hl1 b0 Hb0) in Hline.
Qed.

Lemma clearBreakPoint_removes_first_witness :
  clearBreakPoint Samples2.libPath 5 Samples2.afterTwoSets
  = (Some 0%nat, Samples2.afterClear) ∧
  ∃ l1 l2,
    _breakPoints Samples2.afterTwoSets !! Samples2.libPath = Some (l1 ++ 0%nat :: l2) ∧
    lineOf Samples2.afterTwoSets 0%nat = Some 5 ∧
    (∀ b : loc, b ∈ l1 → lineOf Samples2.afterTwoSets b ≠ Some 5) ∧
    Samples2.afterClear
    = set_breakPoints (<[Samples2.libPath := l1 ++ l2]>
                         (_breakPoints Samples2.afterTwoSets)) Samples2.afterTwoSets.
Proof.
  split; [exact clearBreakPoint_afterTwoSets|].
  exact (clearBreakPoint_removes_first Samples2.libPath 5 Samples2.afterTwoSets
           0%nat Samples2.afterClear clearBreakPoint_afterTwoSets).
Defined.

(** X5: [clearBreakPoint(path, line)] returns [undefined] exactly when
    the file has no list or its list holds no record on that line, and
    then it changes nothing. *)
Theorem clearBreakPoint_nothing_on_line path line rt :
  ((clearBreakPoint path line rt).1 = None ↔
   ∀ bps (bp : loc), _breakPoints rt !! path = Some bps → bp ∈ bps →
     lineOf rt bp ≠ Some line) ∧
  ((clearBreakPoint path line rt).1 = None → (clearBreakPoint path line rt).2 = rt).
Proof.
  destruct (clearBreakPoint_cases path line rt)
    as [[Heq Hnone]|(l1 & b & l2 & Hm & Hl1 & Hb & Heq)]; rewrite Heq; cbn [fst snd].
  - split; [|done]. split; [|done].
    intros _ bps bp Hp Hin Hline%onLine_lineOf. by rewrite (Hnone bps Hp bp Hin) in Hline.
  - split; [|done]. split; [done|].
    intros Hall. exfalso. apply (Hall _ b Hm).
    + apply elem_of_app. right. apply elem_of_cons. by left.
    + by apply onLine_lineOf.
Qed.

Lemma clearBreakPoint_nothing_on_line_witness :
  (clearBreakPoint Samples2.libPath 6 Samples2.afterTwoSets).2 = Samples2.afterTwoSets.
Proof.
  assert (Hnone : (clearBreakPoint Samples2.libPath 6 Samples2.afterTwoSets).1 = None)
    by (by vm_compute).
  exact (proj2 (clearBreakPoint_nothing_on_line Samples2.libPath 6
                  Samples2.afterTwoSets) Hnone).
Defined.

(** X6: the store does not prevent duplicates.  Setting a breakpoint
    twice on the same line of a file creates two records, and one
    [clearBreakPoint] on that line leaves the second one in the list of
    the file, still on that line. *)
Theorem setBreakPoint_twice_clear_once path line rt e :
  includes path "code/" = true →
  lldb rt = Some e →
  ∃ (bp1 bp2 b : loc) rt1 rt2 rt3 bps,
    setBreakPoint path line rt = Return (bp1, rt1) ∧
    setBreakPoint path line rt1 = Return (bp2, rt2) ∧
    bp1 ≠ bp2 ∧
    clearBreakPoint path line rt2 = (Some b, rt3) ∧
    _breakPoints rt3 !! path = Some bps ∧
    bp2 ∈ bps ∧ lineOf rt3 bp2 = Some line.
Proof.
  intros Hpath He.
  destruct (setBreakPoint_succeeds path line rt e Hpath He) as (bp1 & rt1 & e1 & Hs1 & He1).
  destruct (setBreakPoint_succeeds path line rt1 e1 Hpath He1)
    as (bp2 & rt2 & e2 & Hs2 & He2).
  destruct (setBreakPoint_lineOf _ _ _ _ _ Hs1) as [Hl1 _].
  destruct (setBreakPoint_lineOf _ _ _ _ _ Hs2) as [Hl2 Hold2].
  destruct (setBreakPoint_store _ _ _ _ _ Hs1) as (Hbp1 & _ & _ & Hm1 & _ & Hh1 & _).
  destruct (setBreakPoint_store _ _ _ _ _ Hs2) as (Hbp2 & _ & _ & Hm2 & _ & _).
  cbn zeta in *.
  assert (Hlen1 : length (heap rt1) = S (length (heap rt))).
  { rewrite Hh1, mark_all_length, length_app. simpl. lia. }
  assert (Hline1 : lineOf rt2 bp1 = Some line).
  { rewrite Hold2 by lia. done. }
  set (old := default [] (_breakPoints rt !! path)) in *.
  assert (Hmap2 : _breakPoints rt2 !! path = Some ((old ++ [bp1]) ++ [bp2])).
  { rewrite Hm2, lookup_insert_eq, Hm1, lookup_insert_eq. done. }
  destruct (clearBreakPoint_cases path line rt2)
    as [[_ Hnone]|(l1 & b & l2 & Hm & Hfirst & Hb & Heq)].
  { exfalso. apply onLine_lineOf in Hline1.
    rewrite (Hnone _ Hmap2 bp1) in Hline1; [done|].
    apply elem_of_app. left. apply elem_of_app. right. apply elem_of_cons. by left. }
  exists bp1, bp2, b, rt1, rt2,
    (set_breakPoints (<[path := l1 ++ l2]> (_breakPoints rt2)) rt2), (l1 ++ l2).
  split; [done|]. split; [done|]. split; [lia|]. split; [exact Heq|].
  cbn [_breakPoints set_breakPoints]. split; [by rewrite lookup_insert_eq|].
  split; [|exact Hl2].
  apply elem_of_app. right.
  apply (after_first_of_two (onLine rt2 line) l1 l2 old b bp1 bp2); [congruence|done|].
  by apply onLine_lineOf.
Qed.

Lemma setBreakPoint_twice_clear_once_witness :
  ∃ (bp1 bp2 b : loc) rt1 rt2 rt3 bps,
    setBreakPoint Samples2.libPath 5 Samples.ready = Return (bp1, rt1) ∧
    setBreakPoint Samples2.libPath 5 rt1 = Return (bp2, rt2) ∧
    bp1 ≠ bp2 ∧
    clearBreakPoint Samples2.libPath 5 rt2 = (Some b, rt3) ∧
    _breakPoints rt3 !! Samples2.libPath = Some bps ∧
    bp2 ∈ bps ∧ lineOf rt3 bp2 = Some 5.
Proof.
  assert (Hpath : includes Samples2.libPath "code/" = true) by (by vm_compute).
  exact (setBreakPoint_twice_clear_once Samples2.libPath 5 Samples.ready
           Samples.engine0 Hpath eq_refl).
Defined.

(** X7: after [clearBreakpoints(path)] the file has no breakpoint on any
    line; the next [setBreakPoint] on the file starts a new list that
    holds the new record only and schedules the notification of that
    record only, the lists of the other files are untouched, and the
    records created before are still there, as they were. *)
Theorem clearBreakpoints_then_setBreakPoint path line rt bp rt' :
  setBreakPoint path line (clearBreakpoints path rt) = Return (bp, rt') →
  (∀ l, clearBreakPoint path l (clearBreakpoints path rt)
        = (None, clearBreakpoints path rt)) ∧
  (∀ p, p ≠ path → _breakPoints rt' !! p = _breakPoints rt !! p) ∧
  _breakPoints rt' !! path = Some [bp] ∧
  bp = length (heap rt) ∧
  timers rt' = timers rt ++ [breakpointValidated bp] ∧
  (∀ b : loc, (b < length (heap rt))%nat → heap rt' !! b = heap rt !! b).
Proof.
  intros (Hbp & _ & _ & Hm & _ & Hh & Ht)%setBreakPoint_store. cbn zeta in *.
  cbn [clearBreakpoints set_breakPoints _breakPoints heap timers] in *.
  rewrite lookup_delete_eq in Hm, Hh, Ht. cbn [default app] in *.
  split.
  { intros l. unfold clearBreakPoint, clearBreakpoints.
    cbn [_breakPoints set_breakPoints]. by rewrite lookup_delete_eq. }
  split.
  { intros p Hne. rewrite Hm, lookup_insert_ne, lookup_delete_ne by done. done. }
  split; [by rewrite Hm, lookup_insert_eq|]. split; [done|]. split; [done|].
  intros b Hb. rewrite Hh, mark_all_lookup, lookup_app_l by done.
  rewrite bool_decide_eq_false_2; [by destruct (heap rt !! b)|].
  intros ->%list_elem_of_singleton. lia.
Qed.

Lemma clearBreakpoints_then_setBreakPoint_witness :
  ∃ rt', setBreakPoint Samples2.libPath 7
           (clearBreakpoints Samples2.libPath Samples2.afterTwoSets)
         = Return (2%nat, rt') ∧
    _breakPoints rt' !! Samples2.libPath = Some [2%nat].
Proof.
  destruct (setBreakPoint Samples2.libPath 7
              (clearBreakpoints Samples2.libPath Samples2.afterTwoSets))
    as [[bp rt']|err] eqn:Hset; [|by vm_compute in Hset].
  assert (Hbp : bp = 2%nat) by (vm_compute in Hset; congruence).
  subst bp. exists rt'. split; [done|].
  exact (proj1 (proj2 (proj2 (clearBreakpoints_then_setBreakPoint Samples2.libPath 7
                                Samples2.afterTwoSets 2%nat rt' Hset)))).
Defined.

(** X8: no operation of the runtime fills [_sourceLines], so in every
    state that the operations of the runtime produce [getBreakpoints]
    throws on [l.length], whatever the path and the line. *)
Theorem getBreakpoints_throws path line rt :
  reachable rt →
  getBreakpoints path line rt
  = Throw (TypeError "Cannot read properties of undefined (reading 'length')").
Proof.
  intros [Hsl _]%reachable_no_source. unfold getBreakpoints. rewrite Hsl.
  by destruct (0 <=? line).
Qed.

Lemma getBreakpoints_throws_witness :
  getBreakpoints Samples2.libPath 5 Samples.afterSet
  = Throw (TypeError "Cannot read properties of undefined (reading 'length')").
Proof.
  exact (getBreakpoints_throws Samples2.libPath 5 Samples.afterSet reachable_afterSet).
Defined.

End StoreProperties.

(** ** Further properties of the session *)

Section SessionProperties.
Import JS Path Runtime Spec Spec2 Session Handlers.

(** X9: [breakpointLocationsRequest] never reports a location.  In every
    state of a session started with [new SolanaDebugSession()], a request
    without a source path (or with an empty one) is answered with the
    empty list, and a request with a source path fails in
    [getBreakpoints], on the length of a source line that no code has
    loaded, before any response is sent. *)
Theorem breakpointLocationsRequest_no_location convertDebuggerColumnToClient path line s :
  reachable_from Session.new s →
  breakpointLocationsRequest convertDebuggerColumnToClient path line s
  = match path with
    | Some (String _ _) =>
        Throw (TypeError "Cannot read properties of undefined (reading 'length')")
    | _ => Return []
    end.
Proof.
  intros Hreach.
  pose proof (session_reachable_runtime _ _ Hreach reach_new) as Hrt.
  apply reachable_no_source in Hrt as [Hsl _].
  unfold breakpointLocationsRequest. destruct path as [[|c p]|]; [done| |done].
  unfold getBreakpoints. rewrite Hsl. by destruct (0 <=? line).
Qed.

Lemma breakpointLocationsRequest_no_location_witness :
  breakpointLocationsRequest (λ c, c + 1) (Some Samples2.libPath) 5 Samples2.failedCall
  = Throw (TypeError "Cannot read properties of undefined (reading 'length')").
Proof.
  assert (Hstep : step Session.new Samples2.failedCall).
  { apply (step_handler (CallLldbRun "request_stackTrace" "{1}")), perform_call.
    apply (resume_enter_unloaded 0 Samples.call1
             (set_activations (activations Session.new ++ [Samples.call1]) Session.new));
      reflexivity. }
  exact (breakpointLocationsRequest_no_location (λ c, c + 1) (Some Samples2.libPath) 5
           Samples2.failedCall (reachable_step _ _ _ (reachable_refl _) Hstep)).
Defined.

(** X10: the session never uses the breakpoint store of its runtime
    ([setBreakPointsRequest] talks to the engine only), and the runtime
    never emits 'end'.  So in every state of a session started with
    [new SolanaDebugSession()] the store is empty, only stop
    notifications are pending, and of the events that the listeners of
    the constructor forward only stopped events (reason "entry", "step"
    or "breakpoint", thread 1) have been sent: no breakpoint event and
    no terminated event. *)
Theorem session_forwards_stops_only s :
  reachable_from Session.new s →
  heap (_runtime s) = [] ∧ _breakPoints (_runtime s) = ∅ ∧
  (∀ ev, ev ∈ timers (_runtime s) →
     ev = stopOnEntry ∨ ev = stopOnStep ∨ ev = stopOnBreakpoint) ∧
  (SentEvent TerminatedEvent ∉ sent s) ∧
  (∀ reason verified id, SentEvent (BreakpointEvent reason verified id) ∉ sent s) ∧
  (∀ reason threadId, SentEvent (StoppedEvent reason threadId) ∈ sent s →
     threadId = 1 ∧ (reason = "entry" ∨ reason = "step" ∨ reason = "breakpoint")).
Proof.
  intros Hreach. destruct (session_untouched s Hreach) as [(Hh & Hm & _ & Ht) Hsent].
  rewrite Forall_forall in Hsent.
  split; [done|]. split; [done|]. split; [exact Ht|].
  split; [intros Hin; exact (Hsent _ Hin)|].
  split; [intros reason verified id Hin; exact (Hsent _ Hin)|].
  intros reason threadId Hin. exact (Hsent _ Hin).
Qed.

Lemma session_forwards_stops_only_witness :
  heap (_runtime Samples2.failedCall) = [] ∧
  SentEvent TerminatedEvent ∉ sent Samples2.failedCall.
Proof.
  assert (Hstep : step Session.new Samples2.failedCall).
  { apply (step_handler (CallLldbRun "request_stackTrace" "{1}")), perform_call.
    apply (resume_enter_unloaded 0 Samples.call1
             (set_activations (activations Session.new ++ [Samples.call1]) Session.new));
      reflexivity. }
  destruct (session_forwards_stops_only Samples2.failedCall
              (reachable_step _ _ _ (reachable_refl _) Hstep)) as (H1 & _ & _ & H2 & _).
  split; [exact H1|exact H2].
Defined.

(** X11: [lldbRun] has no [try]/[finally]: a call that is left by an
    exception (the engine not loaded, the engine call failing,
    [JSON.parse] or the rewriting of the stack trace throwing) never
    resets [_isRunningLldb].  From then on, whatever happens, the flag
    stays set, the buffers that the call had allocated stay allocated,
    and every other call that was waiting or is made later waits for
    ever: no further request reaches the engine through [lldbRun]. *)
Theorem lldbRun_exception_wedges s0 s s' i a err leaked :
  idle s0 → reachable_from s0 s →
  activations s !! i = Some a → pc a = Thrown err leaked →
  reachable_from s s' →
  _isRunningLldb s' = true ∧
  activations s' !! i = Some a ∧
  (∀ p, p ∈ live s' ↔ p ∈ leaked) ∧
  (∀ j b', j ≠ i →
     (∀ b, activations s !! j = Some b → pc b = Polling) →
     activations s' !! j = Some b' → pc b' = Polling).
Proof.
  intros Hidle Hreach0 Hi Hpc Hreach.
  destruct (reachable_inv _ _ Hidle Hreach0) as [Hinv _].
  pose proof (reachable_from_bridge_inv _ _ Hinv Hreach) as Hinv'.
  pose proof (reachable_from_keeps_Thrown _ _ _ _ _ _ Hreach Hi Hpc) as Hi'.
  assert (Hh : holding (pc a) = true) by (by rewrite Hpc).
  assert (Hflag : _isRunningLldb s' = true).
  { unfold bridge_inv in Hinv'. destruct (_isRunningLldb s'); [done|].
    destruct Hinv' as [Hnone _]. by rewrite (Hnone i a Hi') in Hh. }
  split; [done|]. split; [done|]. split.
  - unfold bridge_inv in Hinv'. rewrite Hflag in Hinv'.
    destruct Hinv' as (k & c & Hk & _ & Huniq & Hlive & _).
    assert (i = k) as <- by (by eapply Huniq).
    assert (c = a) as -> by congruence.
    intros p. rewrite Hlive, Hpc. done.
  - intros j b' Hne Hw Hj.
    assert (Hnot : ¬ pc b' ≠ Polling).
    { intros Hnp.
      destruct (served_after_holder s s' i a Hinv Hi Hh Hreach j b' Hne Hw Hj Hnp)
        as (a' & Ha' & Hret).
      assert (a' = a) as -> by congruence. congruence. }
    destruct (pc b'); first [done|exfalso; apply Hnot; discriminate].
Qed.

(** The first call of a session whose engine was never loaded fails on
    [_malloc]; a second call waits, with the flag set. *)
Lemma lldbRun_exception_wedges_witness :
  _isRunningLldb Samples2.failedThenCalled = true ∧
  pc <$> activations Samples2.failedThenCalled
  = [Thrown (TypeError "Cannot read properties of undefined (reading '_malloc')") [];
     Polling].
Proof.
  assert (Hidle : idle Session.new).
  { split; [reflexivity|]. split; [intros i a Hi; discriminate Hi|reflexivity]. }
  assert (Hone : step Session.new Samples2.failedCall).
  { apply (step_handler (CallLldbRun "request_stackTrace" "{1}")), perform_call.
    apply (resume_enter_unloaded 0 Samples.call1
             (set_activations (activations Session.new ++ [Samples.call1]) Session.new));
      reflexivity. }
  assert (Htwo : step Samples2.failedCall Samples2.failedThenCalled).
  { apply (step_handler (CallLldbRun "request_scopes" "{2}")), perform_call.
    apply (resume_busy 1 Samples.call2 Samples2.failedThenCalled); reflexivity. }
  destruct (lldbRun_exception_wedges Session.new Samples2.failedCall
              Samples2.failedThenCalled 0%nat
              (set_pc (Thrown (TypeError
                         "Cannot read properties of undefined (reading '_malloc')") [])
                 Samples.call1)
              (TypeError "Cannot read properties of undefined (reading '_malloc')") []
              Hidle (reachable_step _ _ _ (reachable_refl _) Hone) eq_refl eq_refl
              (reachable_step _ _ _ (reachable_refl _) Htwo))
    as (Hflag & _).
  split; [exact Hflag|reflexivity].
Defined.

(** X12: no code fills the memory buffer of the runtime, so in every
    state of a session started with [new SolanaDebugSession()] a
    [readMemory] request is answered with no data at all and with
    [unreadableBytes] = 0 - ([offset] + [count]) as JavaScript computes
    it on numbers; for |[offset] + [count]| below 2^53 this is exactly
    -([offset] + [count]), a negative number for a positive sum. *)
Theorem readMemoryRequest_no_data response args s :
  reachable_from Session.new s →
  Number.isInteger (default 0 (arg_offset args)) →
  Number.isInteger (arg_count args) →
  readMemoryRequest response args s
  = Respond (set_body
               (ReadMemory "0" EmptyString
                  (Number.sub 0 (Number.add (default 0 (arg_offset args)) (arg_count args))))
               response) ∧
  (Z.abs (default 0 (arg_offset args) + arg_count args) < 9007199254740992 →
   Number.sub 0 (Number.add (default 0 (arg_offset args)) (arg_count args))
   = - (default 0 (arg_offset args) + arg_count args)).
Proof.
  intros Hreach _ _.
  pose proof (session_reachable_runtime _ _ Hreach reach_new) as Hrt.
  apply reachable_no_source in Hrt as [_ Hmem].
  split.
  - unfold readMemoryRequest. by rewrite Hmem, slice_nil.
  - intros Hsafe. unfold Number.sub, Number.add.
    rewrite (round_small (_ + _)) by done. rewrite round_small by lia. lia.
Qed.

Lemma readMemoryRequest_no_data_witness :
  readMemoryRequest (Samples.okResponse "readMemory")
    {| memoryReference := "1000"; arg_offset := None; arg_count := 16 |}
    Session.new
  = Respond (set_body (ReadMemory "0" EmptyString (-16)) (Samples.okResponse "readMemory"))
  ∧
  readMemoryRequest (Samples.okResponse "readMemory")
    {| memoryReference := "1000"; arg_offset := Some 9007199254740992; arg_count := 1 |}
    Session.new
  = Respond (set_body (ReadMemory "0" EmptyString (-9007199254740992))
               (Samples.okResponse "readMemory")).
Proof.
  assert (H0 : Number.isInteger 0) by (split; [reflexivity|by vm_compute]).
  assert (H1 : Number.isInteger 1) by (split; [reflexivity|by vm_compute]).
  assert (H16 : Number.isInteger 16) by (split; [reflexivity|by vm_compute]).
  assert (Hbig : Number.isInteger 9007199254740992)
    by (split; [reflexivity|by vm_compute]).
  split.
  - exact (proj1 (readMemoryRequest_no_data (Samples.okResponse "readMemory")
                    {| memoryReference := "1000"; arg_offset := None; arg_count := 16 |}
                    Session.new (reachable_refl _) H0 H16)).
  - exact (proj1 (readMemoryRequest_no_data (Samples.okResponse "readMemory")
                    {| memoryReference := "1000"; arg_offset := Some 9007199254740992;
                       arg_count := 1 |}
                    Session.new (reachable_refl _) Hbig H1)).
Defined.

(** X13: the stepping requests while the engine is not loaded.
    [continueRequest], [nextRequest] and [stepInRequest] await the
    runtime, which fails on [this.lldb.ccall]: they send no response.
    [stepOutRequest] does not await [stepOut()]: the failure is lost and
    the response is sent all the same, with nothing else changed. *)
Theorem stepping_requests_unloaded response s :
  lldb (_runtime s) = None →
  continueRequest response s
  = Throw (TypeError "Cannot read properties of undefined (reading 'ccall')") ∧
  nextRequest response s
  = Throw (TypeError "Cannot read properties of undefined (reading 'ccall')") ∧
  stepInRequest response s
  = Throw (TypeError "Cannot read properties of undefined (reading 'ccall')") ∧
  stepOutRequest response s = send (SentResponse response) s.
Proof.
  intros Hnone.
  unfold continueRequest, nextRequest, stepInRequest, stepOutRequest,
    continue, next, stepIn, stepOut, lldb_ccall.
  rewrite Hnone. done.
Qed.

Lemma stepping_requests_unloaded_witness :
  continueRequest (Samples.okResponse "continue") Session.new
  = Throw (TypeError "Cannot read properties of undefined (reading 'ccall')") ∧
  sent (stepOutRequest (Samples.okResponse "stepOut") Session.new)
  = [SentResponse (Samples.okResponse "stepOut")].
Proof.
  split.
  - exact (proj1 (stepping_requests_unloaded (Samples.okResponse "continue")
                    Session.new eq_refl)).
  - destruct (stepping_requests_unloaded (Samples.okResponse "stepOut")
                Session.new eq_refl) as (_ & _ & _ & Hout).
    rewrite Hout. reflexivity.
Defined.

(** X14: the stepping requests while the engine is loaded and no timer
    is pending.  Each one makes its call into the engine, sends its
    response, and on the next timer the session reports that the program
    has stopped, whatever the engine did: reason "breakpoint" after
    [continueRequest], reason "step" after [nextRequest],
    [stepInRequest] and [stepOutRequest].  The response precedes the
    stopped event. *)
Theorem stepping_requests_stop response s e :
  lldb (_runtime s) = Some e →
  timers (_runtime s) = [] →
  let after (c : EngineCall) (reason : string) (s2 : SolanaDebugSession) :=
    lldb (_runtime s2) = Some (ccall c e) ∧
    timers (_runtime s2) = [] ∧
    sent s2 = sent s ++ [SentResponse response; SentEvent (StoppedEvent reason 1)] ∧
    _isRunningLldb s2 = _isRunningLldb s ∧ activations s2 = activations s in
  (∃ s1 s2, continueRequest response s = Return s1 ∧ onTimer s1 = Some s2 ∧
            after (execute_command "continue") "breakpoint" s2) ∧
  (∃ s1 s2, nextRequest response s = Return s1 ∧ onTimer s1 = Some s2 ∧
            after request_next "step" s2) ∧
  (∃ s1 s2, stepInRequest response s = Return s1 ∧ onTimer s1 = Some s2 ∧
            after request_stepIn "step" s2) ∧
  (∃ s2, onTimer (stepOutRequest response s) = Some s2 ∧
         after request_stepOut "step" s2).
Proof.
  intros He Ht after.
  unfold continueRequest, nextRequest, stepInRequest, stepOutRequest,
    continue, next, stepIn, stepOut, lldb_ccall.
  rewrite He. cbn [bind].
  unfold onTimer, fireTimer, sendEvent.
  cbn [_runtime send set_runtime timers set_timers set_lldb].
  rewrite Ht. cbn [app listener].
  unfold after.
  cbn [_runtime send set_runtime timers set_timers set_lldb lldb sent
       _isRunningLldb activations].
  split; [|split; [|split]]; eexists; try eexists;
    repeat (split; [reflexivity|]); try reflexivity;
    cbn [listener sent send set_runtime]; by rewrite <- app_assoc.
Qed.

Lemma stepping_requests_stop_witness :
  ∃ s1 s2, continueRequest (Samples.okResponse "continue") Samples.session = Return s1 ∧
    onTimer s1 = Some s2 ∧
    sent s2 = [SentResponse (Samples.okResponse "continue");
               SentEvent (StoppedEvent "breakpoint" 1)].
Proof.
  destruct (stepping_requests_stop (Samples.okResponse "continue") Samples.session
              Samples.engine0 eq_refl eq_refl)
    as ((s1 & s2 & H1 & H2 & _ & _ & H3 & _) & _).
  exists s1, s2. split; [exact H1|]. split; [exact H2|exact H3].
Defined.

(** X20: one call of [lldbRun] from its start to its end.  From a moment
    at which no call is outstanding and the engine is loaded, a call can
    always run to completion when the engine answers with a text that
    [JSON.parse] accepts and whose rewriting completes: the request is
    written into a fresh buffer, the engine is called once, with that
    buffer, the rewritten response is the one message sent, both buffers
    are released, the flag is reset, and no call is outstanding
    afterwards. *)
Theorem lldbRun_completes s e fn req (responseStr : string) responseJSON adjusted :
  idle s →
  lldb (_runtime s) = Some e →
  StackTraceRewrite.rewriteResponse fn responseJSON = Return adjusted →
  ∃ s' rxPtr,
    reachable_from s s' ∧
    idle s' ∧
    sent s' = sent s ++ [SentResponse adjusted] ∧
    activations s'
    = activations s ++ [{| funcName := fn; request_text := req; pc := Returned |}] ∧
    _runtime s'
    = set_lldb (Some {| calls := calls e ++ [request fn rxPtr]; buffers := ∅ |})
        (_runtime s).
Proof.
  intros Hidle He Hrw. pose proof Hidle as (Hflag & Hall & Hlive).
  set (a := {| funcName := fn; request_text := req; pc := Polling |}).
  assert (Hbuf : buffers e = ∅).
  { unfold live, allocated in Hlive. rewrite He in Hlive. by apply dom_empty_inv_L. }
  pose proof (reachable_refl s) as H.
  (* the call is made and takes the bridge *)
  eapply (reachable_step _ _ (during s a (AwaitMalloc 0) true
            (set_buffers (<[0 := EmptyString]> ∅) e) [])) in H.
  2:{ apply (step_handler (CallLldbRun fn req)), perform_call.
      unfold lldbRun. fold a. rewrite <- Hbuf, <- (enter_during s a e 0 eq_refl).
      apply resume_enter; [done..|]. by rewrite Hbuf. }
  (* it writes the request, calls the engine, reads the answer *)
  eapply reachable_step in H.
  2:{ apply during_step. eapply resume_write; reflexivity. }
  rewrite goto_engine_during in H.
  eapply reachable_step in H.
  2:{ apply during_step. eapply resume_ccall; reflexivity. }
  rewrite goto_engine_during in H.
  eapply reachable_step in H.
  2:{ apply during_step. eapply (resume_result _ _ _ _ _ 1 responseStr); [reflexivity..|].
      cbn. by rewrite !lookup_insert_ne, lookup_empty. }
  rewrite goto_engine_during in H.
  (* it sends the response and releases the buffers *)
  eapply reachable_step in H.
  2:{ apply during_step. eapply resume_send; [reflexivity|reflexivity|exact Hrw]. }
  rewrite goto_send_during in H.
  eapply reachable_step in H.
  2:{ apply during_step. eapply resume_free; reflexivity. }
  rewrite goto_engine_during in H.
  eapply reachable_step in H.
  2:{ apply during_step. eapply resume_return; reflexivity. }
  rewrite goto_flag_during in H.
  eexists _, 0. split; [exact H|]. split.
  { split; [done|]. split.
    - intros i b [Hb|[_ Hb]]%lookup_app_Some; [by eapply Hall|].
      destruct (i - length (activations s))%nat; simpl in Hb; [|done].
      by injection Hb as <-.
    - unfold live, allocated. cbn [during _runtime lldb set_lldb set_buffers buffers].
      rewrite !dom_delete_L, !dom_insert_L, ?dom_empty_L. set_solver. }
  split; [done|]. split; [done|].
  cbn [during _runtime]. f_equal.
Qed.

Lemma lldbRun_completes_witness :
  ∃ s' adjusted,
    StackTraceRewrite.rewriteResponse "request_stackTrace"
      {| request_seq := 7; success := true; command := "stackTrace";
         body := Some (StackTrace Samples.sdkTrace) |} = Return adjusted ∧
    reachable_from Samples.session s' ∧
    sent s' = [SentResponse adjusted] ∧ _isRunningLldb s' = false.
Proof.
  assert (Hidle : idle Samples.session).
  { split; [reflexivity|]. split; [intros i a Hi; discriminate Hi|].
    apply dom_empty_L. }
  destruct (StackTraceRewrite.rewriteResponse "request_stackTrace"
              {| request_seq := 7; success := true; command := "stackTrace";
                 body := Some (StackTrace Samples.sdkTrace) |})
    as [adjusted|err] eqn:Hrw; [|by vm_compute in Hrw].
  destruct (lldbRun_completes Samples.session Samples.engine0 "request_stackTrace"
              "{1}" "{}" _ adjusted Hidle eq_refl Hrw)
    as (s' & rxPtr & Hreach & (Hflag & _) & Hsent & _).
  exists s', adjusted. split; [done|]. split; [exact Hreach|].
  split; [exact Hsent|exact Hflag].
Defined.

End SessionProperties.

(** ** Further properties of the path translation and of the rewriting
    of stack traces *)

Section PathProperties.
Import JS Path StackTraceRewrite.

(** X15: round trip for the files of the project.  For a file below the
    project directory whose relative path [rem] contains none of
    "code/", "sdk", "rust-solana" and "home/", the forward rule of
    [setBreakPointsRequest] gives "home/" + [rem], and the reverse rule
    of [lldbRun] applied to it gives the editor path back. *)
Theorem roundtrip_project rem :
  includes rem "code/" = false →
  includes rem "sdk" = false →
  includes rem "rust-solana" = false →
  includes rem "home/" = false →
  toEnginePath (Some (projectPath +:+ rem)) = "home/" +:+ rem ∧
  toEditorPath (Some (toEnginePath (Some (projectPath +:+ rem)))) = projectPath +:+ rem.
Proof.
  intros Hcode Hsdk Hrust Hhome.
  rewrite toEnginePath_project by done. split; [done|]. by apply toEditorPath_project.
Qed.

Lemma roundtrip_project_witness :
  toEnginePath (Some "/home/wj/temp/test_theia/debug-test/code/src/lib.rs")
  = "home/src/lib.rs" ∧
  toEditorPath (Some (toEnginePath
                        (Some "/home/wj/temp/test_theia/debug-test/code/src/lib.rs")))
  = "/home/wj/temp/test_theia/debug-test/code/src/lib.rs".
Proof.
  exact (roundtrip_project "src/lib.rs" eq_refl eq_refl eq_refl eq_refl).
Defined.

(** X16: round trip for the vendored Rust runtime.  For a file below
    "rust-solana-1.59.0/" in the project directory whose relative path
    [rem] contains none of "code/", "sdk", "rust-solana-1.59.0/",
    "home/home/" and "out/rust/", the forward rule gives the path of the
    build machine, "/home/runner/work/bpf-tools/bpf-tools/out/rust/" +
    [rem], and the reverse rule applied to it gives the editor path
    back. *)
Theorem roundtrip_rust rem :
  includes rem "code/" = false →
  includes rem "sdk" = false →
  includes rem "rust-solana-1.59.0/" = false →
  includes rem "home/home/" = false →
  includes rem "out/rust/" = false →
  toEnginePath (Some (rustCorePath +:+ rem))
  = "/home/runner/work/bpf-tools/bpf-tools/out/rust/" +:+ rem ∧
  toEditorPath (Some (toEnginePath (Some (rustCorePath +:+ rem)))) = rustCorePath +:+ rem.
Proof.
  intros Hcode Hsdk Hrust Hhome Hout.
  rewrite toEnginePath_rust by done. split; [done|]. by apply toEditorPath_rust.
Qed.

Lemma roundtrip_rust_witness :
  toEnginePath
    (Some "/home/wj/temp/test_theia/debug-test/code/rust-solana-1.59.0/library/core/src/fmt/mod.rs")
  = "/home/runner/work/bpf-tools/bpf-tools/out/rust/library/core/src/fmt/mod.rs" ∧
  toEditorPath
    (Some (toEnginePath
             (Some "/home/wj/temp/test_theia/debug-test/code/rust-solana-1.59.0/library/core/src/fmt/mod.rs")))
  = "/home/wj/temp/test_theia/debug-test/code/rust-solana-1.59.0/library/core/src/fmt/mod.rs".
Proof.
  exact (roundtrip_rust "library/core/src/fmt/mod.rs" eq_refl eq_refl eq_refl eq_refl
           eq_refl).
Defined.

(** X17: a source outside the workspace.  When the request has no source
    path, or a path without "code/", [setBreakPointsRequest] does not
    fail (it uses [?.]): it asks the engine for "home/undefined", and the
    reverse rule turns that into the project directory followed by
    "undefined". *)
Theorem toEnginePath_outside_workspace path :
  (∀ p, path = Some p → includes p "code/" = false) →
  toEnginePath path = "home/undefined" ∧
  toEditorPath (Some (toEnginePath path)) = projectPath +:+ "undefined".
Proof.
  intros Hout.
  assert (H1 : toEnginePath path = "home/undefined").
  { unfold toEnginePath. destruct path as [p|]; [|done].
    cbn [mbind option_bind]. rewrite split_1_absent; [done|done|by apply Hout]. }
  rewrite H1. split; [done|]. by apply (toEditorPath_project "undefined").
Qed.

Lemma toEnginePath_outside_workspace_witness :
  toEnginePath (Some "/tmp/a.rs") = "home/undefined" ∧
  toEditorPath (Some (toEnginePath (Some "/tmp/a.rs")))
  = "/home/wj/temp/test_theia/debug-test/code/undefined".
Proof.
  assert (Hout : ∀ p, Some "/tmp/a.rs" = Some p → includes p "code/" = false).
  { intros p [= <-]. reflexivity. }
  exact (toEnginePath_outside_workspace (Some "/tmp/a.rs") Hout).
Defined.

(** X18: the rewriting of a stack-trace body completes exactly when
    every index below [totalFrames] (0 when absent) holds a frame that
    has a source.  In particular it throws on every response that
    returns fewer frames than [totalFrames] announces, as a response
    to a request for a range of frames does. *)
Theorem rewriteBody_completes_iff b :
  ((∃ b', rewriteBody b = Return b') ↔
   ∀ i, (i < Z.to_nat (default 0%Z (totalFrames b)))%nat →
     ∃ f s, stackFrames b !! i = Some f ∧ frame_source f = Some s) ∧
  (Z.of_nat (length (stackFrames b)) < default 0 (totalFrames b) →
   ∃ err, rewriteBody b = Throw err).
Proof.
  assert (Hiff : (∃ b', rewriteBody b = Return b') ↔
            ∀ i, (i < Z.to_nat (default 0%Z (totalFrames b)))%nat →
              ∃ f s, stackFrames b !! i = Some f ∧ frame_source f = Some s).
  { split.
    - intros [b' Hb'%rewriteBody_Return] i Hi.
      apply (rewriteLoop_sources _ _ _ _ Hb' i). lia.
    - intros Hall.
      destruct (rewriteLoop_completes (Z.to_nat (default 0 (totalFrames b))) 0
                  (stackFrames b)) as [frames Hrun].
      { intros i Hi. apply Hall. lia. }
      unfold rewriteBody. rewrite Hrun. by eexists. }
  split; [exact Hiff|].
  intros Hlt. destruct (rewriteBody b) as [b'|err] eqn:Hrun; [|by exists err].
  exfalso. apply proj1 in Hiff.
  destruct (Hiff (ex_intro _ b' eq_refl) (length (stackFrames b)) ltac:(lia))
    as (f & s & Hf & _).
  apply lookup_lt_Some in Hf. lia.
Qed.

Lemma rewriteBody_completes_iff_witness :
  ∃ err, rewriteBody Samples2.pagedTrace = Throw err.
Proof.
  exact (proj2 (rewriteBody_completes_iff Samples2.pagedTrace) ltac:(by vm_compute)).
Defined.

(** X19: what the rewriting of a stack-trace body leaves alone when it
    completes: the number of frames, [totalFrames], and in every frame
    the id, the name, the line, the column and the source reference; a
    source that has no source reference keeps its name, one that has a
    source reference keeps its path; the frames at the indices from
    [totalFrames] on are not touched at all. *)
Theorem rewriteBody_preserves b b' :
  rewriteBody b = Return b' →
  totalFrames b' = totalFrames b ∧
  length (stackFrames b') = length (stackFrames b) ∧
  ∀ i f, stackFrames b !! i = Some f →
    ∃ f', stackFrames b' !! i = Some f' ∧
      frame_id f' = frame_id f ∧ frame_name f' = frame_name f ∧
      frame_line f' = frame_line f ∧ frame_column f' = frame_column f ∧
      src_sourceReference <$> frame_source f' = src_sourceReference <$> frame_source f ∧
      (∀ s s', frame_source f = Some s → frame_source f' = Some s' →
         (src_sourceReference s = None → src_name s' = src_name s) ∧
         (src_sourceReference s ≠ None → src_path s' = src_path s)) ∧
      (default 0 (totalFrames b) ≤ Z.of_nat i → f' = f).
Proof.
  intros Hrun. pose proof (rewriteBody_Return _ _ Hrun) as Hloop.
  split.
  { unfold rewriteBody in Hrun. destruct (rewriteLoop _ 0 (stackFrames b)); [|done].
    simpl in Hrun. by injection Hrun as <-. }
  split; [by eapply rewriteLoop_length|].
  intros i f Hf. pose proof (rewriteLoop_Return _ _ _ _ Hloop i f Hf) as Hi.
  case_bool_decide as Hrange.
  - destruct Hi as (f' & (s & Hs & ->)%rewriteFrame_Return & Hf').
    exists (set_frame_source
              (match src_sourceReference s with
               | Some _ => set_src_name (Some (frame_name f)) s
               | None => set_src_path (Some (toEditorPath (src_path s))) s
               end) f).
    split; [done|]. split; [done|]. split; [done|]. split; [done|]. split; [done|].
    split; [rewrite Hs; by destruct (src_sourceReference s)|].
    split; [|lia].
    intros s0 s' [= <-]%(eq_trans (eq_sym Hs)) [= <-].
    destruct (src_sourceReference s); by split.
  - exists f. split; [done|]. split; [done|]. split; [done|]. split; [done|].
    split; [done|]. split; [done|]. split; [|done].
    intros s s' Hs Hs'. assert (s' = s) as -> by congruence. done.
Qed.

Lemma rewriteBody_preserves_witness :
  ∃ b', rewriteBody Samples2.mixedTrace = Return b' ∧
    length (stackFrames b') = 3%nat ∧ totalFrames b' = Some 2.
Proof.
  destruct (rewriteBody Samples2.mixedTrace) as [b'|err] eqn:Hrun;
    [|by vm_compute in Hrun].
  exists b'. split; [done|].
  destruct (rewriteBody_preserves Samples2.mixedTrace b' Hrun) as (Ht & Hl & _).
  split; [exact Hl|exact Ht].
Defined.

End PathProperties.
